(** * eass.h: dynamic values, growable arrays and the template formatter

    A shallow embedding of [src/eass.h] and the properties of its
    specification, settled against it.

    Conventions of the embedding (LP64 target, as the header's Linux branch):
    - [int] is 32 bits, [size_t] and pointers are 64 bits; both are carried
      by [Z] and every wrap-around is written out ([to_int], [to_size_t]);
    - [sizeof(DynamicValue)] is 40: two [int]s and a union whose largest
      member, [DynamicArray], holds a pointer, two [size_t] and an [int];
    - heap objects live in a finite map from addresses to blocks; a block of
      [DynamicValue] carries one slot per element, [None] for a slot that was
      never written (indeterminate contents);
    - a C function that receives [DynamicArray* arr] takes the pointed-to
      struct and returns it, updated, next to the new state; the struct the C
      function returns by value is a copy of that same struct;
    - every step the C standard leaves undefined (out-of-bounds access,
      [va_arg] past the last argument, a branch on indeterminate contents,
      [free] of a block that is not live, a union member read through the
      wrong tag) is the outcome [Undefined]; [OutOfFuel] is the model's own
      outcome for a recursion through the heap that was given too little
      fuel, and no C behaviour. *)

From Stdlib Require Import ZArith String Ascii List Lia SpecFloat DecimalString.
From Stdlib Require HexadecimalString DecimalPos DecimalZ HexadecimalN.
From stdpp Require Import base option list gmap strings.

Local Open Scope Z_scope.

(** ** Outcomes *)

Inductive outcome (A : Type) : Type :=
| Ok (a : A)
| Undefined
| OutOfFuel.
Arguments Ok {A} a.
Arguments Undefined {A}.
Arguments OutOfFuel {A}.

#[global] Instance outcome_ret : MRet outcome := @Ok.
#[global] Instance outcome_bind : MBind outcome :=
  λ A B f m, match m with
             | Ok a => f a
             | Undefined => Undefined
             | OutOfFuel => OutOfFuel
             end.

(** ** Machine integers *)

Definition to_size_t (z : Z) : Z := z mod 2 ^ 64.

(** Conversion to [int]: reduction modulo 2^32 into the signed range. *)
Definition to_int (z : Z) : Z := (z + 2 ^ 31) mod 2 ^ 32 - 2 ^ 31.

Definition LONG_MAX : Z := 2 ^ 63 - 1.

Definition sizeof_DynamicValue : Z := 40.

(** [errno.h] is not part of the header; the values are those of Linux. *)
Definition ENOMEM : Z := 12.
Definition EINVAL : Z := 22.

(** ** Data model *)

Abbreviation addr := positive.

Inductive ptr : Type :=
| NULL
| Ptr (a : addr).

Inductive EassType : Type :=
| EASS_INT
| EASS_FLOAT
| EASS_STRING
| EASS_ARRAY
| EASS_NULL.

Record DynamicArray : Type := mkArray {
  data : ptr;
  size : Z;
  capacity : Z;
  error : Z
}.

(** A [float] or [double]: the number as [SpecFloat] has it and, because
    [SpecFloat] has a single NaN, the sign bit of a NaN beside it. *)
Record c_float : Type := mkFloat {
  float_value : spec_float;
  nan_sign : bool
}.

(** The union [value]: the member that was last written. *)
Inductive payload : Type :=
| PInt (i : Z)
| PFloat (f : c_float)
| PStr (s : ptr)
| PArr (a : DynamicArray).

Record DynamicValue : Type := mkValue {
  type : EassType;
  verror : Z;
  value : payload
}.

Abbreviation slot := (option DynamicValue).

Inductive block : Type :=
| CharBuf (s : string)
| ValBuf (l : list slot).

Record EassError : Type := mkError {
  code : Z;
  message : string
}.

(** The state a call runs in: the heap with the allocator's next fresh
    address, the error slot [eass_last_error], and what was written to
    [stdout]. *)
Record state : Type := mkState {
  heap : gmap addr block;
  next : addr;
  eass_last_error : EassError;
  stdout : string
}.

Definition set_heap (h : gmap addr block) (st : state) : state :=
  mkState h (next st) (eass_last_error st) (stdout st).

Definition initial_state : state :=
  mkState ∅ 1%positive (mkError 0 "") "".

(** ** The error slot *)

Definition eass_get_last_error (st : state) : EassError := eass_last_error st.

(** [strncpy] into [message[256]]: at most 255 characters are kept. *)
Definition _set_error (code : Z) (msg : string) (st : state) : state :=
  mkState (heap st) (next st) (mkError code (String.substring 0 255 msg)) (stdout st).

(** ** The allocator

    Whether a request succeeds is not decided by the program: each
    allocating operation takes the allocator's answer [ok] as an argument. *)

Definition fresh_block (b : block) (st : state) : state * ptr :=
  (mkState (<[next st := b]> (heap st)) (Pos.succ (next st))
           (eass_last_error st) (stdout st),
   Ptr (next st)).

Definition slots_of_bytes (bytes : Z) : nat := Z.to_nat (bytes / sizeof_DynamicValue).

(** [(DynamicValue* )malloc(bytes)] *)
Definition malloc_values (ok : bool) (bytes : Z) (st : state) : state * ptr :=
  if ok then fresh_block (ValBuf (replicate (slots_of_bytes bytes) None)) st
  else (st, NULL).

(** [free(p)]: [free(NULL)] does nothing. *)
Definition free (p : ptr) (st : state) : outcome state :=
  match p with
  | NULL => Ok st
  | Ptr a =>
      match heap st !! a with
      | Some _ => Ok (set_heap (delete a (heap st)) st)
      | None => Undefined
      end
  end.

(** [(DynamicValue* )realloc(p, bytes)]: on success the old block is gone and
    the new one starts with the old contents, as far as both reach; on
    failure the old block is left as it was. *)
Definition realloc_values (ok : bool) (p : ptr) (bytes : Z) (st : state)
  : outcome (state * ptr) :=
  if ok then
    match p with
    | NULL => Ok (malloc_values true bytes st)
    | Ptr a =>
        match heap st !! a with
        | Some (ValBuf l) =>
            let n := slots_of_bytes bytes in
            Ok (fresh_block (ValBuf (take n l ++ replicate (n - length l)%nat None))
                            (set_heap (delete a (heap st)) st))
        | _ => Undefined
        end
    end
  else Ok (st, NULL).

(** [p[i]] read as a [DynamicValue] slot. *)
Definition load (st : state) (p : ptr) (i : Z) : outcome slot :=
  match p with
  | Ptr a =>
      match heap st !! a with
      | Some (ValBuf l) =>
          if 0 <=? i then
            match l !! Z.to_nat i with
            | Some s => Ok s
            | None => Undefined
            end
          else Undefined
      | _ => Undefined
      end
  | NULL => Undefined
  end.

(** [p[i] = s] *)
Definition store (st : state) (p : ptr) (i : Z) (s : slot) : outcome state :=
  match p with
  | Ptr a =>
      match heap st !! a with
      | Some (ValBuf l) =>
          if (0 <=? i) && (i <? Z.of_nat (length l)) then
            Ok (set_heap (<[a := ValBuf (<[Z.to_nat i := s]> l)]> (heap st)) st)
          else Undefined
      | _ => Undefined
      end
  | NULL => Undefined
  end.

(** [memcpy(dst + doff, src + soff, bytes)] between two [DynamicValue]
    blocks. A copy of zero bytes touches nothing (the header relies on this
    when the source is still [NULL]). *)
Definition memcpy (dst : ptr) (doff : Z) (src : ptr) (soff : Z) (bytes : Z)
  (st : state) : outcome state :=
  let n := bytes / sizeof_DynamicValue in
  if n =? 0 then Ok st
  else
    match dst, src with
    | Ptr d, Ptr s =>
        match heap st !! d, heap st !! s with
        | Some (ValBuf ld), Some (ValBuf ls) =>
            if (0 <=? soff) && (soff + n <=? Z.of_nat (length ls))
               && (0 <=? doff) && (doff + n <=? Z.of_nat (length ld)) then
              let piece := take (Z.to_nat n) (drop (Z.to_nat soff) ls) in
              Ok (set_heap
                    (<[d := ValBuf (take (Z.to_nat doff) ld ++ piece
                                    ++ drop (Z.to_nat (doff + n)) ld)]> (heap st))
                    st)
            else Undefined
        | _, _ => Undefined
        end
    | _, _ => Undefined
    end.

(** ** Dynamic arrays *)

Definition with_error (arr : DynamicArray) : DynamicArray :=
  mkArray (data arr) (size arr) (capacity arr) 1.

(** [array(initial_capacity)]. When [malloc] fails the function returns
    before [size] and [capacity] are assigned: [indet] stands for the
    indeterminate contents of those two fields. *)
Definition array (ok : bool) (indet : Z * Z) (st : state) (initial_capacity : Z)
  : state * DynamicArray :=
  if initial_capacity =? 0 then (st, mkArray NULL 0 initial_capacity 0)
  else
    let '(st1, p) := malloc_values ok (to_size_t (initial_capacity * sizeof_DynamicValue)) st in
    match p with
    | NULL => (_set_error ENOMEM "malloc failed in array" st1,
               mkArray NULL (fst indet) (snd indet) 1)
    | Ptr _ => (st1, mkArray p 0 initial_capacity 0)
    end.

(** The capacity [array_append] asks for: [int new_cap = capacity +
    (capacity >> 1); if (new_cap < 4) new_cap = 4;]. The sum is computed in
    [size_t] and then converted to [int]. *)
Definition append_new_cap (cap : Z) : Z :=
  let new_cap := to_int (to_size_t (cap + Z.shiftr cap 1)) in
  if new_cap <? 4 then 4 else new_cap.

(** [array_append(NULL, val)] *)
Definition array_append_NULL (st : state) : state * DynamicArray :=
  (_set_error EINVAL "array_append called with NULL array" st, mkArray NULL 0 0 1).

(** The growth step of [array_append], taken when [size >= capacity]. The
    boolean tells whether the function goes on to store the value.
    [embedded] is the preprocessor symbol [EASS_ENABLE_EMBEDDED]. *)
Definition append_grow (embedded ok : bool) (st : state) (arr : DynamicArray)
  : outcome (state * DynamicArray * bool) :=
  let new_cap := append_new_cap (capacity arr) in
  let bytes := to_size_t (new_cap * sizeof_DynamicValue) in
  if embedded then
    let '(st1, new_data) := malloc_values ok bytes st in
    match new_data with
    | NULL => Ok (_set_error ENOMEM "Realloc failed - embedded system" st1,
                  with_error arr, false)
    | Ptr _ =>
        st2 ← memcpy new_data 0 (data arr) 0
               (to_size_t (size arr * sizeof_DynamicValue)) st1;
        st3 ← free (data arr) st2;
        Ok (st3, mkArray new_data (size arr) new_cap (error arr), true)
    end
  else
    '(st1, new_data) ← realloc_values ok (data arr) bytes st;
    match new_data with
    | NULL => Ok (_set_error ENOMEM "realloc failed in array_append" st1,
                  with_error arr, false)
    | Ptr _ => Ok (st1, mkArray new_data (size arr) new_cap (error arr), true)
    end.

(** [array_append(arr, val)] for [arr != NULL]. *)
Definition array_append (embedded ok : bool) (st : state) (arr : DynamicArray)
  (val : DynamicValue) : outcome (state * DynamicArray) :=
  if negb (error arr =? 0) then Ok (st, arr)
  else
    '(st1, arr1, go_on) ← (if capacity arr <=? size arr
                           then append_grow embedded ok st arr
                           else Ok (st, arr, true));
    if (go_on : bool) then
      st2 ← store st1 (data arr1) (size arr1) (Some val);
      Ok (st2, mkArray (data arr1) (to_size_t (size arr1 + 1)) (capacity arr1) (error arr1))
    else Ok (st1, arr1).

(** The capacity [array_insert] asks for:
    [size_t new_cap = (capacity == 0) ? 4 : capacity * 2]. *)
Definition insert_new_cap (cap : Z) : Z :=
  if cap =? 0 then 4 else to_size_t (cap * 2).

(** The growth step of [array_insert], taken when [size >= capacity]. With
    [EASS_ENABLE_EMBEDDED] the elements are copied into a fresh buffer, split
    around [index]; otherwise the buffer is reallocated and nothing is
    moved. *)
Definition insert_grow (embedded ok : bool) (st : state) (arr : DynamicArray)
  (index : Z) : outcome (state * DynamicArray * bool) :=
  let new_cap := insert_new_cap (capacity arr) in
  let bytes := to_size_t (new_cap * sizeof_DynamicValue) in
  if embedded then
    let '(st1, new_data) := malloc_values ok bytes st in
    match new_data with
    | NULL => Ok (_set_error ENOMEM "malloc failed in array_insert (embedded)" st1,
                  with_error arr, false)
    | Ptr _ =>
        st2 ← memcpy new_data 0 (data arr) 0
               (to_size_t (index * sizeof_DynamicValue)) st1;
        st3 ← memcpy new_data (index + 1) (data arr) index
               (to_size_t ((size arr - index) * sizeof_DynamicValue)) st2;
        st4 ← free (data arr) st3;
        Ok (st4, mkArray new_data (size arr) new_cap (error arr), true)
    end
  else
    '(st1, new_data) ← realloc_values ok (data arr) bytes st;
    match new_data with
    | NULL => Ok (_set_error ENOMEM "realloc failed in array_insert" st1,
                  with_error arr, false)
    | Ptr _ => Ok (st1, mkArray new_data (size arr) new_cap (error arr), true)
    end.

(** [for (i = from; i > index; i--) data[i] = data[i - 1];] with [n] rounds
    left. *)
Fixpoint shift_right (n : nat) (i : Z) (p : ptr) (st : state) : outcome state :=
  match n with
  | O => Ok st
  | S n' =>
      s ← load st p (i - 1);
      st1 ← store st p i s;
      shift_right n' (i - 1) p st1
  end.

(** [array_insert(NULL, index, val)] *)
Definition array_insert_NULL (st : state) : state * DynamicArray :=
  (_set_error EINVAL "array_insert called with NULL array" st, mkArray NULL 0 0 1).

(** [array_insert(arr, index, val)] for [arr != NULL]. *)
Definition array_insert (embedded ok : bool) (st : state) (arr : DynamicArray)
  (index : Z) (val : DynamicValue) : outcome (state * DynamicArray) :=
  if negb (error arr =? 0) then Ok (st, arr)
  else if size arr <? index then
    Ok (_set_error EINVAL "Index out of bounds in array_insert" st, arr)
  else
    '(st1, arr1, go_on) ← (if capacity arr <=? size arr
                           then insert_grow embedded ok st arr index
                           else st1 ← shift_right (Z.to_nat (size arr - index))
                                        (size arr) (data arr) st;
                                Ok (st1, arr, true));
    if (go_on : bool) then
      st2 ← store st1 (data arr1) index (Some val);
      Ok (st2, mkArray (data arr1) (to_size_t (size arr1 + 1)) (capacity arr1) (error arr1))
    else Ok (st1, arr1).

(** [(DynamicValue){EASS_NULL, 1, .value.i = 0}] *)
Definition invalid_value : DynamicValue := mkValue EASS_NULL 1 (PInt 0).

(** [for (i = from; i < size - 1; i++) data[i] = data[i + 1];] with [n]
    rounds left. *)
Fixpoint shift_left (n : nat) (i : Z) (p : ptr) (st : state) : outcome state :=
  match n with
  | O => Ok st
  | S n' =>
      s ← load st p (i + 1);
      st1 ← store st p i s;
      shift_left n' (i + 1) p st1
  end.

(** [array_remove(NULL, index)] *)
Definition array_remove_NULL (st : state) : state * DynamicValue :=
  (_set_error EINVAL "array_remove called with NULL array" st, invalid_value).

(** [array_remove(arr, index)] for [arr != NULL]: the state, the array and
    the slot that is returned by value. *)
Definition array_remove (st : state) (arr : DynamicArray) (index : Z)
  : outcome (state * DynamicArray * slot) :=
  if negb (error arr =? 0) then Ok (st, arr, Some invalid_value)
  else if size arr <=? index then
    Ok (_set_error EINVAL "Index out of bounds in array_remove" st, arr,
        Some invalid_value)
  else
    removed_val ← load st (data arr) index;
    st1 ← shift_left (Z.to_nat (to_size_t (size arr - 1) - index)) index (data arr) st;
    Ok (st1, mkArray (data arr) (to_size_t (size arr - 1)) (capacity arr) (error arr),
        removed_val).

(** [array_get(NULL, index)] *)
Definition array_get_NULL (st : state) : state * DynamicValue :=
  (_set_error EINVAL "array_get called with NULL array" st, invalid_value).

(** [array_get(arr, index)] for [arr != NULL]; [arr] is [const]. *)
Definition array_get (st : state) (arr : DynamicArray) (index : Z)
  : outcome (state * slot) :=
  if negb (error arr =? 0) then Ok (st, Some invalid_value)
  else if size arr <=? index then
    Ok (_set_error EINVAL "Index out of bounds in array_get" st, Some invalid_value)
  else
    s ← load st (data arr) index;
    Ok (st, s).

(** ** Releasing values and arrays *)

(** The loop of [free_dynamic_array] over [data[i]], [n] rounds left;
    [free_value] is [free_dynamic_value], which updates the element in
    place. *)
Fixpoint free_elements
  (free_value : state → DynamicValue → outcome (state * DynamicValue))
  (n : nat) (i : Z) (p : ptr) (st : state) : outcome state :=
  match n with
  | O => Ok st
  | S n' =>
      s ← load st p i;
      match s with
      | None => Undefined
      | Some v =>
          '(st1, v1) ← free_value st v;
          st2 ← store st1 p i (Some v1);
          free_elements free_value n' (i + 1) p st2
      end
  end.

Definition free_dynamic_array_with
  (free_value : state → DynamicValue → outcome (state * DynamicValue))
  (st : state) (arr : DynamicArray) : outcome (state * DynamicArray) :=
  st1 ← free_elements free_value (Z.to_nat (size arr)) 0 (data arr) st;
  st2 ← free (data arr) st1;
  Ok (st2, mkArray NULL (size arr) (capacity arr) (error arr)).

(** [free_dynamic_value(val)] for [val != NULL]: the state and the updated
    [*val]. [fuel] bounds the nesting depth of arrays that is followed. *)
Fixpoint free_dynamic_value (fuel : nat) (st : state) (val : DynamicValue)
  : outcome (state * DynamicValue) :=
  match fuel with
  | O => OutOfFuel
  | S fuel' =>
      match type val with
      | EASS_STRING =>
          match value val with
          | PStr s =>
              st1 ← free s st;
              Ok (st1, mkValue EASS_NULL (verror val) (value val))
          | _ => Undefined
          end
      | EASS_ARRAY =>
          match value val with
          | PArr a =>
              '(st1, a1) ← free_dynamic_array_with (free_dynamic_value fuel') st a;
              Ok (st1, mkValue EASS_NULL (verror val) (PArr a1))
          | _ => Undefined
          end
      | _ => Ok (st, mkValue EASS_NULL (verror val) (value val))
      end
  end.

(** [free_dynamic_array(arr)] for [arr != NULL]. *)
Definition free_dynamic_array (fuel : nat) (st : state) (arr : DynamicArray)
  : outcome (state * DynamicArray) :=
  free_dynamic_array_with (free_dynamic_value fuel) st arr.

(** ** Text rendering ([printf] conversions) *)

Definition is_nul (c : ascii) : bool := (N_of_ascii c =? 0)%N.

(** [isdigit(c)] in the C locale. *)
Definition isdigit (c : ascii) : bool :=
  ((48 <=? N_of_ascii c) && (N_of_ascii c <=? 57))%N.

Definition digit_value (c : ascii) : Z := Z.of_N (N_of_ascii c) - 48.

(** The characters of a C string held in a buffer: up to the first NUL. *)
Fixpoint c_str (s : string) : string :=
  match s with
  | EmptyString => EmptyString
  | String c r => if is_nul c then EmptyString else String c (c_str r)
  end.

(** ["%d"] *)
Definition fmt_d (i : Z) : string := NilZero.string_of_int (Z.to_int i).

(** The integer nearest to [num / den], ties to even ([den > 0]). *)
Definition round_half_even (num den : Z) : Z :=
  let q := num / den in
  let r := num mod den in
  match (2 * r ?= den) with
  | Lt => q
  | Gt => q + 1
  | Eq => if Z.even q then q else q + 1
  end.

(** ["%f"]: six decimals, correctly rounded; the [float] argument reaches
    [printf] as a [double] of the same value and sign. A NaN is written as
    ["nan"], after a minus sign when its sign bit is set. *)
Definition fmt_f (f : c_float) : string :=
  let sign (s : bool) : string := (if s then "-" else "")%string in
  match float_value f with
  | S754_zero s => String.append (sign s) "0.000000"
  | S754_infinity s => String.append (sign s) "inf"
  | S754_nan => String.append (sign (nan_sign f)) "nan"
  | S754_finite s m e =>
      let scaled :=
        if 0 <=? e then Z.pos m * 2 ^ e * 10 ^ 6
        else round_half_even (Z.pos m * 10 ^ 6) (2 ^ (- e)) in
      let frac := fmt_d (10 ^ 6 + scaled mod 10 ^ 6) in
      String.append (sign s)
        (String.append (fmt_d (scaled / 10 ^ 6))
           (String.append "." (String.substring 1 6 frac)))
  end.

(** ["Error: %d - %s"] with the fields of [eass_last_error]. *)
Definition fmt_error (e : EassError) : string :=
  String.append "Error: "
    (String.append (fmt_d (code e)) (String.append " - " (c_str (message e)))).

(** The C string a [char*] points to. *)
Definition load_str (st : state) (p : ptr) : outcome string :=
  match p with
  | Ptr a =>
      match heap st !! a with
      | Some (CharBuf s) => Ok (c_str s)
      | _ => Undefined
      end
  | NULL => Undefined
  end.

(** What [printf]/[snprintf] writes for a value of type [EASS_INT],
    [EASS_FLOAT] or [EASS_STRING]; both functions render array elements of
    any other type as nothing. *)
Definition render_scalar (st : state) (v : DynamicValue) : outcome string :=
  match type v with
  | EASS_INT => match value v with PInt i => Ok (fmt_d i) | _ => Undefined end
  | EASS_FLOAT => match value v with PFloat f => Ok (fmt_f f) | _ => Undefined end
  | EASS_STRING => match value v with PStr s => load_str st s | _ => Undefined end
  | _ => Ok EmptyString
  end.

(** ** [print] *)

Definition newline : string := String "010" EmptyString.

Definition printf (s : string) (st : state) : state :=
  mkState (heap st) (next st) (eass_last_error st) (String.append (stdout st) s).

(** The element loop of [print]'s [EASS_ARRAY] case, [n] rounds left. *)
Fixpoint print_elements (n : nat) (i : Z) (a : DynamicArray) (st : state)
  : outcome state :=
  match n with
  | O => Ok st
  | S n' =>
      s ← load st (data a) i;
      match s with
      | None => Undefined
      | Some elem =>
          text ← render_scalar st elem;
          let st1 := printf text st in
          let st2 := if i <? to_size_t (size a - 1) then printf ", " st1 else st1 in
          print_elements n' (i + 1) a st2
      end
  end.

(** The [switch (val.type)] of [print]. The [default] case is out of reach:
    [type] has the five enumerators only. *)
Definition print_value (st : state) (val : DynamicValue) : outcome state :=
  match type val with
  | EASS_ARRAY =>
      match value val with
      | PArr a =>
          st1 ← print_elements (Z.to_nat (size a)) 0 a (printf "Array[" st);
          Ok (printf "]" st1)
      | _ => Undefined
      end
  | EASS_NULL => Ok (printf "NULL" st)
  | _ => text ← render_scalar st val; Ok (printf text st)
  end.

(** [print(format, ...)]: [args] are the variadic arguments, all of type
    [DynamicValue]; [fuel] is handed to [free_dynamic_value]. *)
Fixpoint print (fuel : nat) (format : string) (args : list DynamicValue)
  (st : state) : outcome state :=
  match format with
  | EmptyString => Ok (printf newline st)
  | String c rest =>
      if is_nul c then Ok (printf newline st)
      else
        let literal := print fuel rest args (printf (String c EmptyString) st) in
        match rest with
        | String d rest' =>
            if Ascii.eqb c "{" && Ascii.eqb d "}" then
              match args with
              | [] => Undefined
              | val :: args' =>
                  if negb (verror val =? 0) then
                    Ok (printf (fmt_error (eass_get_last_error st)) st)
                  else
                    st1 ← print_value st val;
                    '(st2, _) ← free_dynamic_value fuel st1 val;
                    print fuel rest' args' st2
              end
            else literal
        | EmptyString => literal
        end
  end.

(** ** [string_format] *)

(** [strtol(s, NULL, 10)] for [s] that starts with a digit: the value of the
    longest run of digits, clamped to [LONG_MAX]. *)
Fixpoint digits_value (s : string) (acc : Z) : Z :=
  match s with
  | String c r => if isdigit c then digits_value r (acc * 10 + digit_value c) else acc
  | EmptyString => acc
  end.

Definition strtol (s : string) : Z := Z.min (digits_value s 0) LONG_MAX.

(** The first loop: counts [arg_count] and [formatted_length], consuming one
    variadic argument for every placeholder it recognises. *)
Fixpoint count_pass (p : string) (args : list DynamicValue)
  (arg_count formatted_length : Z) : outcome (Z * Z) :=
  match p with
  | EmptyString => Ok (arg_count, formatted_length)
  | String c rest =>
      if is_nul c then Ok (arg_count, formatted_length)
      else
        let literal := count_pass rest args arg_count (to_size_t (formatted_length + 1)) in
        match rest with
        | String d rest2 =>
            if Ascii.eqb c "{" && negb (is_nul d) then
              if Ascii.eqb d "}" then
                match args with
                | [] => Undefined
                | _ :: args' =>
                    count_pass rest2 args' (to_size_t (arg_count + 1))
                      (to_size_t (formatted_length + 128))
                end
              else if isdigit d then
                let index := to_int (strtol rest) in
                let arg_count' :=
                  if arg_count <? to_size_t index then to_size_t index else arg_count in
                match rest2, args with
                | String _ rest3, _ :: args' =>
                    count_pass rest3 args' arg_count' (to_size_t (formatted_length + 128))
                | _, _ => Undefined
                end
              else literal
            else literal
        | EmptyString => literal
        end
  end.

(** An element of the buffer [arg_values]: after the initialising loop a
    slot has [type == EASS_NULL] and indeterminate [error] and [value]
    ([ArgFresh]) until an argument is copied into it. *)
Inductive arg_slot : Type :=
| ArgFresh
| ArgVal (v : DynamicValue).

(** [malloc(sizeof(DynamicValue) * arg_count)] and the loop that sets every
    [type]; the result of [malloc] is not checked. The buffer is local to
    the call and is kept out of the heap map. *)
Definition alloc_arg_values (ok : bool) (arg_count : Z) : outcome (list arg_slot) :=
  if arg_count =? 0 then Ok []
  else if ok then
    let n := slots_of_bytes (to_size_t (sizeof_DynamicValue * arg_count)) in
    if Z.of_nat n <? arg_count then Undefined else Ok (replicate n ArgFresh)
  else Undefined.

(** One write of [text] through [out_p] into the buffer of [cap] bytes, [out]
    being what was written so far. When the text and its terminator do not
    fit, [snprintf] truncates but [out_p] still moves by the full length, to
    the end of the buffer or past it, and every way out of the function then
    writes through [out_p] or moves it further: the model reports this as
    [Undefined] at the write that does not fit. *)
Definition emit (cap : Z) (text out : string) : outcome string :=
  if Z.of_nat (String.length out) + Z.of_nat (String.length text) + 1 <=? cap
  then Ok (String.append out text)
  else Undefined.

(** The element loop of the [EASS_ARRAY] case, [n] rounds left; [None] is the
    early [return NULL] on an element with [error] set. *)
Fixpoint format_elements (cap : Z) (n : nat) (i : Z) (a : DynamicArray)
  (st : state) (out : string) : outcome (option string) :=
  match n with
  | O => Ok (Some out)
  | S n' =>
      s ← load st (data a) i;
      match s with
      | None => Undefined
      | Some element =>
          if negb (verror element =? 0) then Ok None
          else
            text ← render_scalar st element;
            out1 ← emit cap text out;
            out2 ← (if i <? to_size_t (size a - 1) then emit cap ", " out1 else Ok out1);
            format_elements cap n' (i + 1) a st out2
      end
  end.

(** The [switch (val.type)] of [string_format]. *)
Definition format_value (cap : Z) (st : state) (val : DynamicValue) (out : string)
  : outcome (option string) :=
  match type val with
  | EASS_ARRAY =>
      match value val with
      | PArr a =>
          out1 ← emit cap "Array[" out;
          r ← format_elements cap (Z.to_nat (size a)) 0 a st out1;
          match r with
          | None => Ok None
          | Some out2 => out3 ← emit cap "]" out2; Ok (Some out3)
          end
      | _ => Undefined
      end
  | EASS_NULL => out1 ← emit cap "NULL" out; Ok (Some out1)
  | _ => text ← render_scalar st val; out1 ← emit cap text out; Ok (Some out1)
  end.

(** [snprintf(out_p, formatted_length + 1, "Error: %d - %s", ...)] on a
    failed value: the size does not account for what was written before. *)
Definition error_write_fits (cap : Z) (st : state) (out : string) : bool :=
  Z.of_nat (String.length out)
  + Z.min (Z.of_nat (String.length (fmt_error (eass_get_last_error st)))) (cap - 1)
  + 1 <=? cap.

(** Error check and rendering of one value, shared by both placeholder
    forms. *)
Definition format_placeholder (cap : Z) (st : state) (val : DynamicValue)
  (out : string) : outcome (option string) :=
  if negb (verror val =? 0) then
    if error_write_fits cap st out then Ok None else Undefined
  else format_value cap st val out.

(** The second loop. [None] is a [return NULL]; otherwise the text written
    and the final [arg_values]. *)
Fixpoint format_pass (cap arg_count : Z) (st : state) (p : string)
  (args : list DynamicValue) (arg_values : list arg_slot) (current_arg : Z)
  (out : string) : outcome (option (string * list arg_slot)) :=
  match p with
  | EmptyString => Ok (Some (out, arg_values))
  | String c rest =>
      if is_nul c then Ok (Some (out, arg_values))
      else
        let literal :=
          out1 ← emit cap (String c EmptyString) out;
          format_pass cap arg_count st rest args arg_values current_arg out1 in
        match rest with
        | String d rest2 =>
            if Ascii.eqb c "{" && negb (is_nul d) then
              if Ascii.eqb d "}" then
                match args with
                | [] => Undefined
                | val :: args' =>
                    arg_values1 ←
                      (if to_size_t current_arg <? arg_count then
                         if (0 <=? current_arg)
                            && (current_arg <? Z.of_nat (length arg_values))
                         then Ok (<[Z.to_nat current_arg := ArgVal val]> arg_values)
                         else Undefined
                       else Ok arg_values);
                    r ← format_placeholder cap st val out;
                    match r with
                    | None => Ok None
                    | Some out1 =>
                        format_pass cap arg_count st rest2 args' arg_values1
                          (to_int (current_arg + 1)) out1
                    end
                end
              else if isdigit d then
                let index := to_int (strtol rest) in
                match (if 0 <=? index then arg_values !! Z.to_nat index else None) with
                | Some (ArgVal val) =>
                    r ← format_placeholder cap st val out;
                    match r with
                    | None => Ok None
                    | Some out1 =>
                        match rest2 with
                        | String _ rest3 =>
                            format_pass cap arg_count st rest3 args arg_values
                              current_arg out1
                        | EmptyString => Undefined
                        end
                    end
                | _ => Undefined
                end
              else literal
            else literal
        | EmptyString => literal
        end
  end.

(** The closing loop [free_dynamic_value(&arg_values[i])]. *)
Fixpoint free_arg_values (fuel : nat) (arg_values : list arg_slot) (st : state)
  : outcome state :=
  match arg_values with
  | [] => Ok st
  | ArgFresh :: rest => free_arg_values fuel rest st
  | ArgVal v :: rest =>
      '(st1, _) ← free_dynamic_value fuel st v;
      free_arg_values fuel rest st1
  end.

(** [string_format(format, ...)]: the state and the returned [char*].
    [ok_out] and [ok_args] are the allocator's answers for
    [formatted_string] and [arg_values]. The text takes its place in the
    block of [formatted_string] when the terminator [*out_p = 0] is
    written. *)
Definition string_format (fuel : nat) (ok_out ok_args : bool) (format : string)
  (args : list DynamicValue) (st : state) : outcome (state * ptr) :=
  '(arg_count, formatted_length) ← count_pass format args 0 0;
  let cap := to_size_t (formatted_length + 1) in
  if ok_out then
    let '(st1, formatted_string) := fresh_block (CharBuf EmptyString) st in
    arg_values ← alloc_arg_values ok_args arg_count;
    r ← format_pass cap arg_count st1 format args arg_values 0 EmptyString;
    match r with
    | None => st2 ← free formatted_string st1; Ok (st2, NULL)
    | Some (out, arg_values1) =>
        out1 ← emit cap EmptyString out;
        st2 ← free_arg_values fuel arg_values1 st1;
        match formatted_string with
        | Ptr a =>
            match heap st2 !! a with
            | Some _ => Ok (set_heap (<[a := CharBuf out1]> (heap st2)) st2, formatted_string)
            | None => Undefined
            end
        | NULL => Undefined
        end
    end
  else Ok (_set_error ENOMEM "malloc failed in string_format" st, NULL).

(** The text behind the pointer [string_format] returns; [None] for [NULL]. *)
Definition string_format_text (fuel : nat) (ok_out ok_args : bool) (format : string)
  (args : list DynamicValue) (st : state) : outcome (option string) :=
  '(st1, p) ← string_format fuel ok_out ok_args format args st;
  match p with
  | NULL => Ok None
  | Ptr _ => text ← load_str st1 p; Ok (Some text)
  end.

(** ** [numlit] *)

(** What a piece of program text becomes: the thing it stands for, or
    nothing when it is not C and the translation unit is rejected. *)
Inductive translation (A : Type) : Type :=
| Translated (a : A)
| Rejected.
Arguments Translated {A} a.
Arguments Rejected {A}.

(** The static type of the argument expression, as [_Generic] sees it. *)
Inductive integer_type : Type :=
| T_char | T_short | T_int | T_unsigned | T_long | T_unsigned_long.

Inductive floating_type : Type :=
| T_float | T_double | T_long_double.

Inductive c_type : Type :=
| Integer (t : integer_type)
| Floating (t : floating_type).

#[global] Instance integer_type_eq_dec : EqDecision integer_type.
Proof. solve_decision. Defined.

#[global] Instance floating_type_eq_dec : EqDecision floating_type.
Proof. solve_decision. Defined.

#[global] Instance c_type_eq_dec : EqDecision c_type.
Proof. solve_decision. Defined.

(** An argument: its static type and its value. *)
Inductive c_arg : Type :=
| IntegerArg (t : integer_type) (z : Z)
| FloatingArg (t : floating_type) (f : c_float).

Definition type_of (x : c_arg) : c_type :=
  match x with
  | IntegerArg t _ => Integer t
  | FloatingArg t _ => Floating t
  end.

(** Conversions to [float] (binary32) and to [double] (binary64), rounding to
    nearest even. *)
Definition round_to (prec emax : Z) (f : spec_float) : spec_float :=
  match f with
  | S754_finite s m e => binary_round prec emax s m e
  | _ => f
  end.

Definition float_of_arg (x : c_arg) : c_float :=
  match x with
  | IntegerArg _ z => mkFloat (binary_normalize 24 128 z 0 false) false
  | FloatingArg _ f => mkFloat (round_to 24 128 (float_value f)) (nan_sign f)
  end.

(** [(int)(x)]: integers wrap, floating values are truncated towards zero and
    must then fit an [int]. *)
Definition int_of_arg (x : c_arg) : outcome Z :=
  match x with
  | IntegerArg _ z => Ok (to_int z)
  | FloatingArg _ f =>
      match float_value f with
      | S754_zero _ => Ok 0
      | S754_finite s m e =>
          let t := if 0 <=? e then Z.pos m * 2 ^ e else Z.pos m / 2 ^ (- e) in
          let t := if s then - t else t in
          if (- 2 ^ 31 <=? t) && (t <? 2 ^ 31) then Ok t else Undefined
      | _ => Undefined
      end
  end.

(** One item of a generic association list, the text between two commas: a
    type name, or [default] ([None]), and the result expression after the
    colon when the item has a colon. The expression is a function of the
    macro's argument. *)
Record generic_item : Type := mkItem {
  item_type : option c_type;
  item_result : option (c_arg → outcome DynamicValue)
}.

Definition is_association (item : generic_item) : bool :=
  match item_result item with
  | Some _ => true
  | None => false
  end.

(** [_Generic(x, items)] (C11 6.5.1.1). Every item is a generic association,
    [type-name : expression] or [default : expression]; no two of them name
    the same type and at most one is [default]; the selection stands for the
    expression of the item that names the type of [x], else for that of
    [default], and without either a constraint is violated. *)
Definition generic_selection (items : list generic_item) (x : c_arg)
  : translation (outcome DynamicValue) :=
  if forallb is_association items && bool_decide (NoDup (item_type <$> items)) then
    match
      find (λ item, bool_decide (item_type item = Some (type_of x))) items,
      find (λ item, bool_decide (item_type item = None)) items
    with
    | Some (mkItem _ (Some result)), _ => Translated (result x)
    | None, Some (mkItem _ (Some result)) => Translated (result x)
    | _, _ => Rejected
    end
  else Rejected.

(** [(DynamicValue){EASS_FLOAT, 0, .value.f = (float)(x)}] *)
Definition float_literal (x : c_arg) : outcome DynamicValue :=
  Ok (mkValue EASS_FLOAT 0 (PFloat (float_of_arg x))).

(** [(DynamicValue){EASS_INT, 0, .value.i = (int)(x)}] *)
Definition int_literal (x : c_arg) : outcome DynamicValue :=
  i ← int_of_arg x; Ok (mkValue EASS_INT 0 (PInt i)).

(** The association list of the macro as it is written:
    [int , float , double : (DynamicValue){EASS_FLOAT, ...},
     default : (DynamicValue){EASS_INT, ...}].
    The commas after [int] and after [float] end two items that have no
    colon and no expression. *)
Definition numlit_items : list generic_item :=
  [mkItem (Some (Integer T_int)) None;
   mkItem (Some (Floating T_float)) None;
   mkItem (Some (Floating T_double)) (Some float_literal);
   mkItem None (Some int_literal)].

(** What stands between the parentheses where the name [numlit] is used: an
    expression or, in the header [DynamicValue numlit(double value)] of the
    definition at line 574, the parameter declaration [double value]. *)
Inductive macro_argument : Type :=
| Expression (x : c_arg)
| ParameterDeclaration.

(** The macro [numlit(x)]. From its definition at line 446 on, every
    [numlit] followed by a parenthesis is a use of it, the header at line 574
    included; the operand of [_Generic] has to be an expression. *)
Definition numlit (a : macro_argument) : translation (outcome DynamicValue) :=
  match a with
  | Expression x => generic_selection numlit_items x
  | ParameterDeclaration => Rejected
  end.

(** ** [printhd] *)




(** ** [input] *)

Definition LONG_MIN : Z := - 2 ^ 63.

(** [isspace(c)] in the C locale. *)
Definition isspace (c : ascii) : bool :=
  ((N_of_ascii c =? 32) || ((9 <=? N_of_ascii c) && (N_of_ascii c <=? 13)))%N.

Fixpoint skip_spaces (s : string) : string :=
  match s with
  | String c r => if isspace c then skip_spaces r else s
  | EmptyString => s
  end.

Fixpoint skip_digits (s : string) : string :=
  match s with
  | String c r => if isdigit c then skip_digits r else s
  | EmptyString => s
  end.

(** [strtol(s, &endptr, 10)]: the value and the text [endptr] points to.
    White space and one sign are skipped; without a digit after them nothing
    is converted and [endptr] is [s]; the value is clamped to [long]. *)
Definition strtol_endptr (s : string) : Z * string :=
  let s1 := skip_spaces s in
  let '(negative, s2) :=
    match s1 with
    | String c r =>
        if Ascii.eqb c "-" then (true, r)
        else if Ascii.eqb c "+" then (false, r)
        else (false, s1)
    | EmptyString => (false, s1)
    end in
  match s2 with
  | String c _ =>
      if isdigit c then
        let v := digits_value s2 0 in
        (if negative : bool then Z.max (- v) LONG_MIN else Z.min v LONG_MAX,
         skip_digits s2)
      else (0, s)
  | EmptyString => (0, s)
  end.

(** What [getline] did: it failed (setting [errno], with or without having
    allocated a buffer), or it stored a line, newline included, in a fresh
    buffer. *)
Inductive getline_result : Type :=
| GetlineFailed (errno : Z) (allocated : bool)
| GetlineLine (line : string).

(** [strdup(s)] *)
Definition strdup (ok : bool) (s : string) (st : state) : state * ptr :=
  if ok then fresh_block (CharBuf s) st else (st, NULL).

(** [buffer[strlen(buffer) - 1] = 0] when that character is a newline;
    [strlen(buffer)] is not zero. *)
Fixpoint chop_newline (s : string) : string :=
  match s with
  | EmptyString => EmptyString
  | String c EmptyString => if Ascii.eqb c "010" then EmptyString else s
  | String c r => String c (chop_newline r)
  end.

(** [input(prompt)]. [read] is what [getline] did and [ok_dup] the
    allocator's answer to [strdup]; [strtof] is the C library's function,
    giving the value and the text at [endptr]. *)
Definition input (strtof : string → c_float * string) (read : getline_result)
  (ok_dup : bool) (prompt : string) (st : state) : outcome (state * DynamicValue) :=
  let st0 := printf (c_str prompt) st in
  match read with
  | GetlineFailed errno allocated =>
      let st1 := if allocated : bool then (fresh_block (CharBuf EmptyString) st0).1 else st0 in
      let '(st2, s) := strdup ok_dup EmptyString (_set_error errno "getline failed" st1) in
      Ok (st2, mkValue EASS_STRING 1 (PStr s))
  | GetlineLine line =>
      let '(st1, buffer) := fresh_block (CharBuf line) st0 in
      match c_str line with
      | EmptyString => Undefined
      | String _ _ as text =>
          let text := chop_newline text in
          st2 ← (match buffer with
                 | Ptr a => Ok (set_heap (<[a := CharBuf text]> (heap st1)) st1)
                 | NULL => Undefined
                 end);
          match text with
          | EmptyString =>
              st3 ← free buffer st2;
              let '(st4, s) := strdup ok_dup EmptyString st3 in
              Ok (st4, mkValue EASS_STRING 0 (PStr s))
          | String _ _ =>
              let '(int_val, endptr) := strtol_endptr text in
              match endptr with
              | EmptyString =>
                  st3 ← free buffer st2;
                  Ok (st3, mkValue EASS_INT 0 (PInt (to_int int_val)))
              | String _ _ =>
                  let '(float_val, endptr) := strtof text in
                  match endptr with
                  | EmptyString =>
                      st3 ← free buffer st2;
                      Ok (st3, mkValue EASS_FLOAT 0 (PFloat float_val))
                  | String _ _ =>
                      let '(st3, s) := strdup ok_dup text st2 in
                      Ok (st3, mkValue EASS_STRING 0 (PStr s))
                  end
              end
          end
      end
  end.

(** ** [read_file] and [write_file] *)

(** The files the program can reach: the bytes behind each name. *)
Abbreviation files := (gmap string string).

(** What the C library answers during one [read_file] call: the code a
    failing call leaves in [errno], whether [fopen] succeeds (it does not on a
    missing file), what [ftell] returns at the end of the file, whether
    [malloc] succeeds, and how many bytes [fread] delivers. *)
Record read_answers : Type := mkReadAnswers {
  r_errno : Z;
  r_fopen : bool;
  r_ftell : Z;
  r_malloc : bool;
  r_fread : Z
}.

(** [read_file(filename)]. [fread] delivers the first [r_fread] bytes of the
    file, at most [file_size] of them; answers the library cannot give
    ([ftell] below -1, [fread] beyond the request or the file) leave the
    call without a result. *)
Definition read_file (fs : files) (ans : read_answers) (filename : string)
  (st : state) : outcome (state * ptr) :=
  match (if r_fopen ans then fs !! c_str filename else None) with
  | None => Ok (_set_error (r_errno ans) "fopen failed in read_file" st, NULL)
  | Some content =>
      let file_size := r_ftell ans in
      if file_size =? -1 then
        Ok (_set_error (r_errno ans) "ftell failed in read_file" st, NULL)
      else if file_size <? 0 then Undefined
      else if r_malloc ans then
        let '(st1, buffer) := fresh_block (CharBuf EmptyString) st in
        let bytes_read := r_fread ans in
        if (0 <=? bytes_read) && (bytes_read <=? file_size)
           && (bytes_read <=? Z.of_nat (String.length content)) then
          if negb (bytes_read =? file_size) then
            st2 ← free buffer (_set_error (r_errno ans) "fread failed in read_file" st1);
            Ok (st2, NULL)
          else
            match buffer with
            | Ptr a =>
                Ok (set_heap (<[a := CharBuf (String.substring 0 (Z.to_nat bytes_read)
                                                content)]> (heap st1)) st1,
                    buffer)
            | NULL => Undefined
            end
        else Undefined
      else Ok (_set_error ENOMEM "malloc failed in read_file" st, NULL)
  end.

(** What the C library answers during one [write_file] call: [errno] after a
    failure, whether [fopen] succeeds, and how many bytes [fwrite] takes. *)
Record write_answers : Type := mkWriteAnswers {
  w_errno : Z;
  w_fopen : bool;
  w_fwrite : Z
}.

(** [write_file(filename, content)]: the files, the state and the returned
    [int]. Opening with ["wb"] empties or creates the file; it then holds the
    bytes [fwrite] took, which are no more than it was given. *)
Definition write_file (fs : files) (ans : write_answers) (filename content : string)
  (st : state) : outcome (files * state * Z) :=
  if w_fopen ans then
    let content_length := Z.of_nat (String.length (c_str content)) in
    let bytes_written := w_fwrite ans in
    if (0 <=? bytes_written) && (bytes_written <=? content_length) then
      let fs1 := <[c_str filename := String.substring 0 (Z.to_nat bytes_written)
                                       (c_str content)]> fs in
      if negb (bytes_written =? content_length) then
        Ok (fs1, _set_error (w_errno ans) "fwrite failed in write_file" st, -1)
      else Ok (fs1, st, 0)
    else Undefined
  else Ok (fs, _set_error (w_errno ans) "fopen failed in write_file" st, -1).

(** ** Vocabulary of the properties *)

(** The value the specification writes [Int i]. *)
Definition Int (i : Z) : DynamicValue := mkValue EASS_INT 0 (PInt i).

(** [array(0)] in the initial state. *)
Definition empty_array : state * DynamicArray := array true (0, 0) initial_state 0.

(** A run of [array_append] calls, each with a successful allocation. *)
Fixpoint appends (embedded : bool) (st : state) (arr : DynamicArray)
  (vals : list DynamicValue) : outcome (state * DynamicArray) :=
  match vals with
  | [] => Ok (st, arr)
  | v :: vals' =>
      '(st1, arr1) ← array_append embedded true st arr v;
      appends embedded st1 arr1 vals'
  end.

(** The logical contents of an array: the slots at the indices below
    [size]. *)
Definition contents (st : state) (arr : DynamicArray) : outcome (list slot) :=
  match data arr with
  | NULL => if size arr =? 0 then Ok [] else Undefined
  | Ptr a =>
      match heap st !! a with
      | Some (ValBuf l) =>
          if size arr <=? Z.of_nat (length l)
          then Ok (take (Z.to_nat (size arr)) l)
          else Undefined
      | _ => Undefined
      end
  end.

(** A rejected call: only the error slot changed, and it holds [EINVAL]. *)
Definition rejected (st st' : state) : Prop :=
  heap st' = heap st ∧ next st' = next st ∧ stdout st' = stdout st
  ∧ code (eass_last_error st') = EINVAL.

(** The array [1, 2, 3, 4] built by four appends on [array(0)]; it is full,
    [size == capacity == 4]. *)
Definition full_array (embedded : bool) : outcome (state * DynamicArray) :=
  appends embedded empty_array.1 empty_array.2 [Int 1; Int 2; Int 3; Int 4].

(** [array_insert(&arr, 1, Int 9)] on [full_array]. *)
Definition full_array_insert (embedded : bool) : outcome (state * DynamicArray) :=
  '(st, arr) ← full_array embedded;
  array_insert embedded true st arr 1 (Int 9).

(** [array_remove(&arr, 1)] after that insert. *)
Definition full_array_insert_remove (embedded : bool)
  : outcome (state * DynamicArray * slot) :=
  '(st, arr) ← full_array_insert embedded;
  array_remove st arr 1.

(** The struct and the logical contents of an array a run ended with. *)
Definition observe (r : outcome (state * DynamicArray))
  : outcome (DynamicArray * list slot) :=
  '(st, arr) ← r;
  l ← contents st arr;
  Ok (arr, l).

(** The capacities [array_append] goes through, starting from [array(0)]:
    each is [append_new_cap] of the one before it. *)
Fixpoint capacity_chain (n : nat) (cap : Z) : list Z :=
  match n with
  | O => [cap]
  | S n' => cap :: capacity_chain n' (append_new_cap cap)
  end.

Definition capacities : list Z := capacity_chain 50 0.

(** The last capacity of the chain whose next one still fits an [int]. *)
Definition last_capacity : Z := 1551591828.

Definition capacity_step_ok (c : Z) : bool :=
  (0 <=? c) && (c <=? last_capacity)
  && ((c =? last_capacity)
      || (existsb (Z.eqb (append_new_cap c)) capacities && (c <? append_new_cap c))).

(** No live block at or above the allocator's next address. *)
Definition heap_fresh (st : state) : Prop :=
  ∀ a, (next st ≤ a)%positive → heap st !! a = None.

(** The buffer of [arr] has [capacity] slots and starts with [vals]. *)
Definition buffer_holds (st : state) (arr : DynamicArray) (vals : list DynamicValue)
  : Prop :=
  match data arr with
  | NULL => capacity arr = 0
  | Ptr a =>
      ∃ l, heap st !! a = Some (ValBuf l)
           ∧ Z.of_nat (length l) = capacity arr
           ∧ take (length vals) l = Some <$> vals
  end.

(** The invariant of a run of appends that stored [vals]. *)
Definition holds (st : state) (arr : DynamicArray) (vals : list DynamicValue) : Prop :=
  error arr = 0
  ∧ size arr = Z.of_nat (length vals)
  ∧ In (capacity arr) capacities
  ∧ size arr ≤ capacity arr
  ∧ heap_fresh st
  ∧ buffer_holds st arr vals.

(** The arguments [print] renders and hands to [free_dynamic_value]: one
    for each ["{}"] it scans, until the template or the arguments end or an
    argument with [error] set stops the call. *)
Fixpoint consumed (format : string) (args : list DynamicValue) : list DynamicValue :=
  match format with
  | EmptyString => []
  | String c rest =>
      if is_nul c then []
      else
        match rest with
        | String d rest' =>
            if Ascii.eqb c "{" && Ascii.eqb d "}" then
              match args with
              | [] => []
              | val :: args' =>
                  if negb (verror val =? 0) then []
                  else val :: consumed rest' args'
              end
            else consumed rest args
        | EmptyString => consumed rest args
        end
  end.

(** The heap block a value points to: the text of an [EASS_STRING], the
    buffer of an [EASS_ARRAY]. *)
Definition owned_block (val : DynamicValue) : ptr :=
  match type val, value val with
  | EASS_STRING, PStr s => s
  | EASS_ARRAY, PArr a => data a
  | _, _ => NULL
  end.

(** The block a value points to is not live. *)
Definition released (st : state) (val : DynamicValue) : Prop :=
  ∀ a, owned_block val = Ptr a → heap st !! a = None.

(** A release function only takes blocks away: what is live afterwards was
    live before, with the same contents. *)
Definition shrinks
  (free_value : state → DynamicValue → outcome (state * DynamicValue)) : Prop :=
  ∀ st val st' val', free_value st val = Ok (st', val') → heap st' ⊆ heap st.

(** The blocks reached from a value in heap [h]: its own block, and the
    blocks reached from the elements of an array below its [size]. *)
Inductive owns (h : gmap addr block) : DynamicValue → addr → Prop :=
| owns_payload (val : DynamicValue) (a : addr) :
    owned_block val = Ptr a → owns h val a
| owns_element (val : DynamicValue) (arr : DynamicArray) (a : addr)
    (l : list slot) (i : Z) (elem : DynamicValue) (b : addr) :
    type val = EASS_ARRAY → value val = PArr arr → data arr = Ptr a →
    h !! a = Some (ValBuf l) → 0 ≤ i < size arr →
    l !! Z.to_nat i = Some (Some elem) →
    owns h elem b → owns h val b.

(** A heap with one text buffer, a value pointing to it, the array that
    holds this value, and [print("{}", array_get(&arr, 0))]. *)
Definition text_state : state :=
  mkState {[1%positive := CharBuf "hi"]} 2%positive (mkError 0 "") "".

Definition text_value : DynamicValue := mkValue EASS_STRING 0 (PStr (Ptr 1%positive)).

Definition text_array : outcome (state * DynamicArray) :=
  array_append false true text_state (mkArray NULL 0 0 0) text_value.

Definition print_element (fuel : nat) : outcome (state * DynamicArray * state) :=
  '(st, arr) ← text_array;
  '(st1, s) ← array_get st arr 0;
  match s with
  | Some val => st' ← print fuel "{}" [val] st1; Ok (st, arr, st')
  | None => Undefined
  end.

(** The output ends with a newline. *)
Definition ends_with_newline (s : string) : Prop :=
  ∃ s0, s = String.append s0 newline.

(** An array that holds a nested array, which holds a text, and a text of
    its own: four live blocks. *)
Definition nested_state : state :=
  mkState
    (<[1%positive := CharBuf "a"]>
     (<[2%positive := ValBuf [Some (mkValue EASS_STRING 0 (PStr (Ptr 1%positive)));
                              Some (Int 5)]]>
     (<[3%positive := CharBuf "b"]>
     (<[4%positive := ValBuf [Some (mkValue EASS_ARRAY 0
                                      (PArr (mkArray (Ptr 2%positive) 2 2 0)));
                              Some (mkValue EASS_STRING 0 (PStr (Ptr 3%positive)))]]>
      ∅))))
    5%positive (mkError 0 "") "".

Definition nested_value : DynamicValue :=
  mkValue EASS_ARRAY 0 (PArr (mkArray (Ptr 4%positive) 2 2 0)).

(** A template without placeholders: no NUL, and no brace that is followed
    by a closing brace or by a digit. *)
Fixpoint literal_only (s : string) : bool :=
  match s with
  | EmptyString => true
  | String c rest =>
      negb (is_nul c)
      && match rest with
         | String d _ =>
             negb (Ascii.eqb c "{" && negb (is_nul d)
                   && (Ascii.eqb d "}" || isdigit d))
         | EmptyString => true
         end
      && literal_only rest
  end.

(** [g] gives every result [f] gives without running out of fuel. *)
Definition refines {A B C : Type} (f g : A → B → outcome C) : Prop :=
  ∀ a b, f a b ≠ OutOfFuel → g a b = f a b.

(** An array with room left: [1, 2] in a buffer of four slots. *)
Definition roomy_state : state :=
  mkState {[1%positive := ValBuf [Some (Int 1); Some (Int 2); None; None]]}
    2%positive (mkError 0 "") "".

Definition roomy_array : DynamicArray := mkArray (Ptr 1%positive) 2 4 0.

(** An array in working order: no failure recorded, a live buffer [l] of
    [capacity] slots at [a], [size] within [capacity], and a buffer of at
    most [PTRDIFF_MAX] bytes. *)
Definition well_formed (st : state) (arr : DynamicArray) (a : addr) (l : list slot)
  : Prop :=
  error arr = 0 ∧ data arr = Ptr a ∧ heap st !! a = Some (ValBuf l)
  ∧ Z.of_nat (length l) = capacity arr ∧ 0 ≤ size arr ≤ capacity arr
  ∧ capacity arr * sizeof_DynamicValue < 2 ^ 63.

(** A value that owns no heap block. *)
Definition scalar (v : DynamicValue) : Prop :=
  type v ≠ EASS_STRING ∧ type v ≠ EASS_ARRAY.

(** A full array: [1, 2] in a buffer of two slots. *)
Definition packed_state : state :=
  mkState {[1%positive := ValBuf [Some (Int 1); Some (Int 2)]]}
    2%positive (mkError 0 "") "".

Definition packed_array : DynamicArray := mkArray (Ptr 1%positive) 2 2 0.

(** A template [print] has nothing to substitute in: no NUL and no
    ["{}"]. *)
Fixpoint plain (s : string) : bool :=
  match s with
  | EmptyString => true
  | String c rest =>
      negb (is_nul c)
      && negb (match rest with
               | String d _ => Ascii.eqb c "{" && Ascii.eqb d "}"
               | EmptyString => false
               end)
      && plain rest
  end.

(** The texts of a list, with [sep] between them. *)
Fixpoint join (sep : string) (texts : list string) : string :=
  match texts with
  | [] => EmptyString
  | [text] => text
  | text :: rest => String.append text (String.append sep (join sep rest))
  end.

(** The text after a literal part does not turn the part's last brace into
    a placeholder. *)
Definition no_placeholder_start (rest : string) : Prop :=
  match rest with
  | String d _ => Ascii.eqb d "}" = false ∧ isdigit d = false
  | EmptyString => True
  end.

(** The template [pre{}post]. *)
Definition one_placeholder (pre post : string) : string :=
  String.append pre (String "{" (String "}" post)).

(** A text of 129 characters, and a heap that holds it. *)
Definition long_text : string :=
  Eval cbv in String.concat "" (repeat "x"%string 129).

Definition long_text_state : state :=
  mkState {[1%positive := CharBuf long_text]} 2%positive (mkError 0 "") "".




(** The value of a decimal numeral read from the left, starting from
    [acc]. *)
Fixpoint uint_value (d : Decimal.uint) (acc : Z) : Z :=
  match d with
  | Decimal.Nil => acc
  | Decimal.D0 l => uint_value l (acc * 10 + 0)
  | Decimal.D1 l => uint_value l (acc * 10 + 1)
  | Decimal.D2 l => uint_value l (acc * 10 + 2)
  | Decimal.D3 l => uint_value l (acc * 10 + 3)
  | Decimal.D4 l => uint_value l (acc * 10 + 4)
  | Decimal.D5 l => uint_value l (acc * 10 + 5)
  | Decimal.D6 l => uint_value l (acc * 10 + 6)
  | Decimal.D7 l => uint_value l (acc * 10 + 7)
  | Decimal.D8 l => uint_value l (acc * 10 + 8)
  | Decimal.D9 l => uint_value l (acc * 10 + 9)
  end.

(** A number brought into the range of [long]. *)
Definition clamp_long (z : Z) : Z := Z.max LONG_MIN (Z.min z LONG_MAX).

(** A [strtof] that converts nothing. *)
Definition strtof_nothing (s : string) : c_float * string :=
  (mkFloat (S754_zero false) false, s).

(** One file of three bytes, and a read of it that [fread] cuts short. *)
Definition one_file : files := {["f"%string := "abc"%string]}.

Definition short_read : read_answers := mkReadAnswers 5 true 3 true 2.

(** The heap without the blocks of [dom]. *)
Definition remove_blocks (dom : gset addr) (h : gmap addr block) : gmap addr block :=
  filter (λ entry, entry.1 ∉ dom) h.

(** The sets of a list are disjoint from one another. *)
Fixpoint separate (doms : list (gset addr)) : Prop :=
  match doms with
  | [] => True
  | dom :: rest => dom ## ⋃ rest ∧ separate rest
  end.

(** [sound depth h val dom]: in heap [h] the value [val] is what the library
    builds, with its payload in the member its [type] names; a text is a live
    text buffer; an array has [size] initialised elements in a live buffer,
    sound themselves, and no block is reached twice. [dom] is the set of
    blocks the value reaches, its footprint, and [depth] bounds the nesting
    of arrays. *)
Fixpoint sound (depth : nat) (h : gmap addr block) (val : DynamicValue)
  (dom : gset addr) : Prop :=
  match depth with
  | O => False
  | S depth' =>
      match type val, value val with
      | EASS_INT, PInt _ => dom = ∅
      | EASS_FLOAT, PFloat _ => dom = ∅
      | EASS_NULL, _ => dom = ∅
      | EASS_STRING, PStr (Ptr a) => (∃ s, h !! a = Some (CharBuf s)) ∧ dom = {[a]}
      | EASS_ARRAY, PArr arr =>
          match data arr with
          | NULL => (size arr = 0 ∧ dom = ∅)
          | Ptr a =>
              ∃ (l : list slot) (elems : list DynamicValue) (doms : list (gset addr)),
                h !! a = Some (ValBuf l)
                ∧ 0 ≤ size arr
                ∧ take (Z.to_nat (size arr)) l = Some <$> elems
                ∧ length elems = Z.to_nat (size arr)
                ∧ Forall2 (sound depth' h) elems doms
                ∧ separate doms
                ∧ (a ∉ ⋃ doms)
                ∧ dom = {[a]} ∪ ⋃ doms
          end
      | _, _ => False
      end
  end.

(** Every ["{}"] that [print] scans finds an argument. *)
Fixpoint supplied (format : string) (args : list DynamicValue) : bool :=
  match format with
  | EmptyString => true
  | String c rest =>
      if is_nul c then true
      else
        match rest with
        | String d rest' =>
            if Ascii.eqb c "{" && Ascii.eqb d "}" then
              match args with
              | [] => false
              | val :: args' =>
                  if negb (verror val =? 0) then true
                  else supplied rest' args'
              end
            else supplied rest args
        | EmptyString => supplied rest args
        end
  end.

(** ** Proof tools *)

Lemma bind_Ok {A B : Type} (a : A) (f : A → outcome B) : (Ok a ≫= f) = f a.
Proof. reflexivity. Qed.

Lemma bind_Ok_inv {A B : Type} (m : outcome A) (f : A → outcome B) (b : B) :
  m ≫= f = Ok b → ∃ a, m = Ok a ∧ f a = Ok b.
Proof. destruct m as [a| |]; [|done..]. intros H. by exists a. Qed.

Lemma to_size_t_small (z : Z) : 0 ≤ z < 2 ^ 64 → to_size_t z = z.
Proof. intros H. unfold to_size_t. by apply Z.mod_small. Qed.

Ltac state_simpl :=
  unfold set_heap, fresh_block, _set_error, printf;
  cbn [heap next eass_last_error stdout fst snd data size capacity error
       mbind outcome_bind].

(** ** Index checks and the sticky error flag *)

Lemma rejected_set_error st msg : rejected st (_set_error EINVAL msg st).
Proof. repeat split. Qed.

(** C6: on a non-failed array, [array_get] and [array_remove] with
    [index >= size] and [array_insert] with [index > size] report [EINVAL],
    return the failed [EASS_NULL] value (the array itself for insert), and
    leave the array struct and the heap as they were. *)
Theorem index_out_of_bounds_rejected
  (embedded ok : bool) (st : state) (arr : DynamicArray) (index : Z)
  (val : DynamicValue) :
  error arr = 0 →
  (size arr ≤ index →
     (∃ st', array_get st arr index = Ok (st', Some invalid_value) ∧ rejected st st')
     ∧ (∃ st', array_remove st arr index = Ok (st', arr, Some invalid_value)
               ∧ rejected st st'))
  ∧ (size arr < index →
     ∃ st', array_insert embedded ok st arr index val = Ok (st', arr)
            ∧ rejected st st').
Proof.
  intros Herr. split.
  - intros Hge. unfold array_get, array_remove. rewrite Herr. simpl.
    destruct (Z.leb_spec (size arr) index) as [_|Hlt]; [|lia].
    split; eexists; (split; [reflexivity | apply rejected_set_error]).
  - intros Hgt. unfold array_insert. rewrite Herr. simpl.
    destruct (Z.ltb_spec (size arr) index) as [_|Hle]; [|lia].
    eexists. split; [reflexivity | apply rejected_set_error].
Qed.

Lemma index_out_of_bounds_rejected_witness :
  (∃ st', array_get initial_state (mkArray NULL 0 0 0) 1
          = Ok (st', Some invalid_value)
          ∧ rejected initial_state st')
  ∧ (∃ st', array_remove initial_state (mkArray NULL 0 0 0) 1
            = Ok (st', mkArray NULL 0 0 0, Some invalid_value)
            ∧ rejected initial_state st')
  ∧ (∃ st', array_insert false true initial_state (mkArray NULL 0 0 0) 1 (Int 1)
            = Ok (st', mkArray NULL 0 0 0)
            ∧ rejected initial_state st').
Proof.
  destruct (index_out_of_bounds_rejected false true initial_state
              (mkArray NULL 0 0 0) 1 (Int 1) eq_refl) as [Hge Hgt].
  destruct (Hge ltac:(simpl; lia)) as [Hget Hremove].
  split; [exact Hget | split; [exact Hremove | apply Hgt; simpl; lia]].
Defined.

(** C7: once [error] is set, [array_append], [array_insert] and
    [array_remove] change nothing, neither the array struct nor the state,
    and hand the failure back: the array with its flag, or the failed
    value. *)
Theorem failed_array_is_sticky
  (embedded ok : bool) (st : state) (arr : DynamicArray) (index : Z)
  (val : DynamicValue) :
  error arr ≠ 0 →
  array_append embedded ok st arr val = Ok (st, arr)
  ∧ array_insert embedded ok st arr index val = Ok (st, arr)
  ∧ array_remove st arr index = Ok (st, arr, Some invalid_value)
  ∧ verror invalid_value ≠ 0.
Proof.
  intros Herr. apply Z.eqb_neq in Herr.
  unfold array_append, array_insert, array_remove. rewrite Herr. simpl.
  repeat split; lia.
Qed.

Lemma failed_array_is_sticky_witness :
  array_append false true initial_state (mkArray NULL 0 0 1) (Int 7)
  = Ok (initial_state, mkArray NULL 0 0 1)
  ∧ array_insert false true initial_state (mkArray NULL 0 0 1) 1 (Int 7)
    = Ok (initial_state, mkArray NULL 0 0 1)
  ∧ array_remove initial_state (mkArray NULL 0 0 1) 1
    = Ok (initial_state, mkArray NULL 0 0 1, Some invalid_value)
  ∧ verror invalid_value ≠ 0.
Proof.
  apply (failed_array_is_sticky false true initial_state (mkArray NULL 0 0 1) 1 (Int 7)).
  simpl. lia.
Defined.

(** ** Runs of [array_append] *)

Lemma capacities_checked : forallb capacity_step_ok capacities = true.
Proof. vm_compute. reflexivity. Qed.

Lemma capacity_range (c : Z) : In c capacities → 0 ≤ c ≤ last_capacity.
Proof.
  intros Hin.
  pose proof (proj1 (forallb_forall _ _) capacities_checked c Hin) as H.
  unfold capacity_step_ok in H. lia.
Qed.

Lemma capacity_next (c : Z) :
  In c capacities → c < last_capacity →
  In (append_new_cap c) capacities ∧ c < append_new_cap c.
Proof.
  intros Hin Hlt.
  pose proof (proj1 (forallb_forall _ _) capacities_checked c Hin) as H.
  unfold capacity_step_ok in H.
  apply andb_prop in H as [_ H]. apply orb_prop in H as [H|H]; [lia|].
  apply andb_prop in H as [Hex Hgt]. split; [|lia].
  apply existsb_exists in Hex as (c' & Hc' & Heq).
  apply Z.eqb_eq in Heq. by rewrite Heq.
Qed.

Lemma buffer_bytes (c : Z) :
  0 ≤ c ≤ last_capacity →
  to_size_t (c * sizeof_DynamicValue) = c * sizeof_DynamicValue
  ∧ slots_of_bytes (c * sizeof_DynamicValue) = Z.to_nat c.
Proof.
  intros H. unfold last_capacity in H. split.
  - apply to_size_t_small. unfold sizeof_DynamicValue.
    change (2 ^ 64) with 18446744073709551616. lia.
  - unfold slots_of_bytes. f_equal. apply Z.div_mul. discriminate.
Qed.

Lemma heap_fresh_insert (st : state) (a : addr) (b b' : block) :
  heap_fresh st → heap st !! a = Some b →
  heap_fresh (set_heap (<[a := b']> (heap st)) st).
Proof.
  intros Hfresh Ha a' Hle. simpl in Hle |- *.
  rewrite lookup_insert_ne; [by apply Hfresh|].
  intros Heq. specialize (Hfresh a' Hle). congruence.
Qed.

Lemma heap_fresh_delete (st : state) (a : addr) :
  heap_fresh st → heap_fresh (set_heap (delete a (heap st)) st).
Proof.
  intros Hfresh a' Hle. simpl in Hle |- *.
  destruct (decide (a = a')) as [->|Hne].
  - apply lookup_delete_eq.
  - rewrite lookup_delete_ne by done. by apply Hfresh.
Qed.

Lemma heap_fresh_block (st : state) (b : block) :
  heap_fresh st → heap_fresh (fresh_block b st).1.
Proof.
  intros Hfresh a' Hle. simpl in Hle |- *.
  rewrite lookup_insert_ne by lia. apply Hfresh. lia.
Qed.

Lemma store_holds (st : state) (arr : DynamicArray) (vals : list DynamicValue)
  (v : DynamicValue) :
  holds st arr vals → size arr < capacity arr →
  ∃ st', store st (data arr) (size arr) (Some v) = Ok st'
         ∧ holds st' (mkArray (data arr) (to_size_t (size arr + 1)) (capacity arr)
                        (error arr)) (vals ++ [v]).
Proof.
  intros (Herr & Hsize & Hcap & Hle & Hfresh & Hbuf) Hlt.
  pose proof (capacity_range _ Hcap) as Hrange. unfold last_capacity in Hrange.
  unfold buffer_holds in Hbuf. unfold store.
  destruct (data arr) as [|a] eqn:Hdata; [lia|].
  destruct Hbuf as (l & Hl & Hlen & Htake). rewrite Hl.
  destruct (Z.leb_spec 0 (size arr)) as [_|?]; [|lia].
  destruct (Z.ltb_spec (size arr) (Z.of_nat (length l))) as [_|?]; [|lia].
  eexists. split; [reflexivity|].
  assert (Hn : Z.to_nat (size arr) = length vals) by lia.
  unfold holds, buffer_holds. simpl.
  repeat split; try done.
  - rewrite to_size_t_small.
    + rewrite length_app. simpl. lia.
    + change (2 ^ 64) with 18446744073709551616. lia.
  - rewrite to_size_t_small; [lia|].
    change (2 ^ 64) with 18446744073709551616. lia.
  - eapply heap_fresh_insert; eauto.
  - exists (<[Z.to_nat (size arr) := Some v]> l).
    rewrite lookup_insert_eq, length_insert. repeat split; [done|].
    rewrite Hn, length_app, fmap_app. simpl. rewrite Nat.add_1_r.
    rewrite (take_S_r _ _ (Some v)).
    + rewrite take_insert_ge by lia. by rewrite Htake.
    + apply list_lookup_insert_eq. lia.
Qed.

Lemma memcpy_zero (dst src : ptr) (doff soff : Z) (st : state) :
  memcpy dst doff src soff 0 st = Ok st.
Proof. reflexivity. Qed.

Lemma memcpy_prefix (st : state) (d s : addr) (ld ls : list slot) (n : Z) :
  heap st !! d = Some (ValBuf ld) → heap st !! s = Some (ValBuf ls) →
  0 < n ≤ Z.of_nat (length ls) → n ≤ Z.of_nat (length ld) →
  memcpy (Ptr d) 0 (Ptr s) 0 (n * sizeof_DynamicValue) st
  = Ok (set_heap (<[d := ValBuf (take (Z.to_nat n) ls ++ drop (Z.to_nat n) ld)]>
                    (heap st)) st).
Proof.
  intros Hd Hs Hn Hn'. unfold memcpy.
  rewrite Z.div_mul by discriminate.
  destruct (Z.eqb_spec n 0) as [?|_]; [lia|].
  rewrite Hd, Hs. rewrite !Z.add_0_l. simpl.
  destruct (Z.leb_spec n (Z.of_nat (length ls))) as [_|?]; [|lia].
  destruct (Z.leb_spec n (Z.of_nat (length ld))) as [_|?]; [|lia].
  reflexivity.
Qed.

Lemma append_grow_holds (embedded : bool) (st : state) (arr : DynamicArray)
  (vals : list DynamicValue) :
  holds st arr vals → capacity arr ≤ size arr → size arr < last_capacity →
  ∃ st1 arr1, append_grow embedded true st arr = Ok (st1, arr1, true)
              ∧ holds st1 arr1 vals ∧ size arr1 < capacity arr1.
Proof.
  intros (Herr & Hsize & Hcap & Hle & Hfresh & Hbuf) Hfull Hlt.
  assert (Heq : capacity arr = size arr) by lia.
  destruct (capacity_next _ Hcap ltac:(lia)) as [Hin' Hgt].
  pose proof (capacity_range _ Hin') as Hrange'.
  pose proof (capacity_range _ Hcap) as Hrange.
  destruct (buffer_bytes _ Hrange') as [Hbytes Hslots].
  unfold append_grow. rewrite Hbytes.
  set (c' := append_new_cap (capacity arr)) in *.
  unfold buffer_holds in Hbuf.
  assert (Hnil : size arr = 0 → vals = []).
  { intros Hz. destruct vals; [done | simpl in Hsize; lia]. }
  destruct embedded.
  - unfold malloc_values. rewrite Hslots.
    set (fresh := replicate (Z.to_nat c') None : list slot).
    assert (Hfl : length fresh = Z.to_nat c') by apply length_replicate.
    pose proof (heap_fresh_block st (ValBuf fresh) Hfresh) as Hfresh1.
    unfold fresh_block in Hfresh1 |- *. cbn [fst snd] in Hfresh1 |- *.
    rewrite (proj1 (buffer_bytes (size arr) ltac:(lia))).
    destruct (data arr) as [|a] eqn:Hdata.
    + assert (Hz : size arr = 0) by lia. rewrite Hz, (Hnil Hz).
      rewrite memcpy_zero. state_simpl. unfold free.
      eexists _, _. split; [reflexivity|].
      unfold holds, buffer_holds. state_simpl.
      split_and!; try done; try lia.
      exists fresh. rewrite lookup_insert_eq. split_and!; [done | lia | by rewrite take_0].
    + destruct Hbuf as (l & Hl & Hlen & Htake).
      assert (Hne : next st ≠ a).
      { intros <-. rewrite (Hfresh (next st)) in Hl by lia. discriminate. }
      destruct (Z.eq_dec (size arr) 0) as [Hz|Hnz].
      * rewrite Hz, (Hnil Hz). rewrite memcpy_zero. state_simpl. unfold free.
        state_simpl. rewrite lookup_insert_ne, Hl by done.
        eexists _, _. split; [reflexivity|].
        unfold holds, buffer_holds. state_simpl.
        split_and!; try done; try lia.
        -- by apply (heap_fresh_delete _ a) in Hfresh1.
        -- exists fresh. rewrite lookup_delete_ne, lookup_insert_eq by done.
           split_and!; [done | lia | by rewrite take_0].
      * erewrite (memcpy_prefix _ (next st) a fresh l).
        2: { state_simpl. apply lookup_insert_eq. }
        2: { state_simpl. by rewrite lookup_insert_ne. }
        2, 3: lia.
        state_simpl. unfold free. state_simpl.
        rewrite lookup_insert_ne, lookup_insert_ne, Hl by done.
        eexists _, _. split; [reflexivity|].
        unfold holds, buffer_holds. state_simpl.
        split_and!; try done; try lia.
        -- apply (heap_fresh_insert _ (next st) (ValBuf fresh)
                    (ValBuf (take (Z.to_nat (size arr)) l
                             ++ drop (Z.to_nat (size arr)) fresh))) in Hfresh1;
             [|apply lookup_insert_eq].
           by apply (heap_fresh_delete _ a) in Hfresh1.
        -- eexists. rewrite lookup_delete_ne, lookup_insert_eq by done.
           split; [reflexivity|]. split.
           ++ rewrite length_app, length_take, length_drop. lia.
           ++ rewrite take_app_le by (rewrite length_take; lia).
              rewrite take_take. rewrite <- Htake. f_equal. lia.
  - unfold realloc_values, malloc_values. rewrite Hslots.
    destruct (data arr) as [|a] eqn:Hdata.
    + state_simpl. eexists _, _. split; [reflexivity|].
      unfold holds, buffer_holds. state_simpl.
      split_and!; try done; try lia.
      * by apply (heap_fresh_block st (ValBuf (replicate (Z.to_nat c') None))).
      * eexists. rewrite lookup_insert_eq. split; [reflexivity|].
        rewrite length_replicate. split; [lia | by rewrite (Hnil ltac:(lia)), take_0].
    + destruct Hbuf as (l & Hl & Hlen & Htake). rewrite Hl. state_simpl.
      eexists _, _. split; [reflexivity|].
      unfold holds, buffer_holds. state_simpl.
      split_and!; try done; try lia.
      * exact (heap_fresh_block _ (ValBuf _) (heap_fresh_delete _ a Hfresh)).
      * eexists. rewrite lookup_insert_eq. split; [reflexivity|]. split.
        -- rewrite length_app, length_take, length_replicate. lia.
        -- rewrite take_app_le by (rewrite length_take; lia).
           rewrite take_take. rewrite <- Htake. f_equal. lia.
Qed.

Lemma array_append_holds (embedded : bool) (st : state) (arr : DynamicArray)
  (vals : list DynamicValue) (v : DynamicValue) :
  holds st arr vals → size arr < last_capacity →
  ∃ st' arr', array_append embedded true st arr v = Ok (st', arr')
              ∧ holds st' arr' (vals ++ [v]).
Proof.
  intros H Hlt. unfold array_append.
  rewrite (proj1 H). cbn [Z.eqb negb].
  destruct (Z.leb_spec (capacity arr) (size arr)) as [Hfull|Hroom].
  - destruct (append_grow_holds embedded _ _ _ H Hfull Hlt)
      as (st1 & arr1 & Hgrow & H1 & Hroom).
    rewrite Hgrow, bind_Ok.
    destruct (store_holds _ _ _ v H1 Hroom) as (st' & Hstore & H').
    rewrite Hstore, bind_Ok. by eexists _, _.
  - rewrite bind_Ok.
    destruct (store_holds _ _ _ v H Hroom) as (st' & Hstore & H').
    rewrite Hstore, bind_Ok. by eexists _, _.
Qed.

Lemma appends_app (embedded : bool) (vals1 vals2 : list DynamicValue) :
  ∀ st arr,
    appends embedded st arr (vals1 ++ vals2)
    = '(st1, arr1) ← appends embedded st arr vals1; appends embedded st1 arr1 vals2.
Proof.
  induction vals1 as [|v vals1 IH]; intros st arr; [reflexivity|].
  cbn [appends app].
  destruct (array_append embedded true st arr v) as [[st1 arr1]| |]; [|done..].
  rewrite !bind_Ok. apply IH.
Qed.

Lemma holds_empty_array : holds empty_array.1 empty_array.2 [].
Proof.
  unfold holds, buffer_holds, empty_array, array. cbn.
  split_and!; try done. by left.
Qed.

Lemma appends_holds (embedded : bool) (vals : list DynamicValue) :
  Z.of_nat (length vals) ≤ last_capacity →
  ∃ st arr, appends embedded empty_array.1 empty_array.2 vals = Ok (st, arr)
            ∧ holds st arr vals.
Proof.
  induction vals as [|v vals IH] using rev_ind; intros Hlen.
  - eexists _, _. split; [reflexivity | apply holds_empty_array].
  - rewrite length_app in Hlen. cbn [length] in Hlen.
    destruct IH as (st & arr & Hrun & H); [lia|].
    destruct (array_append_holds embedded st arr vals v H) as (st' & arr' & Hstep & H').
    { destruct H as (_ & Hsize & _). lia. }
    exists st', arr'. split; [|done].
    rewrite appends_app, Hrun, bind_Ok. cbn [appends]. by rewrite Hstep, bind_Ok.
Qed.

Lemma holds_contents (st : state) (arr : DynamicArray) (vals : list DynamicValue) :
  holds st arr vals → contents st arr = Ok (Some <$> vals).
Proof.
  intros (Herr & Hsize & Hcap & Hle & Hfresh & Hbuf).
  unfold contents. unfold buffer_holds in Hbuf.
  destruct (data arr) as [|a].
  - assert (Hz : size arr = 0) by lia. rewrite Hz. cbn [Z.eqb].
    destruct vals; [done | simpl in Hsize; lia].
  - destruct Hbuf as (l & Hl & Hlen & Htake). rewrite Hl.
    destruct (Z.leb_spec (size arr) (Z.of_nat (length l))) as [_|?]; [|lia].
    rewrite Hsize, Nat2Z.id. by rewrite Htake.
Qed.

(** X1: a run of up to 1551591828 successful appends on [array(0)]
    succeeds in both build variants: no failure is recorded, [size] is the
    number of values and the contents are the values in order. *)
Theorem appends_store_in_order (embedded : bool) (vals : list DynamicValue) :
  Z.of_nat (length vals) ≤ last_capacity →
  ∃ st arr, appends embedded empty_array.1 empty_array.2 vals = Ok (st, arr)
            ∧ error arr = 0
            ∧ size arr = Z.of_nat (length vals)
            ∧ contents st arr = Ok (Some <$> vals).
Proof.
  intros Hlen. destruct (appends_holds embedded vals Hlen) as (st & arr & Hrun & H).
  exists st, arr. split_and!; [done | apply H | apply H | by apply holds_contents].
Qed.

Lemma appends_store_in_order_witness :
  ∃ st arr,
    appends false empty_array.1 empty_array.2 [Int 1; Int 2; Int 3] = Ok (st, arr)
    ∧ error arr = 0
    ∧ size arr = Z.of_nat (length [Int 1; Int 2; Int 3])
    ∧ contents st arr = Ok (Some <$> [Int 1; Int 2; Int 3]).
Proof.
  apply (appends_store_in_order false [Int 1; Int 2; Int 3]).
  unfold last_capacity. cbn. lia.
Defined.

Lemma append_new_cap_last : append_new_cap last_capacity = 4.
Proof. vm_compute. reflexivity. Qed.

Lemma append_at_last_capacity (embedded : bool) (st : state) (arr : DynamicArray)
  (vals : list DynamicValue) (v : DynamicValue) :
  holds st arr vals → size arr = last_capacity →
  array_append embedded true st arr v = Undefined.
Proof.
  intros (Herr & Hsize & Hcap & Hle & Hfresh & Hbuf) Hlast.
  pose proof (capacity_range _ Hcap) as Hrange.
  assert (Hc : capacity arr = last_capacity) by lia.
  assert (Hbig : 4 < last_capacity) by (unfold last_capacity; lia).
  unfold array_append. rewrite Herr. cbn [Z.eqb negb].
  destruct (Z.leb_spec (capacity arr) (size arr)) as [_|?]; [|lia].
  unfold append_grow. rewrite Hc, append_new_cap_last.
  change (to_size_t (4 * sizeof_DynamicValue)) with 160.
  unfold buffer_holds in Hbuf.
  destruct (data arr) as [|a] eqn:Hdata; [lia|].
  destruct Hbuf as (l & Hl & Hlen & _).
  destruct embedded.
  - unfold malloc_values.
    change (slots_of_bytes 160) with 4%nat. state_simpl.
    rewrite (proj1 (buffer_bytes (size arr) ltac:(lia))).
    unfold memcpy. rewrite Z.div_mul by discriminate.
    destruct (Z.eqb_spec (size arr) 0) as [?|_]; [lia|].
    state_simpl. rewrite lookup_insert_eq, lookup_insert_ne, Hl.
    + rewrite !Z.add_0_l. rewrite length_replicate.
      destruct (Z.leb_spec (size arr) (Z.of_nat 4)) as [?|_]; [lia|].
      by rewrite andb_false_r.
    + intros Heq. rewrite <- Heq, (Hfresh (next st)) in Hl by lia. discriminate.
  - unfold realloc_values. rewrite Hl.
    change (slots_of_bytes 160) with 4%nat. state_simpl.
    unfold store. state_simpl. rewrite lookup_insert_eq.
    rewrite length_app, length_take, length_replicate.
    destruct (Z.ltb_spec (size arr) (Z.of_nat (4 `min` length l + (4 - length l))))
      as [?|_]; [lia|].
    by rewrite andb_false_r.
Qed.

(** C1, at [array(0)] followed by 1551591829 successful appends of any
    value: after 1551591828 of them [size == capacity == 1551591828]; the
    next call computes [capacity + (capacity >> 1) = 2327387742], which does
    not fit [int new_cap] and wraps to a negative number, so [new_cap]
    becomes 4, the buffer is cut down to four elements, and the store at
    index [size] (the copy into the new buffer, with
    [EASS_ENABLE_EMBEDDED]) is out of bounds. *)
Theorem append_capacity_wraps (embedded : bool) (v : DynamicValue) :
  appends embedded empty_array.1 empty_array.2
    (replicate (Z.to_nat (last_capacity + 1)) v) = Undefined.
Proof.
  assert (Hpos : 0 ≤ last_capacity) by (unfold last_capacity; lia).
  rewrite Z.add_1_r, Z2Nat.inj_succ, replicate_S_end by exact Hpos.
  destruct (appends_holds embedded (replicate (Z.to_nat last_capacity) v))
    as (st & arr & Hrun & H).
  { rewrite length_replicate, Z2Nat.id by exact Hpos. reflexivity. }
  rewrite appends_app, Hrun, bind_Ok. cbn [appends].
  rewrite (append_at_last_capacity embedded st arr _ v H); [reflexivity|].
  destruct H as (_ & Hsize & _).
  rewrite Hsize, length_replicate. by apply Z2Nat.id.
Qed.

(** ** [array_insert] and [array_remove] in place *)

Lemma load_block (st : state) (a : addr) (l : list slot) (i : Z) (s : slot) :
  heap st !! a = Some (ValBuf l) → 0 ≤ i → l !! Z.to_nat i = Some s →
  load st (Ptr a) i = Ok s.
Proof.
  intros Ha Hi Hs. unfold load. rewrite Ha.
  destruct (Z.leb_spec 0 i) as [_|?]; [|lia]. by rewrite Hs.
Qed.

Lemma store_block (st : state) (a : addr) (l : list slot) (i : Z) (s : slot) :
  heap st !! a = Some (ValBuf l) → 0 ≤ i < Z.of_nat (length l) →
  ∃ st', store st (Ptr a) i s = Ok st'
         ∧ heap st' !! a = Some (ValBuf (<[Z.to_nat i := s]> l)).
Proof.
  intros Ha Hi. unfold store. rewrite Ha.
  destruct (Z.leb_spec 0 i) as [_|?]; [|lia].
  destruct (Z.ltb_spec i (Z.of_nat (length l))) as [_|?]; [|lia].
  eexists. split; [reflexivity|]. unfold set_heap. cbn [heap].
  apply lookup_insert_eq.
Qed.

Lemma shift_right_block (a : addr) (n : nat) :
  ∀ (i : Z) (st : state) (l : list slot),
    heap st !! a = Some (ValBuf l) →
    Z.of_nat n ≤ i < Z.of_nat (length l) →
    ∃ st' l',
      shift_right n i (Ptr a) st = Ok st'
      ∧ heap st' !! a = Some (ValBuf l')
      ∧ length l' = length l
      ∧ ∀ j : nat,
          l' !! j = if decide (i - Z.of_nat n < Z.of_nat j ≤ i)
                    then l !! (j - 1)%nat else l !! j.
Proof.
  induction n as [|n IH]; intros i st l Ha Hi.
  - exists st, l. split_and!; try done.
    intros j. case_decide; [lia | done].
  - cbn [shift_right].
    destruct (lookup_lt_is_Some_2 l (Z.to_nat (i - 1)) ltac:(lia)) as [s Hs].
    rewrite (load_block st a l (i - 1) s), bind_Ok by (done || lia).
    destruct (store_block st a l i s Ha ltac:(lia)) as (st1 & -> & H1).
    rewrite bind_Ok.
    destruct (IH (i - 1) st1 _ H1) as (st' & l' & Hrun & Ha' & Hlen & Hl').
    { rewrite length_insert. lia. }
    exists st', l'. rewrite length_insert in Hlen. split_and!; try done.
    intros j. rewrite Hl'.
    destruct (decide (Z.of_nat j = i)) as [Hj|Hj].
    + rewrite decide_False by lia. rewrite decide_True by lia.
      replace j with (Z.to_nat i) by lia.
      rewrite list_lookup_insert_eq by lia.
      rewrite <- Hs. f_equal. lia.
    + case_decide; case_decide; try lia;
        rewrite list_lookup_insert_ne by lia; done.
Qed.

Lemma shift_left_block (a : addr) (n : nat) :
  ∀ (i : Z) (st : state) (l : list slot),
    heap st !! a = Some (ValBuf l) →
    0 ≤ i → i + Z.of_nat n < Z.of_nat (length l) →
    ∃ st' l',
      shift_left n i (Ptr a) st = Ok st'
      ∧ heap st' !! a = Some (ValBuf l')
      ∧ length l' = length l
      ∧ ∀ j : nat,
          l' !! j = if decide (i ≤ Z.of_nat j < i + Z.of_nat n)
                    then l !! S j else l !! j.
Proof.
  induction n as [|n IH]; intros i st l Ha Hi0 Hi.
  - exists st, l. split_and!; try done.
    intros j. case_decide; [lia | done].
  - cbn [shift_left].
    destruct (lookup_lt_is_Some_2 l (Z.to_nat (i + 1)) ltac:(lia)) as [s Hs].
    rewrite (load_block st a l (i + 1) s), bind_Ok by (done || lia).
    destruct (store_block st a l i s Ha ltac:(lia)) as (st1 & -> & H1).
    rewrite bind_Ok.
    destruct (IH (i + 1) st1 _ H1) as (st' & l' & Hrun & Ha' & Hlen & Hl').
    { lia. }
    { rewrite length_insert. lia. }
    exists st', l'. rewrite length_insert in Hlen. split_and!; try done.
    intros j. rewrite Hl'.
    destruct (decide (Z.of_nat j = i)) as [Hj|Hj].
    + rewrite decide_False by lia. rewrite decide_True by lia.
      replace j with (Z.to_nat i) by lia.
      rewrite list_lookup_insert_eq by lia.
      rewrite <- Hs. f_equal. lia.
    + case_decide; case_decide; try lia;
        rewrite list_lookup_insert_ne by lia; done.
Qed.

(** [array_insert] without growth: the elements from [index] on move up by
    one and the value takes their place. *)
Lemma array_insert_in_place (embedded ok : bool) (st : state) (arr : DynamicArray)
  (index : Z) (v : DynamicValue) (a : addr) (l : list slot) :
  error arr = 0 → data arr = Ptr a → heap st !! a = Some (ValBuf l) →
  0 ≤ index ≤ size arr → size arr < capacity arr →
  capacity arr ≤ Z.of_nat (length l) → capacity arr < 2 ^ 64 →
  ∃ st1 l1,
    array_insert embedded ok st arr index v
    = Ok (st1, mkArray (Ptr a) (size arr + 1) (capacity arr) 0)
    ∧ heap st1 !! a = Some (ValBuf l1)
    ∧ length l1 = length l
    ∧ ∀ j : nat,
        l1 !! j = if decide (Z.of_nat j = index) then Some (Some v)
                  else if decide (index < Z.of_nat j ≤ size arr)
                       then l !! (j - 1)%nat else l !! j.
Proof.
  intros Herr Hdata Ha Hindex Hroom Hcap Hmax.
  unfold array_insert. rewrite Herr, Hdata. cbn [Z.eqb negb].
  destruct (Z.ltb_spec (size arr) index) as [?|_]; [lia|].
  destruct (Z.leb_spec (capacity arr) (size arr)) as [?|_]; [lia|].
  destruct (shift_right_block a (Z.to_nat (size arr - index)) (size arr) st l Ha)
    as (st1 & l1 & -> & Ha1 & Hlen1 & Hl1); [lia|].
  rewrite !bind_Ok. cbn [data size capacity error]. rewrite Hdata.
  destruct (store_block st1 a l1 index (Some v) Ha1 ltac:(lia))
    as (st2 & -> & Ha2).
  rewrite bind_Ok, to_size_t_small by lia.
  eexists _, _. split_and!; [by rewrite Herr | exact Ha2 | by rewrite length_insert |].
  intros j. destruct (decide (Z.of_nat j = index)) as [Hj|Hj].
  - replace j with (Z.to_nat index) by lia. apply list_lookup_insert_eq. lia.
  - rewrite list_lookup_insert_ne by lia. rewrite Hl1.
    case_decide; case_decide; (done || lia).
Qed.

Lemma array_remove_in_place (st : state) (arr : DynamicArray) (index : Z)
  (a : addr) (l : list slot) (s : slot) :
  error arr = 0 → data arr = Ptr a → heap st !! a = Some (ValBuf l) →
  0 ≤ index < size arr → size arr ≤ Z.of_nat (length l) → size arr < 2 ^ 64 →
  l !! Z.to_nat index = Some s →
  ∃ st1 l1,
    array_remove st arr index
    = Ok (st1, mkArray (Ptr a) (size arr - 1) (capacity arr) 0, s)
    ∧ heap st1 !! a = Some (ValBuf l1)
    ∧ length l1 = length l
    ∧ ∀ j : nat,
        l1 !! j = if decide (index ≤ Z.of_nat j < size arr - 1)
                  then l !! S j else l !! j.
Proof.
  intros Herr Hdata Ha Hindex Hsize Hmax Hs.
  unfold array_remove. rewrite Herr, Hdata. cbn [Z.eqb negb].
  destruct (Z.leb_spec (size arr) index) as [?|_]; [lia|].
  rewrite (load_block st a l index s), bind_Ok by (done || lia).
  rewrite to_size_t_small by lia.
  destruct (shift_left_block a (Z.to_nat (size arr - 1 - index)) index st l Ha)
    as (st1 & l1 & -> & Ha1 & Hlen1 & Hl1); [lia | lia |].
  rewrite bind_Ok. eexists _, _. split_and!; try done.
  intros j. rewrite Hl1. case_decide; case_decide; (done || lia).
Qed.

(** X11: in an array with room left, [array_insert] followed by
    [array_remove] at the same index gives back the value and the array,
    struct and contents. *)
Theorem insert_remove_in_place (embedded ok : bool) (st : state)
  (arr : DynamicArray) (index : Z) (v : DynamicValue) (a : addr) (l : list slot) :
  error arr = 0 → data arr = Ptr a → heap st !! a = Some (ValBuf l) →
  0 ≤ index ≤ size arr → size arr < capacity arr →
  capacity arr ≤ Z.of_nat (length l) → capacity arr < 2 ^ 64 →
  ∃ st1 arr1 st2,
    array_insert embedded ok st arr index v = Ok (st1, arr1)
    ∧ array_remove st1 arr1 index = Ok (st2, arr, Some v)
    ∧ contents st2 arr = contents st arr.
Proof.
  intros Herr Hdata Ha Hindex Hroom Hcap Hmax.
  destruct (array_insert_in_place embedded ok st arr index v a l)
    as (st1 & l1 & Hins & Ha1 & Hlen1 & Hl1); try done.
  destruct (array_remove_in_place st1 (mkArray (Ptr a) (size arr + 1) (capacity arr) 0)
              index a l1 (Some v))
    as (st2 & l2 & Hrem & Ha2 & Hlen2 & Hl2); try done; cbn [size]; try lia.
  { rewrite Hl1. rewrite decide_True by lia. done. }
  cbn [size capacity] in Hrem, Hl2.
  replace (size arr + 1 - 1) with (size arr) in Hrem, Hl2 by lia.
  eexists st1, _, st2. split; [exact Hins|]. split.
  - rewrite Hrem. destruct arr as [d sz c e]. cbn in *. by subst.
  - unfold contents. rewrite Hdata, Ha2, Ha, Hlen2, Hlen1.
    destruct (Z.leb_spec (size arr) (Z.of_nat (length l))) as [_|?]; [|lia].
    f_equal. apply list_eq. intros j.
    destruct (decide (j < Z.to_nat (size arr))%nat) as [Hj|Hj].
    + rewrite !lookup_take_lt by done. rewrite Hl2.
      case_decide.
      * rewrite Hl1. rewrite decide_False by lia. rewrite decide_True by lia.
        f_equal. lia.
      * rewrite Hl1. rewrite decide_False by lia. rewrite decide_False by lia. done.
    + by rewrite !lookup_take_ge by lia.
Qed.

Lemma insert_remove_in_place_witness :
  ∃ st1 arr1 st2,
    array_insert false true roomy_state roomy_array 1 (Int 9) = Ok (st1, arr1)
    ∧ array_remove st1 arr1 1 = Ok (st2, roomy_array, Some (Int 9))
    ∧ contents st2 roomy_array = contents roomy_state roomy_array.
Proof.
  apply (insert_remove_in_place false true roomy_state roomy_array 1 (Int 9)
           1%positive [Some (Int 1); Some (Int 2); None; None]);
    try reflexivity; cbn; lia.
Defined.

(** ** Growth in [array_insert] *)

(** C2, at the input [1, 2, 3, 4] (full), insert of [Int 9] at index 1:
    without [EASS_ENABLE_EMBEDDED] the buffer is reallocated and nothing is
    shifted, so [Int 2] is overwritten and the last slot within [size] was
    never written; the embedded branch of the same function copies around
    the index and keeps every element. *)
Theorem insert_growth_overwrites_element :
  observe (full_array false)
  = Ok (mkArray (Ptr 1%positive) 4 4 0, [Some (Int 1); Some (Int 2); Some (Int 3); Some (Int 4)])
  ∧ observe (full_array_insert false)
    = Ok (mkArray (Ptr 2%positive) 5 8 0,
          [Some (Int 1); Some (Int 9); Some (Int 3); Some (Int 4); None])
  ∧ observe (full_array_insert true)
    = Ok (mkArray (Ptr 2%positive) 5 8 0,
          [Some (Int 1); Some (Int 9); Some (Int 2); Some (Int 3); Some (Int 4)]).
Proof. repeat split; vm_compute; reflexivity. Qed.

(** C3, at the same input: insert at index 1 followed by remove at index 1
    returns the inserted value, but the array is left as [1, 3, 4] and an
    indeterminate slot, not as [1, 2, 3, 4]. *)
Theorem insert_remove_after_growth_differs :
  ('(st, arr, removed) ← full_array_insert_remove false;
   l ← contents st arr;
   Ok (removed, size arr, l))
  = Ok (Some (Int 9), 4, [Some (Int 1); Some (Int 3); Some (Int 4); None]).
Proof. vm_compute; reflexivity. Qed.

(** X9: [array_insert] on a full array, without [EASS_ENABLE_EMBEDDED]:
    the new buffer is the old one followed by unwritten slots, with the
    value stored over slot [index]; no element has moved. *)
Lemma array_insert_growth_no_shift (st : state) (arr : DynamicArray) (index : Z)
  (v : DynamicValue) (a : addr) (l : list slot) :
  error arr = 0 → data arr = Ptr a → heap st !! a = Some (ValBuf l) →
  Z.of_nat (length l) = capacity arr → size arr = capacity arr →
  0 ≤ index ≤ size arr → 0 < capacity arr < 2 ^ 56 →
  ∃ st1,
    array_insert false true st arr index v
    = Ok (st1, mkArray (Ptr (next st)) (size arr + 1) (2 * capacity arr) 0)
    ∧ heap st1 !! next st
      = Some (ValBuf (<[Z.to_nat index := Some v]>
                        (l ++ replicate (length l) None))).
Proof.
  intros Herr Hdata Ha Hlen Hfull Hindex Hcap.
  assert (Hpow : 2 ^ 56 * 256 = 2 ^ 64) by reflexivity.
  unfold array_insert. rewrite Herr. cbn [Z.eqb negb].
  destruct (Z.ltb_spec (size arr) index) as [?|_]; [lia|].
  destruct (Z.leb_spec (capacity arr) (size arr)) as [_|?]; [|lia].
  unfold insert_grow, insert_new_cap, realloc_values.
  destruct (Z.eqb_spec (capacity arr) 0) as [?|_]; [lia|].
  rewrite Hdata, Ha.
  rewrite (to_size_t_small (capacity arr * 2)) by lia.
  rewrite to_size_t_small by (unfold sizeof_DynamicValue; lia).
  unfold slots_of_bytes. rewrite Z.div_mul by discriminate.
  rewrite take_ge by lia.
  replace (Z.to_nat (capacity arr * 2) - length l)%nat with (length l) by lia.
  unfold fresh_block, set_heap. cbn [heap next]. rewrite !bind_Ok.
  cbn [data size capacity error]. unfold store. cbn [heap].
  rewrite lookup_insert_eq, length_app, length_replicate.
  destruct (Z.leb_spec 0 index) as [_|?]; [|lia].
  destruct (Z.ltb_spec index (Z.of_nat (length l + length l))) as [_|?]; [|lia].
  cbn [andb]. rewrite bind_Ok, to_size_t_small by lia.
  eexists. split.
  - rewrite Herr. do 3 f_equal. lia.
  - unfold set_heap. cbn [heap]. apply lookup_insert_eq.
Qed.

Lemma array_insert_growth_no_shift_witness :
  ∃ st1,
    array_insert false true packed_state packed_array 1 (Int 9)
    = Ok (st1, mkArray (Ptr (next packed_state)) (size packed_array + 1)
                 (2 * capacity packed_array) 0)
    ∧ heap st1 !! next packed_state
      = Some (ValBuf (<[Z.to_nat 1 := Some (Int 9)]>
                        ([Some (Int 1); Some (Int 2)]
                         ++ replicate (length [Some (Int 1); Some (Int 2)]) None))).
Proof.
  apply (array_insert_growth_no_shift packed_state packed_array 1 (Int 9)
           1%positive [Some (Int 1); Some (Int 2)]);
    try reflexivity; cbn; lia.
Defined.

(** ** [numlit] yields no value *)

(** C5, at every use of the name, [numlit(10)] among them: the association
    list of the macro begins [int , float ,], two items without a colon and
    without a result expression, which no generic association may be (C11
    6.5.1.1). So [numlit(x)] is not an expression, whatever the static type
    of [x]: there is no value, of kind Int or of any other kind. The
    definition [DynamicValue numlit(double value)] at line 574 comes after
    the macro, so its header is a use of the macro too and is rejected with
    it. *)
Theorem numlit_is_rejected (a : macro_argument) :
  numlit a = Rejected
  ∧ ∀ (t : integer_type) (z : Z) (v : DynamicValue),
      numlit (Expression (IntegerArg t z)) ≠ Translated (Ok v).
Proof.
  split.
  - destruct a as [x|]; [|reflexivity]. unfold numlit, generic_selection.
    reflexivity.
  - intros t z v. unfold numlit, generic_selection. discriminate.
Qed.

(** ** Placeholders of [string_format] *)

(** C4, at the input of the claim: the first loop leaves [arg_count = 1],
    the second loop never copies an argument for a [{N}] placeholder, and
    [{1}] reads [arg_values[1]] in a buffer of one element. No run returns
    the text ["20 then 10"]. *)
Theorem format_explicit_index_out_of_bounds :
  count_pass "{1} then {0}" [Int 10; Int 20] 0 0 = Ok (1, 262)
  ∧ (∀ fuel ok_args st,
       string_format fuel true ok_args "{1} then {0}" [Int 10; Int 20] st = Undefined)
  ∧ (∀ fuel ok_out ok_args st,
       string_format_text fuel ok_out ok_args "{1} then {0}" [Int 10; Int 20] st
       ≠ Ok (Some "20 then 10"%string)).
Proof.
  assert (Hundef : ∀ fuel ok_args st,
    string_format fuel true ok_args "{1} then {0}" [Int 10; Int 20] st = Undefined).
  { intros fuel [] st; reflexivity. }
  split; [reflexivity | split; [exact Hundef |]].
  intros fuel [] ok_args st; unfold string_format_text.
  - rewrite Hundef. discriminate.
  - discriminate.
Qed.

(** C8, at two templates with the arguments [(Int 7, Int 8)]: a brace and a
    digit always make a placeholder of exactly three characters. ["{0x"],
    which has no closing brace, is replaced by argument 0 instead of being
    copied, and of ["{00}"] only ["{00"] is consumed, the closing brace being
    copied as text. Brace content that does not start with a digit, and a
    brace that ends the template, are copied. *)
Theorem format_placeholder_is_three_characters :
  string_format_text 1 true true "{}{0x" [Int 7; Int 8] initial_state
  = Ok (Some "77"%string)
  ∧ string_format_text 1 true true "{}{00}" [Int 7; Int 8] initial_state
    = Ok (Some "77}"%string)
  ∧ string_format_text 1 true true "a{b}c{" [] initial_state
    = Ok (Some "a{b}c{"%string).
Proof. repeat split; vm_compute; reflexivity. Qed.

Lemma literal_only_inv (c : ascii) (rest : string) :
  literal_only (String c rest) = true →
  is_nul c = false ∧ literal_only rest = true
  ∧ match rest with
    | String d _ =>
        Ascii.eqb c "{" && negb (is_nul d) = true →
        Ascii.eqb d "}" = false ∧ isdigit d = false
    | EmptyString => True
    end.
Proof.
  cbn [literal_only]. intros H.
  apply andb_prop in H as [H Hrest]. apply andb_prop in H as [Hc Hd].
  apply negb_true_iff in Hc. split_and!; try done.
  destruct rest as [|d rest]; [done|].
  intros Hbrace. rewrite Hbrace in Hd. cbn [andb] in Hd.
  apply negb_true_iff, orb_false_elim in Hd. done.
Qed.

Lemma c_str_literal (s : string) : literal_only s = true → c_str s = s.
Proof.
  induction s as [|c rest IH]; [done|]. intros H.
  apply literal_only_inv in H as (Hc & Hrest & _).
  cbn [c_str]. rewrite Hc. f_equal. by apply IH.
Qed.

Lemma count_pass_literal (s : string) :
  ∀ k : Z,
    literal_only s = true → 0 ≤ k → k + Z.of_nat (String.length s) < 2 ^ 64 →
    count_pass s [] 0 k = Ok (0, k + Z.of_nat (String.length s)).
Proof.
  induction s as [|c rest IH]; intros k H Hk Hlen.
  - cbn. do 2 f_equal. lia.
  - apply literal_only_inv in H as (Hc & Hrest & Hd).
    cbn [count_pass String.length] in Hlen |- *. rewrite Hc.
    assert (Hlit : count_pass rest [] 0 (to_size_t (k + 1))
                   = Ok (0, k + Z.of_nat (S (String.length rest)))).
    { rewrite to_size_t_small by lia. rewrite IH by (done || lia).
      do 2 f_equal. lia. }
    destruct rest as [|d rest']; [done|].
    destruct (Ascii.eqb c "{" && negb (is_nul d)); [|done].
    destruct (Hd eq_refl) as [-> ->]. done.
Qed.

Lemma string_length_append (s1 s2 : string) :
  String.length (String.append s1 s2) = (String.length s1 + String.length s2)%nat.
Proof.
  induction s1 as [|c s1 IH]; [done|].
  simpl. by rewrite IH.
Qed.

Lemma string_append_empty_r (s : string) : String.append s EmptyString = s.
Proof.
  induction s as [|c s IH]; [done|].
  change (String c (String.append s EmptyString) = String c s). by rewrite IH.
Qed.

Lemma string_append_assoc (s1 s2 s3 : string) :
  String.append (String.append s1 s2) s3 = String.append s1 (String.append s2 s3).
Proof.
  induction s1 as [|c s1 IH]; [done|].
  change (String c (String.append (String.append s1 s2) s3)
          = String c (String.append s1 (String.append s2 s3))).
  by rewrite IH.
Qed.

Lemma format_pass_literal (cap : Z) (st : state) (s : string) :
  ∀ out : string,
    literal_only s = true →
    Z.of_nat (String.length out) + Z.of_nat (String.length s) + 1 ≤ cap →
    format_pass cap 0 st s [] [] 0 out = Ok (Some (String.append out s, [])).
Proof.
  induction s as [|c rest IH]; intros out H Hcap.
  - cbn [format_pass]. by rewrite string_append_empty_r.
  - apply literal_only_inv in H as (Hc & Hrest & Hd).
    cbn [format_pass String.length] in Hcap |- *. rewrite Hc.
    assert (Hlit : (out1 ← emit cap (String c EmptyString) out;
                    format_pass cap 0 st rest [] [] 0 out1)
                   = Ok (Some (String.append out (String c rest), []))).
    { unfold emit. cbn [String.length].
      destruct (Z.leb_spec (Z.of_nat (String.length out) + Z.of_nat 1 + 1) cap)
        as [_|?]; [|lia].
      rewrite bind_Ok, IH; [|done|].
      - by rewrite string_append_assoc.
      - rewrite string_length_append. cbn [String.length]. lia. }
    destruct rest as [|d rest']; [done|].
    destruct (Ascii.eqb c "{" && negb (is_nul d)); [|done].
    destruct (Hd eq_refl) as [-> ->]. done.
Qed.

(** X20: [string_format] on a template without placeholders returns the
    template unchanged: brace content that does not start with a digit, and
    a brace that ends the template, are copied as text. *)
Theorem format_copies_literal_text (fuel : nat) (ok_args : bool) (s : string)
  (st : state) :
  literal_only s = true → Z.of_nat (String.length s) + 1 < 2 ^ 64 →
  string_format_text fuel true ok_args s [] st = Ok (Some s).
Proof.
  intros Hlit Hlen. unfold string_format_text, string_format.
  rewrite count_pass_literal by (done || lia).
  cbn [mbind outcome_bind]. rewrite Z.add_0_l, to_size_t_small by lia.
  unfold fresh_block, alloc_arg_values. cbn [Z.eqb mbind outcome_bind].
  rewrite format_pass_literal by (done || cbn; lia).
  change (String.append EmptyString s) with s.
  unfold emit. cbn [String.length mbind outcome_bind].
  destruct (Z.leb_spec (Z.of_nat (String.length s) + Z.of_nat 0 + 1)
              (Z.of_nat (String.length s) + 1)) as [_|?]; [|lia].
  cbn [free_arg_values mbind outcome_bind heap].
  rewrite lookup_insert_eq.
  unfold load_str, set_heap. cbn [heap mbind outcome_bind].
  rewrite lookup_insert_eq.
  rewrite string_append_empty_r, c_str_literal by done. reflexivity.
Qed.

Lemma format_copies_literal_text_witness :
  string_format_text 0 true true "a{b}c{" [] initial_state
  = Ok (Some "a{b}c{"%string).
Proof.
  apply (format_copies_literal_text 0 true "a{b}c{" initial_state); reflexivity.
Defined.

(** An explicit index does work as a reference back to an argument that an
    earlier ["{}"] consumed. *)
Example format_back_reference :
  string_format_text 1 true true "{}{}{1}" [Int 7; Int 8; Int 9] initial_state
  = Ok (Some "788"%string).
Proof. vm_compute; reflexivity. Qed.

(** ** Line termination in [print] *)

Lemma print_failed_argument (fuel : nat) (rest : string)
  (args : list DynamicValue) (val : DynamicValue) (st : state) :
  verror val ≠ 0 →
  print fuel (String "{" (String "}" rest)) (val :: args) st
  = Ok (printf (fmt_error (eass_get_last_error st)) st).
Proof.
  intros Herr. apply Z.eqb_neq in Herr. cbn [print]. rewrite Herr. reflexivity.
Qed.

(** A placeholder whose argument is sound: the value is rendered and
    released, and only then does the scan go on. *)
Lemma print_placeholder (fuel : nat) (rest : string)
  (args : list DynamicValue) (val : DynamicValue) (st : state) :
  verror val = 0 →
  print fuel (String "{" (String "}" rest)) (val :: args) st
  = (st1 ← print_value st val;
     '(st2, _) ← free_dynamic_value fuel st1 val;
     print fuel rest args st2).
Proof. intros Herr. cbn [print]. rewrite Herr. reflexivity. Qed.

(** C9, at the value a rejected [array_get] returns: [print] writes the
    text before the placeholder and the error description and returns; the
    output does not end with a newline, and the placeholder after it is not
    looked at. *)
Theorem print_failed_argument_no_newline :
  ('(st, v) ← array_get initial_state empty_array.2 0;
   match v with
   | Some val => st' ← print 1 "got {} and {}" [val; Int 3] st; Ok (val, stdout st')
   | None => Undefined
   end)
  = Ok (invalid_value, "got Error: 22 - Index out of bounds in array_get"%string).
Proof. vm_compute; reflexivity. Qed.

(** A call in which no argument has [error] set does end its line. *)
Lemma print_line_terminated (fuel : nat) (n : nat) :
  ∀ (format : string) (args : list DynamicValue) (st st' : state),
    (String.length format ≤ n)%nat →
    Forall (λ val, verror val = 0) args →
    print fuel format args st = Ok st' →
    ends_with_newline (stdout st').
Proof.
  induction n as [|n IH]; intros format args st st' Hlen Hargs Hrun.
  - destruct format; [|simpl in Hlen; lia].
    injection Hrun as <-. by eexists.
  - destruct format as [|c rest]; [injection Hrun as <-; by eexists|].
    cbn [print] in Hrun. cbn [String.length] in Hlen.
    destruct (is_nul c); [injection Hrun as <-; by eexists|].
    assert (Hliteral : ∀ st1,
      print fuel rest args (printf (String c EmptyString) st) = Ok st1 →
      ends_with_newline (stdout st1)).
    { intros st1 H1. eapply (IH rest args); eauto. lia. }
    destruct rest as [|d rest']; [by apply Hliteral|].
    destruct (Ascii.eqb c "{" && Ascii.eqb d "}"); [|by apply Hliteral].
    destruct args as [|val args']; [done|].
    apply Forall_cons in Hargs as [Hval Hargs]. rewrite Hval in Hrun.
    cbn [Z.eqb negb] in Hrun.
    apply bind_Ok_inv in Hrun as (st1 & _ & Hrun).
    apply bind_Ok_inv in Hrun as ([st2 val'] & _ & Hrun).
    cbn [String.length] in Hlen. eapply (IH rest' args'); eauto. lia.
Qed.

(** ** Ownership of the arguments of [print] *)

Lemma store_heap (st : state) (a : addr) (i : Z) (s : slot) (st' : state) :
  store st (Ptr a) i s = Ok st' →
  ∃ l, heap st !! a = Some (ValBuf l)
       ∧ heap st' = <[a := ValBuf (<[Z.to_nat i := s]> l)]> (heap st).
Proof.
  unfold store. destruct (heap st !! a) as [[|l]|]; [done| |done].
  destruct (_ && _); [|done]. intros [= <-]. by exists l.
Qed.

Lemma free_heap (st : state) (p : ptr) (st' : state) :
  free p st = Ok st' →
  match p with
  | NULL => st' = st
  | Ptr a => is_Some (heap st !! a) ∧ heap st' = delete a (heap st)
  end.
Proof.
  unfold free. destruct p as [|a]; [by intros [= <-]|].
  destruct (heap st !! a) eqn:Ha; [|done]. intros [= <-]. by split.
Qed.

Lemma free_elements_shrinks free_value (n : nat) :
  shrinks free_value →
  ∀ (i : Z) (a : addr) (st st' : state),
    free_elements free_value n i (Ptr a) st = Ok st' →
    delete a (heap st') ⊆ delete a (heap st).
Proof.
  intros Hfv. induction n as [|n IH]; intros i a st st' Hrun.
  - by injection Hrun as <-.
  - cbn [free_elements] in Hrun.
    apply bind_Ok_inv in Hrun as ([v|] & _ & Hrun); [|done].
    apply bind_Ok_inv in Hrun as ([st1 v1] & Hfree & Hrun).
    apply bind_Ok_inv in Hrun as (st2 & Hstore & Hrun).
    apply Hfv in Hfree. apply store_heap in Hstore as (l & _ & Hst2).
    apply IH in Hrun. etrans; [exact Hrun|].
    rewrite Hst2, delete_insert_eq. by apply delete_mono.
Qed.

Lemma free_dynamic_array_with_shrinks free_value :
  shrinks free_value →
  ∀ st arr st' arr',
    free_dynamic_array_with free_value st arr = Ok (st', arr') →
    heap st' ⊆ heap st
    ∧ ∀ a, data arr = Ptr a → heap st' !! a = None.
Proof.
  intros Hfv st arr st' arr' Hrun. unfold free_dynamic_array_with in Hrun.
  apply bind_Ok_inv in Hrun as (st1 & Hloop & Hrun).
  apply bind_Ok_inv in Hrun as (st2 & Hfree & [= <- <-]).
  apply free_heap in Hfree.
  destruct (data arr) as [|a] eqn:Hdata.
  - subst st2. split; [|done].
    destruct (Z.to_nat (size arr)); [by injection Hloop as <-|].
    done.
  - destruct Hfree as [_ Hst2]. rewrite Hst2.
    apply free_elements_shrinks in Hloop; [|done]. split.
    + etrans; [exact Hloop | apply delete_subseteq].
    + intros a' [= <-]. apply lookup_delete_eq.
Qed.

Lemma free_dynamic_value_shrinks (fuel : nat) : shrinks (free_dynamic_value fuel).
Proof.
  induction fuel as [|fuel IH]; intros st val st' val' Hrun; [done|].
  cbn [free_dynamic_value] in Hrun.
  destruct (type val); try (by injection Hrun as <- <-).
  - destruct (value val) as [| |s|]; try done.
    apply bind_Ok_inv in Hrun as (st1 & Hfree & [= <- <-]).
    apply free_heap in Hfree. destruct s as [|a]; [by subst|].
    destruct Hfree as [_ ->]. apply delete_subseteq.
  - destruct (value val) as [| | |arr]; try done.
    apply bind_Ok_inv in Hrun as ([st1 arr1] & Hfree & [= <- <-]).
    by apply (free_dynamic_array_with_shrinks _ IH) in Hfree as [? _].
Qed.

Lemma free_dynamic_value_releases (fuel : nat) (st : state) (val : DynamicValue)
  (st' : state) (val' : DynamicValue) :
  free_dynamic_value fuel st val = Ok (st', val') → released st' val.
Proof.
  destruct fuel as [|fuel]; [done|]. cbn [free_dynamic_value].
  unfold released, owned_block. intros Hrun a Hown.
  destruct (type val); try done.
  - destruct (value val) as [| |s|]; try done. subst s.
    apply bind_Ok_inv in Hrun as (st1 & Hfree & [= <- <-]).
    apply free_heap in Hfree as [_ ->]. apply lookup_delete_eq.
  - destruct (value val) as [| | |arr]; try done.
    apply bind_Ok_inv in Hrun as ([st1 arr1] & Hfree & [= <- <-]).
    apply (free_dynamic_array_with_shrinks _ (free_dynamic_value_shrinks fuel))
      in Hfree as [_ Hgone].
    by apply Hgone.
Qed.

Lemma print_elements_heap (n : nat) :
  ∀ (i : Z) (a : DynamicArray) (st st' : state),
    print_elements n i a st = Ok st' → heap st' = heap st.
Proof.
  induction n as [|n IH]; intros i a st st' Hrun.
  - by injection Hrun as <-.
  - cbn [print_elements] in Hrun.
    apply bind_Ok_inv in Hrun as ([elem|] & _ & Hrun); [|done].
    apply bind_Ok_inv in Hrun as (text & _ & Hrun).
    apply IH in Hrun. rewrite Hrun. by destruct (_ <? _).
Qed.

Lemma print_value_heap (st : state) (val : DynamicValue) (st' : state) :
  print_value st val = Ok st' → heap st' = heap st.
Proof.
  unfold print_value. intros Hrun.
  destruct (type val);
    try (apply bind_Ok_inv in Hrun as (text & _ & [= <-]); done).
  - destruct (value val) as [| | |a]; try done.
    apply bind_Ok_inv in Hrun as (st1 & Hloop & [= <-]).
    by apply print_elements_heap in Hloop.
  - by injection Hrun as <-.
Qed.

Lemma released_weaken (st st' : state) (val : DynamicValue) :
  heap st' ⊆ heap st → released st val → released st' val.
Proof.
  intros Hsub Hrel a Ha. eapply lookup_weaken_None; [by apply Hrel | done].
Qed.

Lemma print_shrinks_and_releases (fuel : nat) (n : nat) :
  ∀ (format : string) (args : list DynamicValue) (st st' : state),
    (String.length format ≤ n)%nat →
    print fuel format args st = Ok st' →
    heap st' ⊆ heap st
    ∧ ∀ val, In val (consumed format args) → released st' val.
Proof.
  induction n as [|n IH]; intros format args st st' Hlen Hrun.
  - destruct format; [|simpl in Hlen; lia].
    injection Hrun as <-. by split.
  - destruct format as [|c rest]; [injection Hrun as <-; by split|].
    cbn [print consumed] in Hrun |- *. cbn [String.length] in Hlen.
    destruct (is_nul c); [injection Hrun as <-; by split|].
    assert (Hliteral : ∀ st1,
      print fuel rest args (printf (String c EmptyString) st) = Ok st1 →
      heap st1 ⊆ heap st
      ∧ ∀ val, In val (consumed rest args) → released st1 val).
    { intros st1 H1. apply IH in H1; [done | lia]. }
    destruct rest as [|d rest']; [by apply Hliteral|].
    destruct (Ascii.eqb c "{" && Ascii.eqb d "}"); [|by apply Hliteral].
    destruct args as [|val args']; [done|].
    destruct (negb (verror val =? 0)); [injection Hrun as <-; by split|].
    apply bind_Ok_inv in Hrun as (st1 & Hprint & Hrun).
    apply bind_Ok_inv in Hrun as ([st2 val'] & Hfree & Hrun).
    apply print_value_heap in Hprint.
    pose proof (free_dynamic_value_shrinks _ _ _ _ _ Hfree) as Hsub.
    apply free_dynamic_value_releases in Hfree.
    cbn [String.length] in Hlen.
    apply IH in Hrun as [Hsub' Hrel]; [|lia]. split.
    + etrans; [exact Hsub'|]. by rewrite <- Hprint.
    + intros v [<-|Hin]; [|by apply Hrel].
      by apply (released_weaken st2).
Qed.

Lemma load_heap (st : state) (a : addr) (i : Z) (s : slot) :
  load st (Ptr a) i = Ok s →
  ∃ l, heap st !! a = Some (ValBuf l) ∧ 0 ≤ i ∧ l !! Z.to_nat i = Some s.
Proof.
  unfold load. destruct (heap st !! a) as [[|l]|]; [done| |done].
  destruct (Z.leb_spec 0 i); [|done].
  destruct (l !! Z.to_nat i) eqn:Hl; [|done]. intros [= <-]. by exists l.
Qed.

Lemma free_elements_element free_value (n : nat) :
  shrinks free_value →
  ∀ (i0 : Z) (a : addr) (st st1 : state) (l : list slot) (i : Z) (elem : DynamicValue),
    free_elements free_value n i0 (Ptr a) st = Ok st1 →
    heap st !! a = Some (ValBuf l) →
    0 ≤ i0 ≤ i → i < i0 + Z.of_nat n →
    l !! Z.to_nat i = Some (Some elem) →
    ∃ sta stb elem',
      free_value sta elem = Ok (stb, elem')
      ∧ delete a (heap sta) ⊆ delete a (heap st)
      ∧ is_Some (heap stb !! a)
      ∧ delete a (heap st1) ⊆ delete a (heap stb).
Proof.
  intros Hfv. induction n as [|n IH]; intros i0 a st st1 l i elem Hrun Hl Hi0 Hi Helem;
    [lia|].
  cbn [free_elements] in Hrun.
  apply bind_Ok_inv in Hrun as ([v|] & Hload & Hrun); [|done].
  apply bind_Ok_inv in Hrun as ([stb v1] & Hfree & Hrun).
  apply bind_Ok_inv in Hrun as (st2 & Hstore & Hrun).
  apply load_heap in Hload as (l' & Hl' & _ & Hv).
  rewrite Hl in Hl'. injection Hl' as <-.
  pose proof (Hfv _ _ _ _ Hfree) as Hsub.
  apply store_heap in Hstore as (lb & Hlb & Hst2).
  destruct (Z.eq_dec i i0) as [->|Hne].
  - rewrite Helem in Hv. injection Hv as <-.
    exists st, stb, v1. split_and!; [done | done | by rewrite Hlb |].
    apply free_elements_shrinks in Hrun; [|done].
    by rewrite Hst2, delete_insert_eq in Hrun.
  - pose proof (lookup_weaken _ _ _ _ Hlb Hsub) as Hsame.
    rewrite Hl in Hsame. injection Hsame as <-.
    destruct (IH (i0 + 1) a st2 st1 (<[Z.to_nat i0 := Some v1]> l) i elem)
      as (sta & stb' & elem' & Hcall & Hsuba & Halive & Hsubb);
      [done | by rewrite Hst2, lookup_insert_eq | lia | lia | |].
    { rewrite list_lookup_insert_ne by lia. done. }
    exists sta, stb', elem'. split_and!; try done.
    etrans; [exact Hsuba|]. rewrite Hst2, delete_insert_eq. by apply delete_mono.
Qed.

Lemma free_dynamic_value_releases_owned (fuel : nat) :
  ∀ (st : state) (val : DynamicValue) (st' : state) (val' : DynamicValue)
    (h : gmap addr block) (bad : addr → Prop) (b : addr),
    free_dynamic_value fuel st val = Ok (st', val') →
    owns h val b →
    (∀ x y, h !! x = Some y → heap st !! x = Some y ∨ heap st !! x = None ∨ bad x) →
    heap st' !! b = None ∨ ∃ x, bad x ∧ heap st' !! x = None.
Proof.
  induction fuel as [|fuel IH]; intros st val st' val' h bad b Hrun Hown Hagree;
    [done|].
  destruct Hown as [val b Hb | val arr a l i elem b Htype Hvalue Hdata Hl Hi Helem Hown].
  { left. by apply (free_dynamic_value_releases _ _ _ _ _ Hrun). }
  cbn [free_dynamic_value] in Hrun. rewrite Htype, Hvalue in Hrun.
  apply bind_Ok_inv in Hrun as ([st2 arr1] & Hrun & [= <- <-]).
  unfold free_dynamic_array_with in Hrun. rewrite Hdata in Hrun.
  apply bind_Ok_inv in Hrun as (st1 & Hloop & Hrun).
  apply bind_Ok_inv in Hrun as (st2' & Hfree & [= <- <-]).
  apply free_heap in Hfree as [_ Hst2]. rewrite Hst2.
  destruct (Hagree _ _ Hl) as [Hlive | [Hdead | Hbad]].
  - destruct (free_elements_element _ _ (free_dynamic_value_shrinks fuel)
                0 a st st1 l i elem Hloop Hlive)
      as (sta & stb & elem' & Hcall & Hsuba & Halive & Hsubb); [lia | lia | done |].
    destruct (IH sta elem stb elem' h (λ x, bad x ∨ x = a) b Hcall Hown)
      as [Hgone | (x & [Hx | ->] & Hgone)].
    + intros x y Hx. destruct (decide (x = a)) as [->|Hne]; [by right; right; right|].
      destruct (Hagree _ _ Hx) as [Hxl | [Hxd | Hxb]].
      * destruct (heap sta !! x) as [y'|] eqn:Hsta; [|by right; left].
        left. f_equal.
        assert (Hy' : heap st !! x = Some y').
        { eapply lookup_weaken in Hsuba; [|by rewrite lookup_delete_ne, Hsta].
          by rewrite lookup_delete_ne in Hsuba. }
        congruence.
      * right; left.
        destruct (heap sta !! x) as [y'|] eqn:Hsta; [|done].
        eapply lookup_weaken in Hsuba; [|by rewrite lookup_delete_ne, Hsta].
        rewrite lookup_delete_ne in Hsuba by done. congruence.
      * by right; right; left.
    + left. destruct (decide (b = a)) as [->|Hne]; [apply lookup_delete_eq|].
      rewrite lookup_delete_ne by done.
      eapply lookup_weaken_None in Hsubb; [|by rewrite lookup_delete_ne, Hgone].
      by rewrite lookup_delete_ne in Hsubb.
    + right. exists x. split; [done|].
      destruct (decide (x = a)) as [->|Hne]; [apply lookup_delete_eq|].
      rewrite lookup_delete_ne by done.
      eapply lookup_weaken_None in Hsubb; [|by rewrite lookup_delete_ne, Hgone].
      by rewrite lookup_delete_ne in Hsubb.
    + rewrite Hgone in Halive. by destruct Halive.
  - destruct (Z.to_nat (size arr)) as [|n] eqn:Hn; [lia|].
    cbn [free_elements] in Hloop. unfold load in Hloop. by rewrite Hdead in Hloop.
  - right. exists a. split; [done | apply lookup_delete_eq].
Qed.

Lemma print_releases_owned (fuel : nat) (n : nat) :
  ∀ (format : string) (args : list DynamicValue) (st st' : state)
    (h : gmap addr block),
    (String.length format ≤ n)%nat →
    print fuel format args st = Ok st' →
    heap st ⊆ h →
    ∀ val b, In val (consumed format args) → owns h val b → heap st' !! b = None.
Proof.
  induction n as [|n IH]; intros format args st st' h Hlen Hrun Hsub val b Hin Hown.
  - destruct format; [done | simpl in Hlen; lia].
  - destruct format as [|c rest]; [done|].
    cbn [print consumed] in Hrun, Hin. cbn [String.length] in Hlen.
    destruct (is_nul c); [done|].
    assert (Hliteral : ∀ st1,
      print fuel rest args (printf (String c EmptyString) st) = Ok st1 →
      In val (consumed rest args) → heap st1 !! b = None).
    { intros st1 H1 Hin1. eapply (IH rest args _ st1 h); eauto. lia. }
    destruct rest as [|d rest']; [by apply Hliteral|].
    destruct (Ascii.eqb c "{" && Ascii.eqb d "}"); [|by apply Hliteral].
    destruct args as [|v args']; [done|].
    destruct (negb (verror v =? 0)); [done|].
    apply bind_Ok_inv in Hrun as (st1 & Hprint & Hrun).
    apply bind_Ok_inv in Hrun as ([st2 v'] & Hfree & Hrun).
    apply print_value_heap in Hprint.
    pose proof (free_dynamic_value_shrinks _ _ _ _ _ Hfree) as Hsub2.
    cbn [String.length] in Hlen.
    destruct Hin as [<-|Hin].
    + destruct (free_dynamic_value_releases_owned fuel st1 v st2 v' h (λ _, False) b
                  Hfree Hown) as [Hgone | (x & [] & _)].
      * intros x y Hx. rewrite Hprint.
        destruct (heap st !! x) as [y'|] eqn:Hst; [|by right; left].
        left. f_equal. eapply lookup_weaken in Hsub; [|exact Hst]. congruence.
      * destruct (print_shrinks_and_releases fuel n rest' args' st2 st'
                    ltac:(lia) Hrun) as [Hsub' _].
        by eapply lookup_weaken_None.
    + eapply (IH rest' args' st2 st' h); eauto; [lia|].
      etrans; [exact Hsub2|]. by rewrite Hprint.
Qed.

Lemma bind_not_OutOfFuel {A B : Type} (m : outcome A) (f : A → outcome B) :
  m ≫= f ≠ OutOfFuel → m ≠ OutOfFuel.
Proof. by destruct m. Qed.

Lemma free_elements_refines f g (n : nat) :
  refines f g →
  ∀ (i : Z) (p : ptr) (st : state),
    free_elements f n i p st ≠ OutOfFuel →
    free_elements g n i p st = free_elements f n i p st.
Proof.
  intros Hfg. induction n as [|n IH]; intros i p st Hrun; [done|].
  cbn [free_elements] in Hrun |- *.
  destruct (load st p i) as [[v|]| |]; try done.
  cbn [mbind outcome_bind] in Hrun |- *.
  rewrite (Hfg st v) by by apply bind_not_OutOfFuel in Hrun.
  destruct (f st v) as [[st1 v1]| |]; try done.
  cbn [mbind outcome_bind] in Hrun |- *.
  destruct (store st1 p i (Some v1)) as [st2| |]; try done.
  cbn [mbind outcome_bind] in Hrun |- *. by apply IH.
Qed.

(** More fuel never changes a result that was reached. *)
Lemma free_dynamic_value_more_fuel (fuel : nat) :
  refines (free_dynamic_value fuel) (free_dynamic_value (S fuel)).
Proof.
  induction fuel as [|fuel IH]; intros st val Hrun; [done|].
  cbn [free_dynamic_value] in Hrun |- *.
  destruct (type val); try done.
  destruct (value val) as [| | |arr]; try done.
  unfold free_dynamic_array_with in Hrun |- *.
  rewrite (free_elements_refines _ _ _ IH); [done|].
  by do 2 apply bind_not_OutOfFuel in Hrun.
Qed.

Lemma print_more_fuel (fuel : nat) (n : nat) :
  ∀ (format : string) (args : list DynamicValue) (st : state),
    (String.length format ≤ n)%nat →
    print fuel format args st ≠ OutOfFuel →
    print (S fuel) format args st = print fuel format args st.
Proof.
  induction n as [|n IH]; intros format args st Hlen Hrun.
  - by destruct format; [|simpl in Hlen; lia].
  - destruct format as [|c rest]; [done|].
    cbn [print] in Hrun |- *. cbn [String.length] in Hlen.
    destruct (is_nul c); [done|].
    destruct rest as [|d rest']; [apply IH; [lia | done]|].
    destruct (Ascii.eqb c "{" && Ascii.eqb d "}"); [|apply IH; [lia | done]].
    destruct args as [|val args']; [done|].
    destruct (negb (verror val =? 0)); [done|].
    destruct (print_value st val) as [st1| |]; try done.
    cbn [mbind outcome_bind] in Hrun |- *.
    rewrite (free_dynamic_value_more_fuel fuel st1 val)
      by by apply bind_not_OutOfFuel in Hrun.
    destruct (free_dynamic_value fuel st1 val) as [[st2 val']| |]; try done.
    cbn [mbind outcome_bind] in Hrun |- *. cbn [String.length] in Hlen.
    apply IH; [lia | done].
Qed.

(** When [print] returns, the heap has only lost blocks; every block
    reached from an argument that was consumed by a ["{}"] and rendered (the
    text of a string, the buffer of an array and, through its elements,
    whatever they reach) is no longer live; and an array from which such an
    argument was copied by [array_get] still returns the same value, whose
    blocks are gone, unless its own buffer went with them. *)
Lemma print_ownership_on_return (fuel : nat) (format : string)
  (args : list DynamicValue) (st st' : state) :
  print fuel format args st = Ok st' →
  heap st' ⊆ heap st
  ∧ (∀ val b, In val (consumed format args) → owns (heap st) val b →
              heap st' !! b = None)
  ∧ (∀ arr index val a,
       error arr = 0 → index < size arr → data arr = Ptr a →
       array_get st arr index = Ok (st, Some val) →
       heap st' !! a = None ∨ array_get st' arr index = Ok (st', Some val)).
Proof.
  intros Hrun. split_and!.
  - by apply (print_shrinks_and_releases fuel (String.length format) format args).
  - intros val b Hin Hown.
    by apply (print_releases_owned fuel (String.length format) format args st st'
                (heap st)) with val.
  - intros arr index val a Herr Hidx Hdata Hget.
    destruct (heap st' !! a) as [blk|] eqn:Hblk; [right | by left].
    assert (Hsub : heap st' ⊆ heap st)
      by by apply (print_shrinks_and_releases fuel (String.length format) format args).
    pose proof (lookup_weaken _ _ _ _ Hblk Hsub) as Hst.
    unfold array_get in Hget |- *. rewrite Herr in Hget |- *. cbn [Z.eqb negb] in Hget |- *.
    destruct (Z.leb_spec (size arr) index) as [?|_]; [lia|].
    apply bind_Ok_inv in Hget as (s & Hload & [= ->]).
    rewrite Hdata in Hload |- *. unfold load in Hload |- *.
    rewrite Hst in Hload. rewrite Hblk.
    destruct blk as [|l]; [done|]. destruct (0 <=? index); [|done].
    by destruct (l !! Z.to_nat index) as [s|]; [injection Hload as ->|].
Qed.

(** *** Sound arguments *)

Lemma lookup_remove_blocks (dom : gset addr) (h : gmap addr block) (x : addr) :
  remove_blocks dom h !! x = if decide (x ∈ dom) then None else h !! x.
Proof.
  unfold remove_blocks. case_decide as Hx.
  - apply map_lookup_filter_None_2. right. intros y _ Hy. by apply Hy.
  - destruct (h !! x) as [y|] eqn:Hy.
    + by apply map_lookup_filter_Some_2.
    + apply map_lookup_filter_None_2. by left.
Qed.

Lemma remove_blocks_empty (h : gmap addr block) : remove_blocks ∅ h = h.
Proof.
  apply map_eq. intros x. rewrite lookup_remove_blocks.
  by rewrite decide_False by set_solver.
Qed.

Lemma remove_blocks_singleton (a : addr) (h : gmap addr block) :
  remove_blocks {[a]} h = delete a h.
Proof.
  apply map_eq. intros x. rewrite lookup_remove_blocks.
  destruct (decide (x = a)) as [->|Hne].
  - rewrite decide_True by set_solver. by rewrite lookup_delete_eq.
  - rewrite decide_False by set_solver. by rewrite lookup_delete_ne.
Qed.

Lemma remove_blocks_union (d1 d2 : gset addr) (h : gmap addr block) :
  remove_blocks d2 (remove_blocks d1 h) = remove_blocks (d1 ∪ d2) h.
Proof.
  apply map_eq. intros x. rewrite !lookup_remove_blocks.
  destruct (decide (x ∈ d1)), (decide (x ∈ d2)).
  - by rewrite decide_True by (apply elem_of_union; auto).
  - by rewrite decide_True by (apply elem_of_union; auto).
  - by rewrite decide_True by (apply elem_of_union; auto).
  - rewrite decide_False; [done|]. intros [?|?]%elem_of_union; done.
Qed.

Lemma remove_blocks_subseteq (dom : gset addr) (h : gmap addr block) :
  remove_blocks dom h ⊆ h.
Proof. apply map_filter_subseteq. Qed.

Lemma set_heap_id (st : state) : set_heap (heap st) st = st.
Proof. by destruct st. Qed.

Lemma sound_mono (depth : nat) :
  ∀ h val dom, sound depth h val dom → sound (S depth) h val dom.
Proof.
  induction depth as [|depth IH]; intros h val dom H; [done|].
  cbn [sound] in H |- *.
  destruct (type val), (value val) as [| | |arr]; try done.
  destruct (data arr) as [|a]; [done|].
  destruct H as (l & elems & doms & Hl & Hsize & Htake & Hlen & Hall & Hrest).
  exists l, elems, doms. split_and!; try done; try apply Hrest.
  eapply Forall2_impl; [exact Hall|]. intros x y. apply IH.
Qed.

Lemma sound_le (depth depth' : nat) h val dom :
  (depth ≤ depth')%nat → sound depth h val dom → sound depth' h val dom.
Proof.
  induction 1 as [|depth' _ IH]; [done|]. intros H. by apply sound_mono, IH.
Qed.

(** Soundness looks at the footprint only. *)
Lemma sound_frame (depth : nat) :
  ∀ h h' val dom,
    sound depth h val dom → (∀ x, x ∈ dom → h' !! x = h !! x) →
    sound depth h' val dom.
Proof.
  induction depth as [|depth IH]; intros h h' val dom H Hsame; [done|].
  cbn [sound] in H |- *.
  destruct (type val), (value val) as [| |[|a]|arr]; try done.
  - destruct H as [[s Hs] ->]. split; [|done]. exists s.
    rewrite Hsame by set_solver. done.
  - destruct (data arr) as [|a]; [done|].
    destruct H as (l & elems & doms & Hl & Hsize & Htake & Hlen & Hall & Hsep & Ha & ->).
    exists l, elems, doms. split_and!; try done.
    { rewrite Hsame by set_solver. done. }
    apply Forall2_same_length_lookup. split; [by eapply Forall2_length|].
    intros i x y Hx Hy. apply (IH h); [by eapply Forall2_lookup_lr|].
    intros z Hz. apply Hsame. apply elem_of_union. right.
    apply elem_of_union_list. exists y. split; [|done]. by eapply list_elem_of_lookup_2.
Qed.

Lemma render_scalar_sound (depth : nat) (st : state) (val : DynamicValue)
  (dom : gset addr) :
  sound depth (heap st) val dom → ∃ text, render_scalar st val = Ok text.
Proof.
  destruct depth as [|depth]; [done|]. cbn [sound]. unfold render_scalar, load_str.
  destruct (type val), (value val) as [| |[|a]|arr]; try done; try by eexists.
  intros [[s ->] _]. by eexists.
Qed.

Lemma print_elements_sound (depth : nat) (arr : DynamicArray) (a : addr)
  (elems : list DynamicValue) :
  ∀ (doms : list (gset addr)) (i : Z) (st : state) (l : list slot),
    data arr = Ptr a → heap st !! a = Some (ValBuf l) → 0 ≤ i →
    (∀ (j : nat) elem, elems !! j = Some elem →
                       l !! (Z.to_nat i + j)%nat = Some (Some elem)) →
    Forall2 (sound depth (heap st)) elems doms →
    ∃ text, print_elements (length elems) i arr st = Ok (printf text st).
Proof.
  induction elems as [|elem elems IH]; intros doms i st l Hdata Ha Hi Hl Hall.
  - exists EmptyString. cbn [length print_elements]. unfold printf.
    rewrite string_append_empty_r. by destruct st.
  - apply Forall2_cons_inv_l in Hall as (dom & doms' & Helem & Hall & ->).
    cbn [length print_elements]. rewrite Hdata.
    rewrite (load_block st a l i (Some elem)), bind_Ok; [|done|done|].
    2: { rewrite <- (Hl 0%nat elem) by done. f_equal. lia. }
    destruct (render_scalar_sound _ _ _ _ Helem) as [text ->]. rewrite bind_Ok.
    set (st1 := if i <? to_size_t (size arr - 1)
                then printf ", " (printf text st) else printf text st).
    assert (Hst1 : ∃ text1, st1 = printf text1 st).
    { unfold st1. destruct (_ <? _); [|by eexists].
      exists (String.append text ", "). unfold printf.
      cbn [heap next eass_last_error stdout]. by rewrite string_append_assoc. }
    destruct Hst1 as [text1 Hst1].
    destruct (IH doms' (i + 1) st1 l) as [text2 Hrun]; try done; try lia.
    + by rewrite Hst1.
    + intros j e He. rewrite <- (Hl (S j) e) by done. f_equal. lia.
    + by rewrite Hst1.
    + exists (String.append text1 text2). rewrite Hrun, Hst1. unfold printf.
      cbn [heap next eass_last_error stdout]. by rewrite string_append_assoc.
Qed.

Lemma sound_elements (l : list slot) (n : nat) (elems : list DynamicValue) :
  take n l = Some <$> elems →
  ∀ (j : nat) elem, elems !! j = Some elem → l !! j = Some (Some elem).
Proof.
  intros Htake j elem Hj.
  assert (H : (Some <$> elems) !! j = Some (Some elem))
    by by rewrite list_lookup_fmap, Hj.
  rewrite <- Htake in H. rewrite lookup_take in H. by case_decide.
Qed.

Lemma print_value_sound (depth : nat) (st : state) (val : DynamicValue)
  (dom : gset addr) :
  sound depth (heap st) val dom → ∃ text, print_value st val = Ok (printf text st).
Proof.
  intros H. pose proof (render_scalar_sound _ _ _ _ H) as [text Htext].
  destruct depth as [|depth]; [done|]. cbn [sound] in H. unfold print_value.
  destruct (type val) eqn:Htype; try (rewrite Htext, bind_Ok; by eexists).
  - destruct (value val) as [| | |arr]; try done.
    destruct (data arr) as [|a] eqn:Hdata.
    + destruct H as [-> _]. change (Z.to_nat 0) with 0%nat.
      cbn [print_elements mbind outcome_bind].
      exists "Array[]"%string. unfold printf. cbn [heap next eass_last_error stdout].
      by rewrite string_append_assoc.
    + destruct H as (l & elems & doms & Hl & Hsize & Htake & Hlen & Hall & _).
      rewrite <- Hlen.
      destruct (print_elements_sound depth arr a elems doms 0 (printf "Array[" st) l)
        as [text1 Hrun]; try done.
      { intros j elem Hj. by apply (sound_elements l _ elems Htake). }
      rewrite Hrun, bind_Ok.
      exists (String.append "Array[" (String.append text1 "]")).
      unfold printf. cbn [heap next eass_last_error stdout].
      by rewrite !string_append_assoc.
  - by eexists.
Qed.

Lemma free_elements_sound (depth : nat)
  (free_value : state → DynamicValue → outcome (state * DynamicValue)) (a : addr) :
  (∀ st val dom, sound depth (heap st) val dom →
     ∃ val', free_value st val = Ok (set_heap (remove_blocks dom (heap st)) st, val')) →
  ∀ (elems : list DynamicValue) (doms : list (gset addr)) (i : Z) (st : state)
    (l : list slot),
    heap st !! a = Some (ValBuf l) → 0 ≤ i →
    (∀ (j : nat) elem, elems !! j = Some elem →
                       l !! (Z.to_nat i + j)%nat = Some (Some elem)) →
    Forall2 (sound depth (heap st)) elems doms → separate doms → a ∉ ⋃ doms →
    ∃ l', free_elements free_value (length elems) i (Ptr a) st
          = Ok (set_heap (<[a := ValBuf l']> (remove_blocks (⋃ doms) (heap st))) st).
Proof.
  intros Hfv. induction elems as [|elem elems IH];
    intros doms i st l Ha Hi Hl Hall Hsep Hout.
  - apply Forall2_nil_inv_l in Hall as ->. exists l.
    cbn [length free_elements union_list foldr].
    rewrite remove_blocks_empty, insert_id, set_heap_id by done. done.
  - apply Forall2_cons_inv_l in Hall as (dom & doms' & Helem & Hall & ->).
    cbn [union_list foldr] in Hout |- *. destruct Hsep as [Hdisj Hsep].
    apply not_elem_of_union in Hout as [Hout Hout'].
    assert (Hi0 : l !! Z.to_nat i = Some (Some elem)).
    { rewrite <- (Hl 0%nat elem) by done. f_equal. lia. }
    cbn [length free_elements].
    rewrite (load_block st a l i (Some elem)), bind_Ok by done.
    destruct (Hfv st elem dom Helem) as [elem' ->]. rewrite bind_Ok.
    set (st1 := set_heap (remove_blocks dom (heap st)) st).
    assert (Ha1 : heap st1 !! a = Some (ValBuf l)).
    { unfold st1, set_heap. cbn [heap].
      by rewrite lookup_remove_blocks, decide_False. }
    unfold store. rewrite Ha1.
    destruct (Z.leb_spec 0 i) as [_|?]; [|lia].
    pose proof (lookup_lt_Some _ _ _ Hi0) as Hlt.
    destruct (Z.ltb_spec i (Z.of_nat (length l))) as [_|?]; [|lia].
    cbn [andb]. rewrite bind_Ok.
    set (l2 := <[Z.to_nat i := Some elem']> l).
    set (st2 := set_heap (<[a := ValBuf l2]> (heap st1)) st1).
    assert (Hsame : ∀ x, x ∈ ⋃ doms' → heap st2 !! x = heap st !! x).
    { intros x Hx. unfold st2, st1, set_heap. cbn [heap].
      rewrite lookup_insert_ne by (intros ->; done).
      rewrite lookup_remove_blocks, decide_False; [done|].
      intros Hxd. by apply (Hdisj x). }
    destruct (IH doms' (i + 1) st2 l2) as [l' Hrun]; try done; try lia.
    + unfold st2, st1, set_heap. cbn [heap]. apply lookup_insert_eq.
    + intros j e He. unfold l2. rewrite list_lookup_insert_ne by lia.
      rewrite <- (Hl (S j) e) by done. f_equal. lia.
    + apply Forall2_same_length_lookup. split; [by eapply Forall2_length|].
      intros k x y Hx Hy. apply (sound_frame depth (heap st)).
      * by eapply Forall2_lookup_lr.
      * intros z Hz. apply Hsame. apply elem_of_union_list. exists y.
        split; [by eapply list_elem_of_lookup_2 | done].
    + exists l'. rewrite Hrun. unfold st2, st1, set_heap.
      cbn [heap next eass_last_error stdout]. do 2 f_equal.
      apply map_eq. intros x. destruct (decide (x = a)) as [->|Hne].
      * by rewrite !lookup_insert_eq.
      * rewrite !lookup_insert_ne by done. rewrite !lookup_remove_blocks.
        rewrite lookup_insert_ne by done. rewrite lookup_remove_blocks.
        destruct (decide (x ∈ dom)), (decide (x ∈ ⋃ doms')).
        -- by rewrite decide_True by (apply elem_of_union; auto).
        -- by rewrite decide_True by (apply elem_of_union; auto).
        -- by rewrite decide_True by (apply elem_of_union; auto).
        -- rewrite decide_False; [done|]. intros [?|?]%elem_of_union; done.
Qed.

(** A sound value is released by [free_dynamic_value], given fuel for its
    depth: the call returns and takes exactly the footprint off the heap. *)
Lemma free_dynamic_value_sound (depth : nat) :
  ∀ (st : state) (val : DynamicValue) (dom : gset addr),
    sound depth (heap st) val dom →
    ∃ val', free_dynamic_value depth st val
            = Ok (set_heap (remove_blocks dom (heap st)) st, val').
Proof.
  induction depth as [|depth IH]; intros st val dom H; [done|].
  cbn [sound] in H. cbn [free_dynamic_value].
  destruct (type val), (value val) as [| |[|a]|arr]; try done;
    try (subst dom; rewrite remove_blocks_empty, set_heap_id; by eexists).
  - destruct H as [[s Hs] ->]. unfold free. rewrite Hs, bind_Ok.
    rewrite remove_blocks_singleton. by eexists.
  - unfold free_dynamic_array_with.
    destruct (data arr) as [|a] eqn:Hdata.
    + destruct H as [Hsize ->]. rewrite Hsize. change (Z.to_nat 0) with 0%nat.
      cbn [free_elements free mbind outcome_bind].
      rewrite remove_blocks_empty, set_heap_id. by eexists.
    + destruct H as (l & elems & doms & Hl & Hsize & Htake & Hlen & Hall & Hsep & Ha & ->).
      rewrite <- Hlen.
      destruct (free_elements_sound depth (free_dynamic_value depth) a IH
                  elems doms 0 st l) as [l' Hrun]; try done.
      { intros j elem Hj. by apply (sound_elements l _ elems Htake). }
      rewrite Hrun, bind_Ok. unfold free, set_heap. cbn [heap next eass_last_error stdout].
      rewrite lookup_insert_eq, !bind_Ok. eexists. do 3 f_equal.
      apply map_eq. intros x. rewrite lookup_remove_blocks.
      destruct (decide (x = a)) as [->|Hne].
      * rewrite lookup_delete_eq. by rewrite decide_True by set_solver.
      * rewrite lookup_delete_ne, lookup_insert_ne by done.
        rewrite lookup_remove_blocks.
        destruct (decide (x ∈ ⋃ doms)).
        -- by rewrite decide_True by (apply elem_of_union; auto).
        -- rewrite decide_False; [done|].
           intros [?%elem_of_singleton|?]%elem_of_union; done.
Qed.

(** A call of [print] whose arguments are sound and apart from one another
    returns, given fuel for their depth, and takes their footprints off the
    heap. *)
Lemma print_sound (depth : nat) (n : nat) :
  ∀ (format : string) (args : list DynamicValue) (st : state)
    (doms : list (gset addr)),
    (String.length format ≤ n)%nat →
    supplied format args = true →
    Forall2 (sound depth (heap st)) (consumed format args) doms →
    separate doms →
    ∃ text,
      print depth format args st
      = Ok (mkState (remove_blocks (⋃ doms) (heap st)) (next st) (eass_last_error st)
              (String.append (stdout st) text)).
Proof.
  assert (Hdone : ∀ (st : state) (text : string) (doms : list (gset addr)),
    Forall2 (sound depth (heap st)) [] doms →
    ∃ text', (Ok (printf text st) : outcome state)
             = Ok (mkState (remove_blocks (⋃ doms) (heap st)) (next st)
                     (eass_last_error st) (String.append (stdout st) text'))).
  { intros st text doms ->%Forall2_nil_inv_l. exists text.
    cbn [union_list foldr]. by rewrite remove_blocks_empty. }
  induction n as [|n IH]; intros format args st doms Hlen Hsup Hall Hsep.
  - destruct format; [|simpl in Hlen; lia]. by apply Hdone.
  - destruct format as [|c rest]; [by apply Hdone|].
    cbn [print consumed supplied] in Hsup, Hall |- *. cbn [String.length] in Hlen.
    destruct (is_nul c); [by apply Hdone|].
    assert (Hliteral :
      supplied rest args = true →
      Forall2 (sound depth (heap st)) (consumed rest args) doms →
      ∃ text,
        print depth rest args (printf (String c EmptyString) st)
        = Ok (mkState (remove_blocks (⋃ doms) (heap st)) (next st) (eass_last_error st)
                (String.append (stdout st) text))).
    { intros Hsup' Hall'.
      destruct (IH rest args (printf (String c EmptyString) st) doms)
        as [text Hrun]; try done; [lia|].
      exists (String.append (String c EmptyString) text). rewrite Hrun.
      unfold printf. cbn [heap next eass_last_error stdout].
      by rewrite string_append_assoc. }
    destruct rest as [|d rest']; [by apply Hliteral|].
    destruct (Ascii.eqb c "{" && Ascii.eqb d "}"); [|by apply Hliteral].
    destruct args as [|val args']; [done|].
    destruct (negb (verror val =? 0)); [by apply Hdone|].
    apply Forall2_cons_inv_l in Hall as (dom & doms' & Hval & Hall & ->).
    destruct Hsep as [Hdisj Hsep].
    destruct (print_value_sound depth st val dom Hval) as [text1 ->].
    rewrite bind_Ok.
    destruct (free_dynamic_value_sound depth (printf text1 st) val dom Hval)
      as [val' ->].
    rewrite bind_Ok. cbn [String.length] in Hlen.
    set (st2 := set_heap (remove_blocks dom (heap (printf text1 st))) (printf text1 st)).
    destruct (IH rest' args' st2 doms') as [text2 Hrun]; try done; [lia| |].
    + apply Forall2_same_length_lookup. split; [by eapply Forall2_length|].
      intros k x y Hx Hy. apply (sound_frame depth (heap st)).
      * by eapply Forall2_lookup_lr.
      * intros z Hz. unfold st2, set_heap, printf. cbn [heap].
        rewrite lookup_remove_blocks, decide_False; [done|].
        intros Hzd. apply (Hdisj z Hzd). apply elem_of_union_list. exists y.
        split; [by eapply list_elem_of_lookup_2 | done].
    + exists (String.append text1 text2). rewrite Hrun.
      unfold st2, set_heap, printf. cbn [heap next eass_last_error stdout union_list foldr].
      by rewrite remove_blocks_union, string_append_assoc.
Qed.

Lemma print_more_fuel_le (fuel fuel' : nat) (format : string)
  (args : list DynamicValue) (st st' : state) :
  (fuel ≤ fuel')%nat → print fuel format args st = Ok st' →
  print fuel' format args st = Ok st'.
Proof.
  induction 1 as [|fuel' _ IH]; [done|]. intros Hrun.
  rewrite (print_more_fuel fuel' (String.length format)); [by apply IH | done |].
  by rewrite IH.
Qed.

(** C10: [print] takes ownership of the arguments its ["{}"] placeholders
    consume. When each of them is sound (a live text, an array of
    initialised elements, arrays in arrays to any depth) and they share no
    block, the call returns, given fuel for the nesting depth, and it has
    released exactly their footprints: every block reached from a consumed
    argument, the text of a string, the buffer of an array and through its
    elements whatever they reach, is no longer live, and nothing else has
    changed in the heap. An array from which such an argument was copied by
    [array_get] still returns the same value, whose blocks are gone, unless
    its own buffer went with them. *)
Theorem print_takes_ownership (depth : nat) (format : string)
  (args : list DynamicValue) (doms : list (gset addr)) (st : state) :
  supplied format args = true →
  Forall2 (sound depth (heap st)) (consumed format args) doms →
  separate doms →
  ∃ st',
    (∀ fuel, (depth ≤ fuel)%nat → print fuel format args st = Ok st')
    ∧ heap st' = remove_blocks (⋃ doms) (heap st)
    ∧ (∀ val b, In val (consumed format args) → owns (heap st) val b →
                heap st' !! b = None)
    ∧ (∀ arr index val a,
         error arr = 0 → index < size arr → data arr = Ptr a →
         array_get st arr index = Ok (st, Some val) →
         heap st' !! a = None ∨ array_get st' arr index = Ok (st', Some val)).
Proof.
  intros Hsup Hall Hsep.
  destruct (print_sound depth (String.length format) format args st doms)
    as [text Hrun]; try done.
  destruct (print_ownership_on_return depth format args st _ Hrun) as (_ & Hrel & Hget).
  match type of Hrun with _ = Ok ?s => exists s end.
  split_and!; [|reflexivity|exact Hrel|exact Hget].
  intros fuel Hfuel. by apply (print_more_fuel_le depth).
Qed.

Lemma print_takes_ownership_witness :
  (∃ st',
     print 3 "{}" [nested_value] nested_state = Ok st'
     ∧ heap st' = ∅
     ∧ heap st' !! 1%positive = None)
  ∧ (∃ st arr st',
       text_array = Ok (st, arr)
       ∧ array_get st arr 0 = Ok (st, Some text_value)
       ∧ print 1 "{}" [text_value] st = Ok st'
       ∧ heap st' !! 1%positive = None
       ∧ array_get st' arr 0 = Ok (st', Some text_value)).
Proof.
  split.
  {
    destruct (print_takes_ownership 3 "{}" [nested_value]
                [{[4%positive]} ∪ ⋃ [{[2%positive]} ∪ ⋃ [{[1%positive]}; ∅];
                                      {[3%positive]}]]
                nested_state) as (st' & Hrun & Hheap & Hrel & _).
    - reflexivity.
    - constructor; [|constructor].
      exists [Some (mkValue EASS_ARRAY 0 (PArr (mkArray (Ptr 2%positive) 2 2 0)));
              Some (mkValue EASS_STRING 0 (PStr (Ptr 3%positive)))],
        [mkValue EASS_ARRAY 0 (PArr (mkArray (Ptr 2%positive) 2 2 0));
         mkValue EASS_STRING 0 (PStr (Ptr 3%positive))],
        [{[2%positive]} ∪ ⋃ [{[1%positive]}; ∅]; {[3%positive]}].
      split_and!; try reflexivity; try done;
        try (cbn [separate]; repeat split; compute_done).
      constructor; [|constructor; [|constructor]].
      + exists [Some (mkValue EASS_STRING 0 (PStr (Ptr 1%positive))); Some (Int 5)],
          [mkValue EASS_STRING 0 (PStr (Ptr 1%positive)); Int 5],
          [{[1%positive]}; ∅].
        split_and!; try reflexivity; try done;
          try (cbn [separate]; repeat split; compute_done).
        constructor; [|constructor; [|constructor]].
        * split; [by eexists | done].
        * reflexivity.
      + split; [by eexists | done].
    - cbn [separate]. repeat split; compute_done.
    - exists st'. split; [apply Hrun; lia|]. split.
      + rewrite Hheap. apply map_eq. intros x. rewrite lookup_remove_blocks, lookup_empty.
        case_decide as Hx; [done|]. 
        destruct (heap nested_state !! x) as [blk|] eqn:Hblk; [|done].
        exfalso. apply Hx. unfold nested_state in Hblk. cbn [heap] in Hblk.
        cbn [union_list foldr].
        repeat (apply lookup_insert_Some in Hblk as [[<- _]|[_ Hblk]];
                [compute_done|]).
        done.
      + apply (Hrel nested_value); [by left|].
        eapply (owns_element _ _ (mkArray (Ptr 4%positive) 2 2 0) 4%positive _ 0
                  (mkValue EASS_ARRAY 0 (PArr (mkArray (Ptr 2%positive) 2 2 0))));
          try reflexivity; [cbn; lia|].
        eapply (owns_element _ _ (mkArray (Ptr 2%positive) 2 2 0) 2%positive _ 0
                  (mkValue EASS_STRING 0 (PStr (Ptr 1%positive))));
          try reflexivity; [cbn; lia|].
        by apply owns_payload. }
  destruct text_array as [[st arr]| |] eqn:Hta; vm_compute in Hta; [|discriminate..].
  injection Hta as <- <-.
  match goal with
  | |- ∃ st arr st', Ok (?s, ?a) = _ ∧ _ =>
      destruct (print_takes_ownership 1 "{}" [text_value] [{[1%positive]}] s)
        as (st' & Hrun & Hheap & _ & Hget);
        [reflexivity
        | constructor; [split; [by eexists | done] | constructor]
        | cbn [separate]; repeat split; compute_done
        | exists s, a, st']
  end.
  split; [reflexivity|]. split; [vm_compute; reflexivity|].
  split; [apply Hrun; lia|].
  assert (Hgone : heap st' !! 1%positive = None).
  { rewrite Hheap, lookup_remove_blocks. by rewrite decide_True by compute_done. }
  split; [exact Hgone|].
  match goal with
  | |- array_get _ ?a _ = _ =>
      destruct (Hget a 0 text_value 2%positive eq_refl eq_refl eq_refl
                  ltac:(vm_compute; reflexivity)) as [Hbuf|Hstill]; [|exact Hstill]
  end.
  rewrite Hheap, lookup_remove_blocks in Hbuf.
  rewrite decide_False in Hbuf by compute_done. vm_compute in Hbuf. discriminate.
Defined.

(** X19: [print("{}", v)] for a text [v] returns, with the text and a
    newline written and the text's buffer released. *)
Lemma print_text (fuel : nat) (st : state) (a : addr) (s : string) :
  heap st !! a = Some (CharBuf s) →
  print (S fuel) "{}" [mkValue EASS_STRING 0 (PStr (Ptr a))] st
  = Ok (mkState (delete a (heap st)) (next st) (eass_last_error st)
          (String.append (String.append (stdout st) (c_str s)) newline)).
Proof.
  intros Ha. cbn [print is_nul Ascii.eqb N_of_ascii N.eqb].
  change (is_nul "{") with false. cbn [andb Ascii.eqb Bool.eqb verror Z.eqb negb].
  unfold print_value, render_scalar, load_str. cbn [type value].
  rewrite Ha, !bind_Ok.
  cbn [free_dynamic_value type value]. unfold free, printf. cbn [heap].
  rewrite Ha, !bind_Ok. reflexivity.
Qed.

(** Release follows nested arrays: all four blocks of [nested_state] are
    gone after the call, given fuel for three levels. *)
Example print_releases_nested_array :
  print 3 "{}" [nested_value] nested_state
  = Ok (mkState ∅ 5%positive (mkError 0 "")
          (String.append "Array[, b]" newline))
  ∧ print 2 "{}" [nested_value] nested_state = OutOfFuel.
Proof. split; vm_compute; reflexivity. Qed.

(** After [print("{}", array_get(&arr, 0))] the array still points to the
    released text: releasing the array frees that block a second time. *)
Example release_after_print_is_undefined :
  ('(_, arr, st') ← print_element 1; free_dynamic_array 1 st' arr) = Undefined.
Proof. vm_compute; reflexivity. Qed.

(** ** Arrays in working order *)

Lemma well_formed_contents st arr a l :
  well_formed st arr a l → contents st arr = Ok (take (Z.to_nat (size arr)) l).
Proof.
  intros (Herr & Hdata & Ha & Hlen & Hsize & Hmax).
  unfold contents. rewrite Hdata, Ha.
  destruct (Z.leb_spec (size arr) (Z.of_nat (length l))) as [_|?]; [done|lia].
Qed.

Lemma well_formed_bounds st arr a l :
  well_formed st arr a l → capacity arr < 2 ^ 58.
Proof.
  intros (_ & _ & _ & _ & _ & Hmax). unfold sizeof_DynamicValue in Hmax.
  change (2 ^ 63) with 9223372036854775808 in Hmax.
  change (2 ^ 58) with 288230376151711744. lia.
Qed.

(** X2: after a run of successful appends on [array(0)], [array_get] at
    index [i] returns the [i]-th value that was appended and leaves the
    state as it is. *)
Theorem array_get_after_appends (embedded : bool) (vals : list DynamicValue)
  (i : nat) (v : DynamicValue) :
  Z.of_nat (length vals) ≤ last_capacity → vals !! i = Some v →
  ∃ st arr, appends embedded empty_array.1 empty_array.2 vals = Ok (st, arr)
            ∧ array_get st arr (Z.of_nat i) = Ok (st, Some v).
Proof.
  intros Hlen Hv.
  destruct (appends_holds embedded vals Hlen) as (st & arr & Hrun & H).
  exists st, arr. split; [done|].
  destruct H as (Herr & Hsize & Hcap & Hle & Hfresh & Hbuf).
  pose proof (lookup_lt_Some _ _ _ Hv) as Hi.
  unfold array_get. rewrite Herr. cbn [Z.eqb negb].
  destruct (Z.leb_spec (size arr) (Z.of_nat i)) as [?|_]; [lia|].
  unfold buffer_holds in Hbuf.
  destruct (data arr) as [|a]; [lia|].
  destruct Hbuf as (l & Hl & Hcapl & Htake).
  rewrite (load_block st a l (Z.of_nat i) (Some v)); [done | done | lia |].
  rewrite Nat2Z.id. rewrite <- (lookup_take_lt l (length vals)) by done.
  rewrite Htake, list_lookup_fmap, Hv. done.
Qed.

Lemma array_get_after_appends_witness :
  ∃ st arr, appends false empty_array.1 empty_array.2 [Int 1; Int 2] = Ok (st, arr)
            ∧ array_get st arr (Z.of_nat 1) = Ok (st, Some (Int 2)).
Proof.
  apply (array_get_after_appends false [Int 1; Int 2] 1 (Int 2)); [|reflexivity].
  unfold last_capacity. cbn. lia.
Defined.

(** X5: when the allocator refuses the growth of a full array,
    [array_append] and [array_insert] record the failure ([error = 1],
    [ENOMEM] in the error slot) and change nothing else: [data], [size] and
    [capacity] are the old ones and the heap is untouched, so the old
    buffer and the value stay with the caller. *)
Theorem allocation_failure_keeps_array (embedded : bool) (st : state)
  (arr : DynamicArray) (index : Z) (val : DynamicValue) :
  error arr = 0 → capacity arr ≤ size arr → 0 ≤ index ≤ size arr →
  ∃ st1 st2,
    array_append embedded false st arr val = Ok (st1, with_error arr)
    ∧ array_insert embedded false st arr index val = Ok (st2, with_error arr)
    ∧ heap st1 = heap st ∧ heap st2 = heap st
    ∧ code (eass_last_error st1) = ENOMEM
    ∧ code (eass_last_error st2) = ENOMEM.
Proof.
  intros Herr Hfull Hindex.
  unfold array_append, array_insert. rewrite Herr. cbn [Z.eqb negb].
  destruct (Z.ltb_spec (size arr) index) as [?|_]; [lia|].
  destruct (Z.leb_spec (capacity arr) (size arr)) as [_|?]; [|lia].
  unfold append_grow, insert_grow, malloc_values, realloc_values.
  destruct embedded; cbn [mbind outcome_bind]; by eexists _, _.
Qed.

Lemma allocation_failure_keeps_array_witness :
  ∃ st1 st2,
    array_append false false roomy_state (mkArray (Ptr 1%positive) 4 4 0) (Int 3)
    = Ok (st1, with_error (mkArray (Ptr 1%positive) 4 4 0))
    ∧ array_insert false false roomy_state (mkArray (Ptr 1%positive) 4 4 0) 2 (Int 3)
      = Ok (st2, with_error (mkArray (Ptr 1%positive) 4 4 0))
    ∧ heap st1 = heap roomy_state ∧ heap st2 = heap roomy_state
    ∧ code (eass_last_error st1) = ENOMEM
    ∧ code (eass_last_error st2) = ENOMEM.
Proof.
  apply (allocation_failure_keeps_array false roomy_state
           (mkArray (Ptr 1%positive) 4 4 0) 2 (Int 3)); cbn; lia.
Defined.

Lemma array_append_in_place (embedded ok : bool) (st : state) (arr : DynamicArray)
  (v : DynamicValue) (a : addr) (l : list slot) :
  well_formed st arr a l → size arr < capacity arr →
  ∃ st1,
    array_append embedded ok st arr v
    = Ok (st1, mkArray (Ptr a) (size arr + 1) (capacity arr) 0)
    ∧ next st1 = next st
    ∧ well_formed st1 (mkArray (Ptr a) (size arr + 1) (capacity arr) 0) a
        (<[Z.to_nat (size arr) := Some v]> l).
Proof.
  intros Hwf Hroom. pose proof (well_formed_bounds _ _ _ _ Hwf) as Hb.
  destruct Hwf as (Herr & Hdata & Ha & Hlen & Hsize & Hmax).
  unfold array_append. rewrite Herr. cbn [Z.eqb negb].
  destruct (Z.leb_spec (capacity arr) (size arr)) as [?|_]; [lia|].
  rewrite bind_Ok. cbn [data size capacity error]. rewrite Hdata. unfold store. rewrite Ha.
  destruct (Z.leb_spec 0 (size arr)) as [_|?]; [|lia].
  destruct (Z.ltb_spec (size arr) (Z.of_nat (length l))) as [_|?]; [|lia].
  cbn [andb]. rewrite bind_Ok, Herr, to_size_t_small by lia.
  eexists. split; [reflexivity|]. split; [reflexivity|].
  unfold well_formed. state_simpl.
  rewrite lookup_insert_eq, length_insert. split_and!; (done || lia).
Qed.

(** X3: [array(n)] followed by at most [n] appends never allocates again:
    the buffer stays the one [array] obtained, [capacity] stays [n], [size]
    is the number of values and the contents are the values in order. *)
Theorem appends_within_capacity (embedded : bool) (indet : Z * Z) (st : state)
  (n : Z) (vals : list DynamicValue) :
  0 < n → n * sizeof_DynamicValue < 2 ^ 63 → Z.of_nat (length vals) ≤ n →
  ∃ st1,
    appends embedded (array true indet st n).1 (array true indet st n).2 vals
    = Ok (st1, mkArray (Ptr (next st)) (Z.of_nat (length vals)) n 0)
    ∧ next st1 = Pos.succ (next st)
    ∧ contents st1 (mkArray (Ptr (next st)) (Z.of_nat (length vals)) n 0)
      = Ok (Some <$> vals).
Proof.
  intros Hn Hmax.
  assert (Harr : array true indet st n
                 = ((fresh_block (ValBuf (replicate (Z.to_nat n) None)) st).1,
                    mkArray (Ptr (next st)) 0 n 0)).
  { unfold array. destruct (Z.eqb_spec n 0) as [?|_]; [lia|].
    unfold malloc_values. rewrite to_size_t_small.
    - unfold slots_of_bytes. rewrite Z.div_mul by discriminate. reflexivity.
    - unfold sizeof_DynamicValue in *. change (2 ^ 63) with 9223372036854775808 in Hmax.
      change (2 ^ 64) with 18446744073709551616. lia. }
  rewrite Harr. cbn [fst snd]. clear Harr.
  enough (H : Z.of_nat (length vals) ≤ n →
    ∃ st1 l, appends embedded (fresh_block (ValBuf (replicate (Z.to_nat n) None)) st).1
               (mkArray (Ptr (next st)) 0 n 0) vals
             = Ok (st1, mkArray (Ptr (next st)) (Z.of_nat (length vals)) n 0)
             ∧ next st1 = Pos.succ (next st)
             ∧ well_formed st1 (mkArray (Ptr (next st)) (Z.of_nat (length vals)) n 0)
                 (next st) l
             ∧ take (length vals) l = Some <$> vals).
  { intros Hlen. destruct (H Hlen) as (st1 & l & Hrun & Hnext & Hwf & Htake).
    exists st1. split_and!; try done.
    rewrite (well_formed_contents _ _ _ _ Hwf). cbn [size].
    by rewrite Nat2Z.id, Htake. }
  induction vals as [|v vals IH] using rev_ind; intros Hlen.
  - eexists _, _. split; [reflexivity|]. split; [reflexivity|]. split; [|by rewrite take_0].
    unfold well_formed. state_simpl. rewrite lookup_insert_eq, length_replicate.
    split_and!; (done || lia).
  - rewrite length_app in Hlen |- *. cbn [length] in Hlen |- *.
    destruct IH as (st1 & l & Hrun & Hnext & Hwf & Htake); [lia|].
    destruct (array_append_in_place embedded true st1 _ v _ l Hwf)
      as (st2 & Hstep & Hnext2 & Hwf2); [cbn [size capacity]; lia|].
    cbn [size capacity] in Hstep, Hwf2.
    replace (Z.of_nat (length vals + 1)) with (Z.of_nat (length vals) + 1) by lia.
    eexists st2, _. rewrite appends_app, Hrun, bind_Ok. cbn [appends].
    rewrite Hstep, bind_Ok. split_and!; [done | congruence | exact Hwf2 |].
    rewrite Nat2Z.id, fmap_app, Nat.add_1_r. cbn [fmap list_fmap].
    destruct Hwf as (_ & _ & _ & Hl & _). cbn [capacity] in Hl.
    rewrite (take_S_r _ _ (Some v)).
    + rewrite take_insert_ge by lia. by rewrite Htake.
    + apply list_lookup_insert_eq. lia.
Qed.

Lemma appends_within_capacity_witness :
  ∃ st1,
    appends false (array true (0, 0) initial_state 2).1
      (array true (0, 0) initial_state 2).2 [Int 1; Int 2]
    = Ok (st1, mkArray (Ptr (next initial_state)) (Z.of_nat (length [Int 1; Int 2])) 2 0)
    ∧ next st1 = Pos.succ (next initial_state)
    ∧ contents st1 (mkArray (Ptr (next initial_state))
                      (Z.of_nat (length [Int 1; Int 2])) 2 0)
      = Ok (Some <$> [Int 1; Int 2]).
Proof.
  apply (appends_within_capacity false (0, 0) initial_state 2 [Int 1; Int 2]);
    [lia | reflexivity | cbn; lia].
Defined.

(** ** [array_insert] and [array_remove] as list operations *)

Lemma lookup_list_insertion {A : Type} (c : list A) (i : nat) (x : A) (j : nat) :
  (i ≤ length c)%nat →
  (take i c ++ x :: drop i c) !! j
  = if decide (j = i) then Some x
    else if decide (i < j)%nat then c !! (j - 1)%nat else c !! j.
Proof.
  intros Hi. destruct (decide (j = i)) as [->|Hne].
  - rewrite list_lookup_middle; [done|]. by rewrite length_take_le.
  - case_decide.
    + rewrite lookup_app_r by (rewrite length_take_le; lia).
      rewrite length_take_le by lia.
      rewrite lookup_cons_ne_0 by lia. rewrite lookup_drop. f_equal. lia.
    + rewrite lookup_app_l by (rewrite length_take_le; lia).
      apply lookup_take_lt. lia.
Qed.

(** X7: [array_insert] into an array with room left is insertion into the
    list of its contents: the elements before [index] stay, the value
    follows, then the elements from [index] on; buffer and capacity are
    kept. *)
Theorem array_insert_is_list_insertion (embedded ok : bool) (st : state)
  (arr : DynamicArray) (index : Z) (v : DynamicValue) (a : addr) (l : list slot) :
  well_formed st arr a l → size arr < capacity arr → 0 ≤ index ≤ size arr →
  ∃ st1 c,
    contents st arr = Ok c
    ∧ array_insert embedded ok st arr index v
      = Ok (st1, mkArray (Ptr a) (size arr + 1) (capacity arr) 0)
    ∧ contents st1 (mkArray (Ptr a) (size arr + 1) (capacity arr) 0)
      = Ok (take (Z.to_nat index) c ++ Some v :: drop (Z.to_nat index) c).
Proof.
  intros Hwf Hroom Hindex. pose proof (well_formed_bounds _ _ _ _ Hwf) as Hb.
  pose proof (well_formed_contents _ _ _ _ Hwf) as Hc.
  destruct Hwf as (Herr & Hdata & Ha & Hlen & Hsize & Hmax).
  destruct (array_insert_in_place embedded ok st arr index v a l)
    as (st1 & l1 & Hins & Ha1 & Hlen1 & Hl1); try done; try lia.
  exists st1, (take (Z.to_nat (size arr)) l). split_and!; [done | done |].
  unfold contents. cbn [data size]. rewrite Ha1, Hlen1.
  destruct (Z.leb_spec (size arr + 1) (Z.of_nat (length l))) as [_|?]; [|lia].
  f_equal. apply list_eq. intros j.
  rewrite lookup_list_insertion by (rewrite length_take_le; lia).
  rewrite lookup_take, Hl1.
  repeat case_decide; try lia; try done;
    rewrite ?lookup_take_lt by lia; try done.
  all: symmetry; apply lookup_take_ge; lia.
Qed.

Lemma array_insert_is_list_insertion_witness :
  ∃ st1 c,
    contents roomy_state roomy_array = Ok c
    ∧ array_insert false true roomy_state roomy_array 1 (Int 9)
      = Ok (st1, mkArray (Ptr 1%positive) (size roomy_array + 1) (capacity roomy_array) 0)
    ∧ contents st1 (mkArray (Ptr 1%positive) (size roomy_array + 1)
                      (capacity roomy_array) 0)
      = Ok (take (Z.to_nat 1) c ++ Some (Int 9) :: drop (Z.to_nat 1) c).
Proof.
  apply (array_insert_is_list_insertion false true roomy_state roomy_array 1 (Int 9)
           1%positive [Some (Int 1); Some (Int 2); None; None]);
    [|cbn; lia..].
  unfold well_formed. split_and!; try reflexivity; cbn; lia.
Defined.

(** X10: [array_remove] is deletion from the list of contents: it returns
    the element at [index], the elements after it move down by one, and
    buffer and capacity are kept. *)
Theorem array_remove_is_list_deletion (st : state) (arr : DynamicArray) (index : Z)
  (a : addr) (l : list slot) :
  well_formed st arr a l → 0 ≤ index < size arr →
  ∃ st1 c s,
    contents st arr = Ok c
    ∧ c !! Z.to_nat index = Some s
    ∧ array_remove st arr index
      = Ok (st1, mkArray (Ptr a) (size arr - 1) (capacity arr) 0, s)
    ∧ contents st1 (mkArray (Ptr a) (size arr - 1) (capacity arr) 0)
      = Ok (delete (Z.to_nat index) c).
Proof.
  intros Hwf Hindex. pose proof (well_formed_bounds _ _ _ _ Hwf) as Hb.
  pose proof (well_formed_contents _ _ _ _ Hwf) as Hc.
  destruct Hwf as (Herr & Hdata & Ha & Hlen & Hsize & Hmax).
  destruct (lookup_lt_is_Some_2 l (Z.to_nat index) ltac:(lia)) as [s Hs].
  destruct (array_remove_in_place st arr index a l s)
    as (st1 & l1 & Hrem & Ha1 & Hlen1 & Hl1); try done; try lia.
  exists st1, (take (Z.to_nat (size arr)) l), s. split_and!; try done.
  { rewrite lookup_take_lt by lia. done. }
  unfold contents. cbn [data size]. rewrite Ha1, Hlen1.
  destruct (Z.leb_spec (size arr - 1) (Z.of_nat (length l))) as [_|?]; [|lia].
  f_equal. apply list_eq. intros j.
  rewrite list_lookup_delete, !lookup_take, Hl1.
  repeat case_decide; try lia; done.
Qed.

Lemma array_remove_is_list_deletion_witness :
  ∃ st1 c s,
    contents roomy_state roomy_array = Ok c
    ∧ c !! Z.to_nat 0 = Some s
    ∧ array_remove roomy_state roomy_array 0
      = Ok (st1, mkArray (Ptr 1%positive) (size roomy_array - 1) (capacity roomy_array) 0, s)
    ∧ contents st1 (mkArray (Ptr 1%positive) (size roomy_array - 1)
                      (capacity roomy_array) 0)
      = Ok (delete (Z.to_nat 0) c).
Proof.
  apply (array_remove_is_list_deletion roomy_state roomy_array 0
           1%positive [Some (Int 1); Some (Int 2); None; None]);
    [|cbn; lia].
  unfold well_formed. split_and!; try reflexivity; cbn; lia.
Defined.

(** X12: [array_remove] followed by [array_insert] of the removed value at
    the same index gives back the array, struct and contents. *)
Theorem remove_insert_restores (embedded ok : bool) (st : state)
  (arr : DynamicArray) (index : Z) (v : DynamicValue) (a : addr) (l : list slot) :
  well_formed st arr a l → 0 ≤ index < size arr →
  l !! Z.to_nat index = Some (Some v) →
  ∃ st1 arr1 st2,
    array_remove st arr index = Ok (st1, arr1, Some v)
    ∧ array_insert embedded ok st1 arr1 index v = Ok (st2, arr)
    ∧ contents st2 arr = contents st arr.
Proof.
  intros Hwf Hindex Hv. pose proof (well_formed_bounds _ _ _ _ Hwf) as Hb.
  destruct Hwf as (Herr & Hdata & Ha & Hlen & Hsize & Hmax).
  destruct (array_remove_in_place st arr index a l (Some v))
    as (st1 & l1 & Hrem & Ha1 & Hlen1 & Hl1); try done; try lia.
  destruct (array_insert_in_place embedded ok st1
              (mkArray (Ptr a) (size arr - 1) (capacity arr) 0) index v a l1)
    as (st2 & l2 & Hins & Ha2 & Hlen2 & Hl2); try done; cbn [size capacity]; try lia.
  cbn [size capacity] in Hins, Hl2.
  replace (size arr - 1 + 1) with (size arr) in Hins by lia.
  eexists st1, _, st2. split; [exact Hrem|]. split.
  - rewrite Hins. destruct arr as [d sz c e]. cbn in *. by subst.
  - unfold contents. rewrite Hdata, Ha2, Ha, Hlen2, Hlen1.
    destruct (Z.leb_spec (size arr) (Z.of_nat (length l))) as [_|?]; [|lia].
    f_equal. apply list_eq. intros j. rewrite !lookup_take, Hl2.
    case_decide; [|done].
    destruct (decide (Z.of_nat j = index)) as [Hj|Hj].
    + rewrite <- Hv. f_equal. lia.
    + case_decide.
      * rewrite Hl1. rewrite decide_True by lia. f_equal. lia.
      * rewrite Hl1. rewrite decide_False by lia. done.
Qed.

Lemma remove_insert_restores_witness :
  ∃ st1 arr1 st2,
    array_remove roomy_state roomy_array 0 = Ok (st1, arr1, Some (Int 1))
    ∧ array_insert false true st1 arr1 0 (Int 1) = Ok (st2, roomy_array)
    ∧ contents st2 roomy_array = contents roomy_state roomy_array.
Proof.
  apply (remove_insert_restores false true roomy_state roomy_array 0 (Int 1)
           1%positive [Some (Int 1); Some (Int 2); None; None]);
    [| cbn; lia | reflexivity].
  unfold well_formed. split_and!; try reflexivity; cbn; lia.
Defined.

(** ** Growth in [array_insert] with [EASS_ENABLE_EMBEDDED] *)

Ltac size_lia :=
  unfold sizeof_DynamicValue in *;
  change (2 ^ 64) with 18446744073709551616 in *;
  change (2 ^ 63) with 9223372036854775808 in *;
  change (2 ^ 58) with 288230376151711744 in *;
  lia.

Lemma memcpy_block (st : state) (d s : addr) (ld ls : list slot) (doff soff n : Z) :
  heap st !! d = Some (ValBuf ld) → heap st !! s = Some (ValBuf ls) →
  0 ≤ n → 0 ≤ soff → soff + n ≤ Z.of_nat (length ls) →
  0 ≤ doff → doff + n ≤ Z.of_nat (length ld) →
  ∃ st' ld',
    memcpy (Ptr d) doff (Ptr s) soff (n * sizeof_DynamicValue) st = Ok st'
    ∧ heap st' = <[d := ValBuf ld']> (heap st)
    ∧ next st' = next st
    ∧ length ld' = length ld
    ∧ ∀ j : nat,
        ld' !! j = if decide (doff ≤ Z.of_nat j < doff + n)
                   then ls !! Z.to_nat (Z.of_nat j - doff + soff) else ld !! j.
Proof.
  intros Hd Hs Hn Hsoff Hsn Hdoff Hdn. unfold memcpy.
  rewrite Z.div_mul by discriminate.
  destruct (Z.eqb_spec n 0) as [->|Hnz].
  - exists st, ld. split_and!; try done.
    + by rewrite insert_id.
    + intros j. case_decide; [lia | done].
  - rewrite Hd, Hs.
    destruct (Z.leb_spec 0 soff) as [_|?]; [|lia].
    destruct (Z.leb_spec (soff + n) (Z.of_nat (length ls))) as [_|?]; [|lia].
    destruct (Z.leb_spec 0 doff) as [_|?]; [|lia].
    destruct (Z.leb_spec (doff + n) (Z.of_nat (length ld))) as [_|?]; [|lia].
    cbn [andb]. eexists _, _. split; [reflexivity|]. state_simpl.
    split_and!; try done.
    + rewrite !length_app, length_take, length_take, !length_drop. lia.
    + intros j. case_decide.
      * rewrite lookup_app_r by (rewrite length_take; lia).
        rewrite length_take_le by lia.
        rewrite lookup_app_l by (rewrite length_take, length_drop; lia).
        rewrite lookup_take_lt by lia. rewrite lookup_drop. f_equal. lia.
      * destruct (decide (Z.of_nat j < doff)).
        -- rewrite lookup_app_l by (rewrite length_take; lia).
           apply lookup_take_lt. lia.
        -- rewrite lookup_app_r by (rewrite length_take; lia).
           rewrite length_take_le by lia.
           rewrite lookup_app_r by (rewrite length_take, length_drop; lia).
           rewrite length_take_le by (rewrite length_drop; lia).
           rewrite lookup_drop. f_equal. lia.
Qed.

(** X8: with [EASS_ENABLE_EMBEDDED], [array_insert] into a full array
    copies the elements around [index] into a buffer of twice the capacity
    and releases the old one: the result is insertion into the list of
    contents, unlike the reallocating variant of the same function. *)
Theorem array_insert_embedded_growth (st : state) (arr : DynamicArray) (index : Z)
  (v : DynamicValue) (a : addr) (l : list slot) :
  well_formed st arr a l → heap_fresh st →
  size arr = capacity arr → 0 < capacity arr → 0 ≤ index ≤ size arr →
  ∃ st1 c,
    contents st arr = Ok c
    ∧ array_insert true true st arr index v
      = Ok (st1, mkArray (Ptr (next st)) (size arr + 1) (2 * capacity arr) 0)
    ∧ heap st1 !! a = None
    ∧ contents st1 (mkArray (Ptr (next st)) (size arr + 1) (2 * capacity arr) 0)
      = Ok (take (Z.to_nat index) c ++ Some v :: drop (Z.to_nat index) c).
Proof.
  intros Hwf Hfresh Hfull Hpos Hindex.
  pose proof (well_formed_bounds _ _ _ _ Hwf) as Hb.
  pose proof (well_formed_contents _ _ _ _ Hwf) as Hc.
  destruct Hwf as (Herr & Hdata & Ha & Hlen & Hsize & Hmax).
  assert (Hne : next st ≠ a).
  { intros <-. rewrite (Hfresh (next st)) in Ha by lia. discriminate. }
  enough (H : ∃ st1,
    array_insert true true st arr index v
    = Ok (st1, mkArray (Ptr (next st)) (size arr + 1) (2 * capacity arr) 0)
    ∧ heap st1 !! a = None
    ∧ contents st1 (mkArray (Ptr (next st)) (size arr + 1) (2 * capacity arr) 0)
      = Ok (take (Z.to_nat index) (take (Z.to_nat (size arr)) l)
            ++ Some v :: drop (Z.to_nat index) (take (Z.to_nat (size arr)) l))).
  { destruct H as (st1 & H1 & H2 & H3).
    by exists st1, (take (Z.to_nat (size arr)) l). }
  unfold array_insert. rewrite Herr. cbn [Z.eqb negb].
  destruct (Z.ltb_spec (size arr) index) as [?|_]; [lia|].
  destruct (Z.leb_spec (capacity arr) (size arr)) as [_|?]; [|lia].
  unfold insert_grow, insert_new_cap, malloc_values.
  destruct (Z.eqb_spec (capacity arr) 0) as [?|_]; [lia|].
  rewrite (to_size_t_small (capacity arr * 2)) by size_lia.
  rewrite (to_size_t_small (capacity arr * 2 * _)) by size_lia.
  rewrite (to_size_t_small (index * _)) by size_lia.
  rewrite (to_size_t_small ((size arr - index) * _)) by size_lia.
  unfold slots_of_bytes. rewrite Z.div_mul by discriminate.
  set (fresh := replicate (Z.to_nat (capacity arr * 2)) None : list slot).
  assert (Hfl : length fresh = Z.to_nat (capacity arr * 2)) by apply length_replicate.
  unfold fresh_block. rewrite Hdata.
  set (st0 := mkState (<[next st := ValBuf fresh]> (heap st)) (Pos.succ (next st))
                (eass_last_error st) (stdout st)).
  assert (Hd0 : heap st0 !! next st = Some (ValBuf fresh)) by apply lookup_insert_eq.
  assert (Hs0 : heap st0 !! a = Some (ValBuf l))
    by (unfold st0; cbn [heap]; by rewrite lookup_insert_ne).
  destruct (memcpy_block st0 (next st) a fresh l 0 0 index Hd0 Hs0)
    as (st2 & l2 & -> & Hh2 & Hn2 & Hlen2 & Hl2); try lia.
  rewrite bind_Ok.
  assert (Hd2 : heap st2 !! next st = Some (ValBuf l2))
    by (rewrite Hh2; apply lookup_insert_eq).
  assert (Hs2 : heap st2 !! a = Some (ValBuf l))
    by (rewrite Hh2; by rewrite lookup_insert_ne).
  destruct (memcpy_block st2 (next st) a l2 l (index + 1) index (size arr - index) Hd2 Hs2)
    as (st3 & l3 & -> & Hh3 & Hn3 & Hlen3 & Hl3); try lia.
  rewrite bind_Ok. unfold free.
  assert (Hs3 : heap st3 !! a = Some (ValBuf l))
    by (rewrite Hh3; by rewrite lookup_insert_ne).
  rewrite Hs3, bind_Ok, bind_Ok. cbn [data size capacity error].
  assert (Hd4 : heap (set_heap (delete a (heap st3)) st3) !! next st = Some (ValBuf l3)).
  { unfold set_heap. cbn [heap]. rewrite lookup_delete_ne by done.
    rewrite Hh3. apply lookup_insert_eq. }
  destruct (store_block _ (next st) l3 index (Some v) Hd4 ltac:(lia))
    as (st5 & Hstore & Hd5).
  rewrite Hstore, bind_Ok, to_size_t_small by size_lia.
  exists st5. split_and!.
  - rewrite Herr. do 3 f_equal. lia.
  - apply store_heap in Hstore as (l' & _ & ->).
    rewrite lookup_insert_ne by done. unfold set_heap. cbn [heap].
    apply lookup_delete_eq.
  - unfold contents. cbn [data size]. rewrite Hd5, length_insert.
    destruct (Z.leb_spec (size arr + 1) (Z.of_nat (length l3))) as [_|?]; [|lia].
    f_equal. apply list_eq. intros j.
    rewrite lookup_list_insertion by (rewrite length_take_le; lia).
    rewrite lookup_take.
    destruct (decide (Z.of_nat j = index)) as [Hj|Hj].
    + rewrite decide_True by lia. rewrite decide_True by lia.
      replace j with (Z.to_nat index) by lia. apply list_lookup_insert_eq. lia.
    + rewrite list_lookup_insert_ne by lia. rewrite Hl3, Hl2.
      rewrite (decide_False (P := j = Z.to_nat index)) by lia.
      repeat case_decide; try lia.
      1, 2: rewrite lookup_take_lt by lia; f_equal; lia.
      all: try done.
      all: symmetry; apply lookup_take_ge; lia.
Qed.

Lemma packed_well_formed :
  well_formed packed_state packed_array 1%positive [Some (Int 1); Some (Int 2)].
Proof. unfold well_formed. split_and!; try reflexivity; cbn; lia. Defined.

Lemma packed_heap_fresh : heap_fresh packed_state.
Proof.
  intros a Ha. cbn in Ha |- *. apply lookup_singleton_ne. lia.
Defined.

Lemma array_insert_embedded_growth_witness :
  ∃ st1 c,
    contents packed_state packed_array = Ok c
    ∧ array_insert true true packed_state packed_array 1 (Int 9)
      = Ok (st1, mkArray (Ptr (next packed_state)) (size packed_array + 1)
                   (2 * capacity packed_array) 0)
    ∧ heap st1 !! 1%positive = None
    ∧ contents st1 (mkArray (Ptr (next packed_state)) (size packed_array + 1)
                      (2 * capacity packed_array) 0)
      = Ok (take (Z.to_nat 1) c ++ Some (Int 9) :: drop (Z.to_nat 1) c).
Proof.
  apply (array_insert_embedded_growth packed_state packed_array 1 (Int 9)
           1%positive [Some (Int 1); Some (Int 2)]
           packed_well_formed packed_heap_fresh); cbn; lia.
Defined.

(** ** Growth in [array_append] *)

Lemma append_new_cap_small (cap : Z) :
  0 < cap → cap + cap / 2 < 2 ^ 31 →
  append_new_cap cap = Z.max 4 (cap + cap / 2).
Proof.
  intros Hpos Hsmall. unfold append_new_cap.
  rewrite Z.shiftr_div_pow2 by lia. change (2 ^ 1) with 2.
  assert (H0 : 0 ≤ cap / 2) by (apply Z.div_pos; lia).
  rewrite to_size_t_small by lia.
  unfold to_int. rewrite Z.mod_small by lia.
  destruct (Z.ltb_spec (cap + cap / 2 + 2 ^ 31 - 2 ^ 31) 4); lia.
Qed.

(** X4: [array_append] on a full array in working order, in both build
    variants and while [capacity + capacity / 2] fits an [int]: the new
    capacity is [capacity + capacity / 2], at least 4; the old buffer is
    released; the contents are the old ones followed by the value. *)
Theorem array_append_grows (embedded : bool) (st : state) (arr : DynamicArray)
  (v : DynamicValue) (a : addr) (l : list slot) :
  well_formed st arr a l → heap_fresh st →
  size arr = capacity arr → 0 < capacity arr →
  capacity arr + capacity arr / 2 < 2 ^ 31 →
  ∃ st1 c,
    contents st arr = Ok c
    ∧ array_append embedded true st arr v
      = Ok (st1, mkArray (Ptr (next st)) (size arr + 1)
                   (Z.max 4 (capacity arr + capacity arr / 2)) 0)
    ∧ heap st1 !! a = None
    ∧ contents st1 (mkArray (Ptr (next st)) (size arr + 1)
                      (Z.max 4 (capacity arr + capacity arr / 2)) 0)
      = Ok (c ++ [Some v]).
Proof.
  intros Hwf Hfresh Hfull Hpos Hsmall.
  pose proof (well_formed_contents _ _ _ _ Hwf) as Hc.
  destruct Hwf as (Herr & Hdata & Ha & Hlen & Hsize & Hmax).
  assert (H0 : 0 ≤ capacity arr / 2) by (apply Z.div_pos; lia).
  assert (Hne : next st ≠ a).
  { intros <-. rewrite (Hfresh (next st)) in Ha by lia. discriminate. }
  set (new_cap := Z.max 4 (capacity arr + capacity arr / 2)).
  assert (Hnew : capacity arr < new_cap < 2 ^ 31).
  { unfold new_cap. split; [|lia].
    destruct (Z.eq_dec (capacity arr) 1) as [->|?]; [done|].
    assert (1 ≤ capacity arr / 2) by (apply Z.div_le_lower_bound; lia). lia. }
  enough (H : ∃ st1,
    array_append embedded true st arr v
    = Ok (st1, mkArray (Ptr (next st)) (size arr + 1) new_cap 0)
    ∧ heap st1 !! a = None
    ∧ ∃ l1, heap st1 !! next st = Some (ValBuf l1)
            ∧ Z.of_nat (length l1) = new_cap
            ∧ take (Z.to_nat (size arr + 1)) l1
              = take (Z.to_nat (size arr)) l ++ [Some v]).
  { destruct H as (st1 & H1 & H2 & l1 & H3 & H4 & H5).
    exists st1, (take (Z.to_nat (size arr)) l). split_and!; try done.
    unfold contents. cbn [data size]. rewrite H3.
    destruct (Z.leb_spec (size arr + 1) (Z.of_nat (length l1))) as [_|?]; [|lia].
    by rewrite H5. }
  assert (Htail : ∀ l1 : list slot,
    (Z.to_nat (size arr) < length l1)%nat →
    take (Z.to_nat (size arr)) l1 = take (Z.to_nat (size arr)) l →
    take (Z.to_nat (size arr + 1)) (<[Z.to_nat (size arr) := Some v]> l1)
    = take (Z.to_nat (size arr)) l ++ [Some v]).
  { intros l1 Hl1 Htake.
    replace (Z.to_nat (size arr + 1)) with (S (Z.to_nat (size arr))) by lia.
    rewrite (take_S_r _ _ (Some v)) by (by apply list_lookup_insert_eq).
    rewrite take_insert_ge by lia. by rewrite Htake. }
  unfold array_append. rewrite Herr. cbn [Z.eqb negb].
  destruct (Z.leb_spec (capacity arr) (size arr)) as [_|?]; [|lia].
  unfold append_grow. rewrite append_new_cap_small by done. fold new_cap.
  rewrite (to_size_t_small (new_cap * _)) by (unfold sizeof_DynamicValue; lia).
  destruct embedded.
  - unfold malloc_values, slots_of_bytes. rewrite Z.div_mul by discriminate.
    rewrite (to_size_t_small (size arr * _)) by (unfold sizeof_DynamicValue; lia).
    set (fresh := replicate (Z.to_nat new_cap) None : list slot).
    assert (Hfl : length fresh = Z.to_nat new_cap) by apply length_replicate.
    unfold fresh_block. rewrite Hdata.
    set (st0 := mkState (<[next st := ValBuf fresh]> (heap st)) (Pos.succ (next st))
                  (eass_last_error st) (stdout st)).
    assert (Hd0 : heap st0 !! next st = Some (ValBuf fresh)) by apply lookup_insert_eq.
    assert (Hs0 : heap st0 !! a = Some (ValBuf l))
      by (unfold st0; cbn [heap]; by rewrite lookup_insert_ne).
    destruct (memcpy_block st0 (next st) a fresh l 0 0 (size arr) Hd0 Hs0)
      as (st2 & l2 & -> & Hh2 & Hn2 & Hlen2 & Hl2); try lia.
    rewrite bind_Ok. unfold free.
    assert (Hs2 : heap st2 !! a = Some (ValBuf l))
      by (rewrite Hh2; by rewrite lookup_insert_ne).
    rewrite Hs2, !bind_Ok. cbn [data size capacity error].
    assert (Hd3 : heap (set_heap (delete a (heap st2)) st2) !! next st
                  = Some (ValBuf l2)).
    { unfold set_heap. cbn [heap]. rewrite lookup_delete_ne by done.
      rewrite Hh2. apply lookup_insert_eq. }
    destruct (store_block _ (next st) l2 (size arr) (Some v) Hd3 ltac:(lia))
      as (st4 & Hstore & Hd4).
    rewrite Hstore, bind_Ok, to_size_t_small by lia.
    exists st4. split_and!.
    + by rewrite Herr.
    + apply store_heap in Hstore as (l' & _ & ->).
      rewrite lookup_insert_ne by done. unfold set_heap. cbn [heap].
      apply lookup_delete_eq.
    + eexists. split; [exact Hd4|]. rewrite length_insert. split; [lia|].
      apply Htail; [lia|]. apply list_eq. intros j.
      rewrite !lookup_take, Hl2. repeat case_decide; try lia; try done.
      f_equal. lia.
  - unfold realloc_values, slots_of_bytes. rewrite Z.div_mul by discriminate.
    rewrite Hdata, Ha. unfold fresh_block, set_heap. cbn [heap next].
    rewrite !bind_Ok. cbn [data size capacity error].
    unfold store. cbn [heap]. rewrite lookup_insert_eq.
    rewrite length_app, length_take, length_replicate.
    destruct (Z.leb_spec 0 (size arr)) as [_|?]; [|lia].
    destruct (Z.ltb_spec (size arr)
                (Z.of_nat (Z.to_nat new_cap `min` length l
                           + (Z.to_nat new_cap - length l)))) as [_|?]; [|lia].
    cbn [andb]. rewrite bind_Ok, to_size_t_small by lia.
    eexists. split_and!.
    + by rewrite Herr.
    + unfold set_heap. cbn [heap]. rewrite lookup_insert_ne by done.
      rewrite lookup_insert_ne by done. apply lookup_delete_eq.
    + eexists. unfold set_heap. cbn [heap]. split; [apply lookup_insert_eq|].
      rewrite length_insert, length_app, length_take, length_replicate.
      split; [lia|]. apply Htail.
      * rewrite length_app, length_take, length_replicate. lia.
      * rewrite take_app_le by (rewrite length_take; lia).
        rewrite take_take. f_equal. lia.
Qed.

Lemma array_append_grows_witness :
  ∃ st1 c,
    contents packed_state packed_array = Ok c
    ∧ array_append false true packed_state packed_array (Int 3)
      = Ok (st1, mkArray (Ptr (next packed_state)) (size packed_array + 1)
                   (Z.max 4 (capacity packed_array + capacity packed_array / 2)) 0)
    ∧ heap st1 !! 1%positive = None
    ∧ contents st1 (mkArray (Ptr (next packed_state)) (size packed_array + 1)
                      (Z.max 4 (capacity packed_array + capacity packed_array / 2)) 0)
      = Ok (c ++ [Some (Int 3)]).
Proof.
  apply (array_append_grows false packed_state packed_array (Int 3)
           1%positive [Some (Int 1); Some (Int 2)]
           packed_well_formed packed_heap_fresh); reflexivity.
Defined.

(** ** The buffer size computed by [array] *)

(** X6: [array(n)] does not check [n * sizeof(DynamicValue)]: when the
    product wraps around [size_t] to less than one element, the call
    succeeds with [capacity = n] over a buffer without a single slot, and
    the first [array_append] writes out of bounds. *)
Theorem array_capacity_overflow (embedded ok : bool) (indet : Z * Z) (st : state)
  (n : Z) (v : DynamicValue) :
  0 < n < 2 ^ 64 →
  to_size_t (n * sizeof_DynamicValue) < sizeof_DynamicValue →
  array true indet st n
  = ((fresh_block (ValBuf []) st).1, mkArray (Ptr (next st)) 0 n 0)
  ∧ array_append embedded ok (array true indet st n).1 (array true indet st n).2 v
    = Undefined.
Proof.
  intros Hn Hwrap.
  assert (Hslots : slots_of_bytes (to_size_t (n * sizeof_DynamicValue)) = 0%nat).
  { unfold slots_of_bytes. rewrite Z.div_small; [done|].
    split; [|done]. unfold to_size_t. apply Z.mod_pos_bound. lia. }
  assert (Harr : array true indet st n
                 = ((fresh_block (ValBuf []) st).1, mkArray (Ptr (next st)) 0 n 0)).
  { unfold array. destruct (Z.eqb_spec n 0) as [?|_]; [lia|].
    unfold malloc_values. by rewrite Hslots. }
  split; [done|]. rewrite Harr. cbn [fst snd].
  unfold array_append. cbn [error size capacity data Z.eqb negb].
  destruct (Z.leb_spec n 0) as [?|_]; [lia|].
  rewrite bind_Ok. cbn [data size]. unfold store, fresh_block. cbn [fst heap].
  by rewrite lookup_insert_eq.
Qed.

Lemma array_capacity_overflow_witness :
  array true (0, 0) initial_state 461168601842738791
  = ((fresh_block (ValBuf []) initial_state).1,
     mkArray (Ptr (next initial_state)) 0 461168601842738791 0)
  ∧ array_append false true (array true (0, 0) initial_state 461168601842738791).1
      (array true (0, 0) initial_state 461168601842738791).2 (Int 1)
    = Undefined.
Proof.
  apply (array_capacity_overflow false true (0, 0) initial_state
           461168601842738791 (Int 1)); [split; reflexivity | reflexivity].
Defined.

(** ** Releasing arrays *)

Lemma free_dynamic_value_scalar (fuel : nat) (st : state) (v : DynamicValue) :
  scalar v →
  free_dynamic_value (S fuel) st v = Ok (st, mkValue EASS_NULL (verror v) (value v)).
Proof. intros [Hs Ha]. cbn [free_dynamic_value]. by destruct (type v). Qed.

Lemma free_elements_scalars (fuel : nat) (a : addr) (n : nat) :
  ∀ (i : Z) (st : state) (l : list slot),
    heap st !! a = Some (ValBuf l) → 0 ≤ i → i + Z.of_nat n ≤ Z.of_nat (length l) →
    (∀ j s, i ≤ Z.of_nat j < i + Z.of_nat n → l !! j = Some s →
            ∃ v, s = Some v ∧ scalar v) →
    ∃ l',
      free_elements (free_dynamic_value (S fuel)) n i (Ptr a) st
      = Ok (set_heap (<[a := ValBuf l']> (heap st)) st).
Proof.
  induction n as [|n IH]; intros i st l Ha Hi Hlen Hall.
  - exists l. cbn [free_elements]. rewrite insert_id by done. by destruct st.
  - cbn [free_elements].
    destruct (lookup_lt_is_Some_2 l (Z.to_nat i) ltac:(lia)) as [s Hs].
    destruct (Hall (Z.to_nat i) s ltac:(lia) Hs) as (v & -> & Hv).
    rewrite (load_block st a l i (Some v)), bind_Ok by (done || lia).
    rewrite free_dynamic_value_scalar, bind_Ok by done.
    unfold store. rewrite Ha.
    destruct (Z.leb_spec 0 i) as [_|?]; [|lia].
    destruct (Z.ltb_spec i (Z.of_nat (length l))) as [_|?]; [|lia].
    cbn [andb]. rewrite bind_Ok.
    destruct (IH (i + 1)
                (set_heap (<[a := ValBuf (<[Z.to_nat i :=
                   Some (mkValue EASS_NULL (verror v) (value v))]> l)]> (heap st)) st)
                (<[Z.to_nat i := Some (mkValue EASS_NULL (verror v) (value v))]> l))
      as (l' & Hrun); [apply lookup_insert_eq | lia | |..].
    { rewrite length_insert. lia. }
    { intros j s Hj Hjs. rewrite list_lookup_insert_ne in Hjs by lia.
      apply (Hall j s); [lia | done]. }
    exists l'. rewrite Hrun. unfold set_heap. cbn [heap next eass_last_error stdout].
    by rewrite insert_insert_eq.
Qed.

(** X13: [free_dynamic_array] on an array whose elements own no heap
    block returns, releases exactly the buffer and sets [data] to [NULL];
    [size] and [capacity] keep their values. *)
Theorem free_array_of_scalars (fuel : nat) (st : state) (arr : DynamicArray)
  (a : addr) (l : list slot) :
  well_formed st arr a l →
  (∀ j s, Z.of_nat j < size arr → l !! j = Some s → ∃ v, s = Some v ∧ scalar v) →
  free_dynamic_array (S fuel) st arr
  = Ok (set_heap (delete a (heap st)) st, mkArray NULL (size arr) (capacity arr) 0).
Proof.
  intros (Herr & Hdata & Ha & Hlen & Hsize & Hmax) Hall.
  unfold free_dynamic_array, free_dynamic_array_with. rewrite Hdata.
  destruct (free_elements_scalars fuel a (Z.to_nat (size arr)) 0 st l Ha)
    as (l1 & ->); [lia | lia | |].
  { intros j s Hj. apply Hall. lia. }
  cbn [mbind outcome_bind]. unfold free, set_heap. cbn [heap next eass_last_error stdout].
  rewrite lookup_insert_eq. cbn [mbind outcome_bind].
  by rewrite Herr, delete_insert_eq.
Qed.

Lemma free_array_of_scalars_witness :
  free_dynamic_array 1 packed_state packed_array
  = Ok (set_heap (delete 1%positive (heap packed_state)) packed_state,
        mkArray NULL (size packed_array) (capacity packed_array) 0).
Proof.
  apply (free_array_of_scalars 0 packed_state packed_array 1%positive
           [Some (Int 1); Some (Int 2)] packed_well_formed).
  intros [|[|j]] s Hj Hs; cbn in Hj, Hs; try lia.
  - injection Hs as <-. by eexists.
  - injection Hs as <-. by eexists.
Defined.



(** X14: when [free_dynamic_array] returns, [data] is [NULL], the heap has
    only lost blocks, and every block reached from the array (its buffer,
    the texts and buffers of its elements, and so on through nested
    arrays) is no longer live. *)
Theorem free_dynamic_array_releases_reachable (fuel : nat) (st st' : state)
  (arr arr' : DynamicArray) :
  free_dynamic_array fuel st arr = Ok (st', arr') →
  arr' = mkArray NULL (size arr) (capacity arr) (error arr)
  ∧ heap st' ⊆ heap st
  ∧ ∀ b, owns (heap st) (mkValue EASS_ARRAY 0 (PArr arr)) b → heap st' !! b = None.
Proof.
  intros Hrun. unfold free_dynamic_array in Hrun.
  assert (Hval : free_dynamic_value (S fuel) st (mkValue EASS_ARRAY 0 (PArr arr))
                 = Ok (st', mkValue EASS_NULL 0 (PArr arr'))).
  { cbn [free_dynamic_value type value verror]. by rewrite Hrun. }
  split_and!.
  - unfold free_dynamic_array_with in Hrun.
    apply bind_Ok_inv in Hrun as (st1 & _ & Hrun).
    by apply bind_Ok_inv in Hrun as (st2 & _ & [= _ <-]).
  - by apply (free_dynamic_value_shrinks _ _ _ _ _ Hval).
  - intros b Hown.
    destruct (free_dynamic_value_releases_owned _ _ _ _ _ (heap st) (λ _, False) b
                Hval Hown) as [Hgone | (x & [] & _)]; [|done].
    intros x y Hx. by left.
Qed.

Lemma free_dynamic_array_releases_reachable_witness :
  ∃ st' arr',
    free_dynamic_array 2 nested_state (mkArray (Ptr 4%positive) 2 2 0) = Ok (st', arr')
    ∧ heap st' !! 1%positive = None.
Proof.
  eexists _, _. split; [vm_compute; reflexivity|].
  match goal with
  | |- heap ?s !! _ = None =>
      destruct (free_dynamic_array_releases_reachable 2 nested_state s
                  (mkArray (Ptr 4%positive) 2 2 0) (mkArray NULL 2 2 0)
                  ltac:(vm_compute; reflexivity)) as (_ & _ & Hrel)
  end.
  apply Hrel.
  eapply (owns_element _ _ (mkArray (Ptr 4%positive) 2 2 0) 4%positive _ 0
            (mkValue EASS_ARRAY 0 (PArr (mkArray (Ptr 2%positive) 2 2 0))));
    try reflexivity; [cbn; lia|].
  eapply (owns_element _ _ (mkArray (Ptr 2%positive) 2 2 0) 2%positive _ 0
            (mkValue EASS_STRING 0 (PStr (Ptr 1%positive))));
    try reflexivity; [cbn; lia|].
  by apply owns_payload.
Defined.

(** ** What [print] writes *)

(** X16: a [print] call that returns and in which no argument has [error]
    set ends its output with a newline. *)
Theorem print_ends_line (fuel : nat) (format : string) (args : list DynamicValue)
  (st st' : state) :
  Forall (λ val, verror val = 0) args →
  print fuel format args st = Ok st' →
  ends_with_newline (stdout st').
Proof.
  intros Hargs Hrun.
  by apply (print_line_terminated fuel (String.length format) format args st st').
Qed.

Lemma print_ends_line_witness :
  ends_with_newline
    (stdout (mkState ∅ 1%positive (mkError 0 "")
               (String "n" (String "=" (String "5" (String "010" EmptyString)))))).
Proof.
  apply (print_ends_line 1 "n={}" [Int 5] initial_state).
  - repeat constructor.
  - vm_compute. reflexivity.
Defined.

(** X17: a template without ["{}"] is written as it is, followed by a
    newline; the arguments are not looked at and nothing else changes. An
    indexed placeholder such as ["{0}"] is plain text to [print]. *)
Theorem print_plain_text (fuel : nat) (s : string) (args : list DynamicValue)
  (st : state) :
  plain s = true →
  print fuel s args st = Ok (printf newline (printf s st)).
Proof.
  revert st. induction s as [|c rest IH]; intros st Hplain.
  - cbn [print]. unfold printf. cbn [stdout heap next eass_last_error].
    by rewrite string_append_empty_r.
  - cbn [plain] in Hplain.
    apply andb_prop in Hplain as [Hplain Hrest]. apply andb_prop in Hplain as [Hc Hd].
    apply negb_true_iff in Hc. apply negb_true_iff in Hd.
    cbn [print]. rewrite Hc.
    assert (Hlit : print fuel rest args (printf (String c EmptyString) st)
                   = Ok (printf newline (printf (String c rest) st))).
    { rewrite IH by done. unfold printf. cbn [stdout heap next eass_last_error].
      by rewrite (string_append_assoc (stdout st) (String c EmptyString) rest). }
    destruct rest as [|d rest']; [done|]. by rewrite Hd.
Qed.

Lemma print_plain_text_witness :
  print 0 "{0} items" [Int 5] initial_state
  = Ok (printf newline (printf "{0} items" initial_state)).
Proof. apply (print_plain_text 0 "{0} items" [Int 5] initial_state). reflexivity. Defined.

Lemma print_elements_ints (a : addr) (arr : DynamicArray) (zs : list Z) :
  ∀ (i : Z) (st : state) (l : list slot),
    data arr = Ptr a → heap st !! a = Some (ValBuf l) →
    0 ≤ i → i + Z.of_nat (length zs) = size arr → size arr < 2 ^ 64 →
    take (length zs) (drop (Z.to_nat i) l) = (λ z, Some (Int z)) <$> zs →
    print_elements (length zs) i arr st
    = Ok (printf (join ", " (fmt_d <$> zs)) st).
Proof.
  induction zs as [|z zs IH]; intros i st l Hdata Ha Hi Hsize Hmax Htake.
  - cbn. unfold printf. rewrite string_append_empty_r. by destruct st.
  - cbn [length print_elements]. rewrite Hdata.
    assert (Hz : l !! Z.to_nat i = Some (Some (Int z))).
    { apply (f_equal (λ x, x !! 0%nat)) in Htake.
      rewrite lookup_take_lt in Htake by (cbn; lia).
      rewrite lookup_drop, Nat.add_0_r in Htake. done. }
    rewrite (load_block st a l i (Some (Int z))), bind_Ok by done.
    cbn [render_scalar Int type value mbind outcome_bind].
    cbn [length] in Hsize. rewrite to_size_t_small by lia.
    assert (Htail : take (length zs) (drop (Z.to_nat (i + 1)) l)
                    = (λ z, Some (Int z)) <$> zs).
    { apply list_eq. intros j.
      apply (f_equal (λ x, x !! S j)) in Htake. cbn [length] in Htake.
      rewrite fmap_cons, lookup_cons in Htake.
      rewrite lookup_take, lookup_drop in Htake |- *. rewrite <- Htake.
      repeat case_decide; try lia; [f_equal; lia | done]. }
    destruct zs as [|z' zs'].
    + destruct (Z.ltb_spec i (size arr - 1)) as [?|_]; [cbn [length] in Hsize; lia|].
      cbn [print_elements length fmap list_fmap join]. done.
    + destruct (Z.ltb_spec i (size arr - 1)) as [_|?]; [|cbn [length] in Hsize; lia].
      rewrite (IH (i + 1) _ l); try done; try lia.
      unfold printf. cbn [stdout heap next eass_last_error fmap list_fmap join].
      by rewrite !string_append_assoc.
Qed.

Lemma free_dynamic_value_array (fuel : nat) (st : state) (arr : DynamicArray) :
  free_dynamic_value (S fuel) st (mkValue EASS_ARRAY 0 (PArr arr))
  = ('(st1, a1) ← free_dynamic_array fuel st arr;
     Ok (st1, mkValue EASS_NULL 0 (PArr a1))).
Proof. reflexivity. Qed.

(** X18: [print("{}", v)] for an array of integers writes
    [Array[a, b, c]] and a newline, and releases the array's buffer. *)
Theorem print_array_of_ints (fuel : nat) (st : state) (arr : DynamicArray)
  (a : addr) (l : list slot) (zs : list Z) :
  well_formed st arr a l →
  contents st arr = Ok ((λ z, Some (Int z)) <$> zs) →
  print (S (S fuel)) "{}" [mkValue EASS_ARRAY 0 (PArr arr)] st
  = Ok (mkState (delete a (heap st)) (next st) (eass_last_error st)
          (String.append (stdout st)
             (String.append "Array["
                (String.append (join ", " (fmt_d <$> zs)) (String.append "]" newline))))).
Proof.
  intros Hwf Hc. pose proof (well_formed_bounds _ _ _ _ Hwf) as Hb.
  rewrite (well_formed_contents _ _ _ _ Hwf) in Hc. injection Hc as Hc.
  pose proof Hwf as (Herr & Hdata & Ha & Hlen & Hsize & Hmax).
  assert (Hn : Z.to_nat (size arr) = length zs).
  { apply (f_equal length) in Hc. rewrite length_fmap, length_take in Hc. lia. }
  rewrite (print_placeholder _ EmptyString []) by done.
  unfold print_value. cbn [type value]. rewrite Hn.
  rewrite (print_elements_ints a arr zs 0 _ l); try done; try lia.
  2: { by rewrite <- Hn. }
  rewrite !bind_Ok, free_dynamic_value_array.
  rewrite (free_array_of_scalars fuel _ arr a l).
  - cbn [mbind outcome_bind print]. unfold printf, set_heap.
    cbn [heap next eass_last_error stdout]. by rewrite !string_append_assoc.
  - done.
  - intros j s Hj Hs. apply (f_equal (λ x, x !! j)) in Hc.
    rewrite lookup_take_lt, Hs, list_lookup_fmap in Hc by lia.
    destruct (zs !! j) as [z|]; [|done]. injection Hc as ->.
    exists (Int z). by split.
Qed.

Lemma print_array_of_ints_witness :
  print 2 "{}" [mkValue EASS_ARRAY 0 (PArr packed_array)] packed_state
  = Ok (mkState (delete 1%positive (heap packed_state)) (next packed_state)
          (eass_last_error packed_state)
          (String.append (stdout packed_state)
             (String.append "Array["
                (String.append (join ", " (fmt_d <$> [1; 2]))
                   (String.append "]" newline))))).
Proof.
  apply (print_array_of_ints 0 packed_state packed_array 1%positive
           [Some (Int 1); Some (Int 2)] [1; 2] packed_well_formed).
  reflexivity.
Defined.

Lemma print_text_witness :
  print 1 "{}" [text_value] text_state
  = Ok (mkState (delete 1%positive (heap text_state)) (next text_state)
          (eass_last_error text_state)
          (String.append (String.append (stdout text_state) (c_str "hi")) newline)).
Proof. apply (print_text 0 text_state 1%positive "hi"). reflexivity. Defined.

(** ** One placeholder in [string_format] *)

Lemma count_pass_prefix (pre : string) :
  ∀ (rest : string) (args : list DynamicValue) (arg_count k : Z),
    literal_only pre = true → no_placeholder_start rest →
    0 ≤ k → k + Z.of_nat (String.length pre) < 2 ^ 64 →
    count_pass (String.append pre rest) args arg_count k
    = count_pass rest args arg_count (k + Z.of_nat (String.length pre)).
Proof.
  induction pre as [|c pre IH]; intros rest args arg_count k H Hrest Hk Hlen.
  - change (String.append EmptyString rest) with rest. cbn [String.length].
    by rewrite Z.add_0_r.
  - apply literal_only_inv in H as (Hc & Hpre & Hd).
    change (String.append (String c pre) rest) with (String c (String.append pre rest)).
    cbn [count_pass String.length] in Hlen |- *. rewrite Hc.
    assert (Hlit : count_pass (String.append pre rest) args arg_count (to_size_t (k + 1))
                   = count_pass rest args arg_count
                       (k + Z.of_nat (S (String.length pre)))).
    { rewrite to_size_t_small by lia. rewrite IH by (done || lia). f_equal. lia. }
    destruct pre as [|d pre'].
    + change (String.append EmptyString rest) with rest in Hlit |- *.
      destruct rest as [|d rest']; [done|].
      destruct Hrest as [-> ->].
      destruct (Ascii.eqb c "{" && negb (is_nul d)); exact Hlit.
    + change (String.append (String d pre') rest)
        with (String d (String.append pre' rest)) in Hlit |- *.
      cbv match. destruct (Ascii.eqb c "{" && negb (is_nul d)); [|done].
      by destruct (Hd eq_refl) as [-> ->].
Qed.

Lemma format_pass_prefix (cap arg_count : Z) (st : state) (pre : string) :
  ∀ (rest : string) (args : list DynamicValue) (arg_values : list arg_slot)
    (current_arg : Z) (out : string),
    literal_only pre = true → no_placeholder_start rest →
    Z.of_nat (String.length out) + Z.of_nat (String.length pre) + 1 ≤ cap →
    format_pass cap arg_count st (String.append pre rest) args arg_values current_arg out
    = format_pass cap arg_count st rest args arg_values current_arg
        (String.append out pre).
Proof.
  induction pre as [|c pre IH]; intros rest args arg_values current_arg out H Hrest Hcap.
  - change (String.append EmptyString rest) with rest.
    by rewrite string_append_empty_r.
  - apply literal_only_inv in H as (Hc & Hpre & Hd).
    change (String.append (String c pre) rest) with (String c (String.append pre rest)).
    cbn [format_pass String.length] in Hcap |- *. rewrite Hc.
    assert (Hlit : (out1 ← emit cap (String c EmptyString) out;
                    format_pass cap arg_count st (String.append pre rest) args
                      arg_values current_arg out1)
                   = format_pass cap arg_count st rest args arg_values current_arg
                       (String.append out (String c pre))).
    { unfold emit. cbn [String.length].
      destruct (Z.leb_spec (Z.of_nat (String.length out) + Z.of_nat 1 + 1) cap)
        as [_|?]; [|lia].
      rewrite bind_Ok, IH; [|done|done|].
      - by rewrite string_append_assoc.
      - rewrite string_length_append. cbn [String.length]. lia. }
    destruct pre as [|d pre'].
    + change (String.append EmptyString rest) with rest in Hlit |- *.
      destruct rest as [|d rest']; [done|].
      destruct Hrest as [-> ->].
      destruct (Ascii.eqb c "{" && negb (is_nul d)); exact Hlit.
    + change (String.append (String d pre') rest)
        with (String d (String.append pre' rest)) in Hlit |- *.
      cbv match. destruct (Ascii.eqb c "{" && negb (is_nul d)); [|done].
      by destruct (Hd eq_refl) as [-> ->].
Qed.

Lemma format_pass_suffix (cap arg_count : Z) (st : state) (s : string) :
  ∀ (args : list DynamicValue) (arg_values : list arg_slot) (current_arg : Z)
    (out : string),
    literal_only s = true →
    format_pass cap arg_count st s args arg_values current_arg out = Undefined
    ∨ format_pass cap arg_count st s args arg_values current_arg out
      = Ok (Some (String.append out s, arg_values)).
Proof.
  induction s as [|c rest IH]; intros args arg_values current_arg out H.
  - right. cbn [format_pass]. by rewrite string_append_empty_r.
  - apply literal_only_inv in H as (Hc & Hrest & Hd).
    cbn [format_pass]. rewrite Hc.
    assert (Hlit : (out1 ← emit cap (String c EmptyString) out;
                    format_pass cap arg_count st rest args arg_values current_arg out1)
                   = Undefined
                   ∨ (out1 ← emit cap (String c EmptyString) out;
                      format_pass cap arg_count st rest args arg_values current_arg out1)
                     = Ok (Some (String.append out (String c rest), arg_values))).
    { unfold emit. destruct (_ <=? _); [|by left]. rewrite bind_Ok.
      destruct (IH args arg_values current_arg
                  (String.append out (String c EmptyString)) Hrest) as [->| ->];
        [by left | right]. by rewrite string_append_assoc. }
    destruct rest as [|d rest']; [done|].
    destruct (Ascii.eqb c "{" && negb (is_nul d)); [|done].
    by destruct (Hd eq_refl) as [-> ->].
Qed.

Lemma count_pass_one_placeholder (pre post : string) (val : DynamicValue) :
  literal_only pre = true → literal_only post = true →
  Z.of_nat (String.length pre) + Z.of_nat (String.length post) + 129 < 2 ^ 64 →
  count_pass (one_placeholder pre post) [val] 0 0
  = Ok (1, Z.of_nat (String.length pre) + 128 + Z.of_nat (String.length post)).
Proof.
  intros Hpre Hpost Hlen. unfold one_placeholder.
  rewrite count_pass_prefix; [|done|done|lia|lia].
  rewrite Z.add_0_l. cbn [count_pass].
  change (is_nul "{") with false. change (is_nul "}") with false.
  cbn [Ascii.eqb Bool.eqb andb negb].
  change (to_size_t (0 + 1)) with 1. rewrite to_size_t_small by lia.
  rewrite <- (string_append_empty_r post) at 1.
  rewrite count_pass_prefix; [|done|done|lia|lia].
  cbn [count_pass]. reflexivity.
Qed.

Lemma format_pass_one_placeholder (cap : Z) (st : state) (pre post : string)
  (val : DynamicValue) :
  literal_only pre = true →
  Z.of_nat (String.length pre) + 1 ≤ cap →
  format_pass cap 1 st (one_placeholder pre post) [val] [ArgFresh] 0 EmptyString
  = (r ← format_placeholder cap st val pre;
     match r with
     | None => Ok None
     | Some out1 => format_pass cap 1 st post [] [ArgVal val] 1 out1
     end).
Proof.
  intros Hpre Hcap. unfold one_placeholder.
  rewrite format_pass_prefix; [|done|done|cbn [String.length]; lia].
  change (String.append EmptyString pre) with pre.
  reflexivity.
Qed.

Lemma render_scalar_fresh (st : state) (b : block) (val : DynamicValue) (text : string) :
  heap_fresh st → render_scalar st val = Ok text →
  render_scalar (fresh_block b st).1 val = Ok text.
Proof.
  intros Hfresh. unfold render_scalar, load_str, fresh_block. cbn [fst heap].
  destruct (type val); try done.
  destruct (value val) as [| |[|a]|]; try done.
  destruct (heap st !! a) as [blk|] eqn:Ha; [|done].
  rewrite lookup_insert_ne, Ha; [done|].
  intros <-. rewrite (Hfresh (next st)) in Ha by lia. done.
Qed.

Lemma format_pass_literal_end (cap arg_count : Z) (st : state) (s : string)
  (args : list DynamicValue) (arg_values : list arg_slot) (current_arg : Z)
  (out : string) :
  literal_only s = true →
  Z.of_nat (String.length out) + Z.of_nat (String.length s) + 1 ≤ cap →
  format_pass cap arg_count st s args arg_values current_arg out
  = Ok (Some (String.append out s, arg_values)).
Proof.
  intros Hs Hcap.
  pose proof (format_pass_prefix cap arg_count st s EmptyString args arg_values
                current_arg out Hs I Hcap) as H.
  by rewrite string_append_empty_r in H.
Qed.

Lemma string_format_one_placeholder (fuel : nat) (pre post : string)
  (val : DynamicValue) (st : state) :
  literal_only pre = true → literal_only post = true →
  Z.of_nat (String.length pre) + Z.of_nat (String.length post) + 129 < 2 ^ 64 →
  string_format fuel true true (one_placeholder pre post) [val] st
  = (let cap := Z.of_nat (String.length pre) + 128 + Z.of_nat (String.length post) + 1 in
     let st1 := (fresh_block (CharBuf EmptyString) st).1 in
     r ← (r ← format_placeholder cap st1 val pre;
          match r with
          | None => Ok None
          | Some out1 => format_pass cap 1 st1 post [] [ArgVal val] 1 out1
          end);
     match r with
     | None => st2 ← free (Ptr (next st)) st1; Ok (st2, NULL)
     | Some (out, arg_values1) =>
         out1 ← emit cap EmptyString out;
         st2 ← free_arg_values fuel arg_values1 st1;
         match heap st2 !! next st with
         | Some _ => Ok (set_heap (<[next st := CharBuf out1]> (heap st2)) st2,
                         Ptr (next st))
         | None => Undefined
         end
     end).
Proof.
  intros Hpre Hpost Hlen. unfold string_format.
  rewrite count_pass_one_placeholder by done. rewrite bind_Ok.
  rewrite to_size_t_small by lia.
  unfold fresh_block. cbn [fst].
  change (alloc_arg_values true 1) with (Ok [ArgFresh]). rewrite bind_Ok.
  rewrite format_pass_one_placeholder by (done || lia).
  reflexivity.
Qed.

(** X21: [string_format] on [pre{}post] with an integer, float or text
    argument whose rendering has at most 128 characters returns a fresh
    buffer holding [pre], the rendering and [post], and releases the
    argument's text. *)
Theorem format_one_placeholder (fuel : nat) (pre post text : string)
  (val : DynamicValue) (st : state) :
  literal_only pre = true → literal_only post = true →
  Z.of_nat (String.length pre) + Z.of_nat (String.length post) + 129 < 2 ^ 64 →
  heap_fresh st →
  verror val = 0 → type val ≠ EASS_ARRAY → type val ≠ EASS_NULL →
  render_scalar st val = Ok text →
  (String.length text ≤ 128)%nat →
  ∃ st',
    string_format (S fuel) true true (one_placeholder pre post) [val] st
    = Ok (st', Ptr (next st))
    ∧ heap st' !! next st
      = Some (CharBuf (String.append pre (String.append text post)))
    ∧ released st' val.
Proof.
  intros Hpre Hpost Hlen Hfresh Herr Harr Hnull Htext Hfit.
  rewrite string_format_one_placeholder by done. cbv zeta.
  set (cap := Z.of_nat (String.length pre) + 128 + Z.of_nat (String.length post) + 1).
  pose proof (render_scalar_fresh st (CharBuf EmptyString) val text Hfresh Htext) as Htext1.
  set (st1 := (fresh_block (CharBuf EmptyString) st).1) in *.
  assert (Hvalue : format_value cap st1 val pre
                   = Ok (Some (String.append pre text))).
  { unfold format_value. destruct (type val); try done.
    all: rewrite Htext1, bind_Ok; unfold emit.
    all: destruct (Z.leb_spec (Z.of_nat (String.length pre)
                               + Z.of_nat (String.length text) + 1) cap) as [_|?];
      [done | unfold cap in *; lia]. }
  unfold format_placeholder. rewrite Herr. cbn [Z.eqb negb].
  rewrite Hvalue, bind_Ok.
  rewrite format_pass_literal_end; [|done|].
  2: { rewrite string_length_append. unfold cap. lia. }
  rewrite bind_Ok. rewrite string_append_assoc.
  unfold emit. cbn [String.length].
  destruct (Z.leb_spec
              (Z.of_nat (String.length (String.append pre (String.append text post)))
               + Z.of_nat 0 + 1) cap) as [_|Hbad].
  2: { rewrite !string_length_append in Hbad. unfold cap in Hbad. lia. }
  rewrite bind_Ok, string_append_empty_r. cbn [free_arg_values].
  assert (Hown : heap st1 !! next st = Some (CharBuf EmptyString)).
  { unfold st1, fresh_block. cbn [fst heap]. apply lookup_insert_eq. }
  destruct (type val) eqn:Htype; try done.
  - cbn [free_dynamic_value]. rewrite Htype, !bind_Ok. rewrite Hown.
    eexists. split; [reflexivity|]. split.
    + unfold set_heap. cbn [heap]. apply lookup_insert_eq.
    + intros a Ha. unfold owned_block in Ha. by rewrite Htype in Ha.
  - cbn [free_dynamic_value]. rewrite Htype, !bind_Ok. rewrite Hown.
    eexists. split; [reflexivity|]. split.
    + unfold set_heap. cbn [heap]. apply lookup_insert_eq.
    + intros a Ha. unfold owned_block in Ha. by rewrite Htype in Ha.
  - cbn [free_dynamic_value]. rewrite Htype.
    unfold render_scalar in Htext1. rewrite Htype in Htext1.
    destruct (value val) as [| |[|a]|] eqn:Hvalue'; try done.
    unfold load_str in Htext1. unfold free.
    destruct (heap st1 !! a) as [blk|] eqn:Ha; [|done].
    assert (Hne : a ≠ next st).
    { intros ->. rewrite Hown in Ha. injection Ha as <-.
      unfold render_scalar, load_str in Htext. rewrite Htype, Hvalue' in Htext.
      by rewrite (Hfresh (next st)) in Htext by lia. }
    rewrite !bind_Ok. unfold set_heap. cbn [heap next eass_last_error stdout].
    rewrite lookup_delete_ne, Hown by done.
    eexists. split; [reflexivity|]. cbn [heap]. split.
    + apply lookup_insert_eq.
    + intros a' Ha'. unfold owned_block in Ha'. rewrite Htype, Hvalue' in Ha'.
      injection Ha' as <-. cbn [heap]. rewrite lookup_insert_ne by done.
      apply lookup_delete_eq.
Qed.

Lemma format_one_placeholder_witness :
  ∃ st',
    string_format 1 true true (one_placeholder "<" ">") [text_value] text_state
    = Ok (st', Ptr (next text_state))
    ∧ heap st' !! next text_state
      = Some (CharBuf (String.append "<" (String.append "hi" ">")))
    ∧ released st' text_value.
Proof.
  apply (format_one_placeholder 0 "<" ">" "hi" text_value text_state);
    try reflexivity; try done; try (cbn; lia).
  intros a Ha. cbn in Ha |- *. apply lookup_singleton_ne. lia.
Defined.

(** X22: the buffer of [string_format] allows 128 characters for each
    placeholder: with an argument whose rendering is longer, the writes of
    a call on [pre{}post] run over the end of the buffer. *)
Theorem format_long_argument_overflows (fuel : nat) (pre post text : string)
  (val : DynamicValue) (st : state) :
  literal_only pre = true → literal_only post = true →
  Z.of_nat (String.length pre) + Z.of_nat (String.length post) + 129 < 2 ^ 64 →
  heap_fresh st →
  verror val = 0 → type val ≠ EASS_ARRAY → type val ≠ EASS_NULL →
  render_scalar st val = Ok text →
  (128 < String.length text)%nat →
  string_format fuel true true (one_placeholder pre post) [val] st = Undefined.
Proof.
  intros Hpre Hpost Hlen Hfresh Herr Harr Hnull Htext Hlong.
  rewrite string_format_one_placeholder by done. cbv zeta.
  set (cap := Z.of_nat (String.length pre) + 128 + Z.of_nat (String.length post) + 1).
  pose proof (render_scalar_fresh st (CharBuf EmptyString) val text Hfresh Htext) as Htext1.
  set (st1 := (fresh_block (CharBuf EmptyString) st).1) in *.
  assert (Hvalue : format_value cap st1 val pre = Undefined
                   ∨ format_value cap st1 val pre
                     = Ok (Some (String.append pre text))).
  { unfold format_value. destruct (type val); try done.
    all: rewrite Htext1, bind_Ok; unfold emit.
    all: destruct (_ <=? _); [by right | by left]. }
  unfold format_placeholder. rewrite Herr. cbn [Z.eqb negb].
  destruct Hvalue as [-> | ->]; [done|]. rewrite bind_Ok.
  destruct (format_pass_suffix cap 1 st1 post [] [ArgVal val] 1
              (String.append pre text) Hpost) as [-> | ->]; [done|].
  rewrite bind_Ok. unfold emit.
  destruct (Z.leb_spec
              (Z.of_nat (String.length (String.append (String.append pre text) post))
               + Z.of_nat (String.length EmptyString) + 1) cap) as [Hbad|_]; [|done].
  rewrite !string_length_append in Hbad. cbn [String.length] in Hbad.
  unfold cap in Hbad. lia.
Qed.

Lemma format_long_argument_overflows_witness :
  string_format 1 true true (one_placeholder "<" ">") [text_value] long_text_state
  = Undefined.
Proof.
  apply (format_long_argument_overflows 1 "<" ">" long_text text_value long_text_state);
    try reflexivity; try done; try (cbn; lia).
  intros a Ha. cbn in Ha |- *. apply lookup_singleton_ne. lia.
Defined.

(** X23: [string_format] on [pre{}post] with an argument that has [error]
    set returns [NULL]; the output buffer is released again, the argument
    is not, and the error slot is left as it was. *)
Theorem format_failed_argument (fuel : nat) (pre post : string)
  (val : DynamicValue) (st : state) :
  literal_only pre = true → literal_only post = true →
  Z.of_nat (String.length pre) + Z.of_nat (String.length post) + 129 < 2 ^ 64 →
  heap_fresh st →
  verror val ≠ 0 →
  (String.length (fmt_error (eass_last_error st)) ≤ 128 + String.length post)%nat →
  ∃ st',
    string_format fuel true true (one_placeholder pre post) [val] st = Ok (st', NULL)
    ∧ heap st' = heap st
    ∧ eass_last_error st' = eass_last_error st.
Proof.
  intros Hpre Hpost Hlen Hfresh Herr Hfit.
  rewrite string_format_one_placeholder by done. cbv zeta.
  unfold format_placeholder. apply Z.eqb_neq in Herr. rewrite Herr. cbn [negb].
  unfold error_write_fits, eass_get_last_error, fresh_block.
  cbn [fst eass_last_error heap next].
  destruct (Z.leb_spec
              (Z.of_nat (String.length pre)
               + Z.min (Z.of_nat (String.length (fmt_error (eass_last_error st))))
                   (Z.of_nat (String.length pre) + 128 + Z.of_nat (String.length post)
                    + 1 - 1) + 1)
              (Z.of_nat (String.length pre) + 128 + Z.of_nat (String.length post) + 1))
    as [_|?]; [|lia].
  rewrite !bind_Ok. unfold free. cbn [heap]. rewrite lookup_insert_eq, bind_Ok.
  eexists. split; [reflexivity|]. unfold set_heap. cbn [heap eass_last_error].
  split; [|done]. rewrite delete_insert_eq. apply delete_id. apply Hfresh. lia.
Qed.

Lemma format_failed_argument_witness :
  ∃ st',
    string_format 0 true true (one_placeholder "<" ">") [invalid_value] initial_state
    = Ok (st', NULL)
    ∧ heap st' = heap initial_state
    ∧ eass_last_error st' = eass_last_error initial_state.
Proof.
  apply (format_failed_argument 0 "<" ">" invalid_value initial_state);
    try reflexivity.
  - intros a Ha. apply lookup_empty.
  - discriminate.
  - apply Nat.leb_le. vm_compute. reflexivity.
Defined.

(** ** [printhd] *)





(** ** [input] *)

Lemma digits_value_uint (d : Decimal.uint) :
  ∀ acc, digits_value (NilEmpty.string_of_uint d) acc = uint_value d acc.
Proof. induction d; intros acc; cbn [NilEmpty.string_of_uint uint_value]; try done;
  cbn [digits_value]; apply IHd. Qed.

Lemma skip_digits_uint (d : Decimal.uint) :
  skip_digits (NilEmpty.string_of_uint d) = EmptyString.
Proof. induction d; try done; cbn [NilEmpty.string_of_uint skip_digits]; apply IHd. Qed.

Lemma c_str_uint (d : Decimal.uint) (rest : string) :
  c_str (String.append (NilEmpty.string_of_uint d) rest)
  = String.append (NilEmpty.string_of_uint d) (c_str rest).
Proof.
  induction d; try done; cbn [NilEmpty.string_of_uint];
    match goal with
    | |- c_str (String.append (String ?c ?s) ?r) = _ =>
        change (String.append (String c s) r) with (String c (String.append s r));
        change (String.append (String c s) (c_str r))
          with (String c (String.append s (c_str r)))
    end; cbn [c_str]; by rewrite IHd.
Qed.

Lemma uint_value_acc (d : Decimal.uint) :
  ∀ p, uint_value d (Z.pos p) = Z.pos (Pos.of_uint_acc d p).
Proof.
  induction d; intros p; cbn [uint_value Pos.of_uint_acc]; try done;
    rewrite <- IHd; f_equal; lia.
Qed.

Lemma uint_value_of_uint (d : Decimal.uint) :
  uint_value d 0 = Z.of_N (Pos.of_uint d).
Proof.
  induction d; cbn [uint_value Pos.of_uint]; try done;
    rewrite Z.mul_0_l, Z.add_0_l; try done; apply uint_value_acc.
Qed.

Lemma string_of_uint_head (d : Decimal.uint) :
  d ≠ Decimal.Nil →
  ∃ c r, NilEmpty.string_of_uint d = String c r
         ∧ isdigit c = true ∧ isspace c = false
         ∧ Ascii.eqb c "-" = false ∧ Ascii.eqb c "+" = false
         ∧ is_nul c = false.
Proof. destruct d; [done|..]; intros _; by eexists _, _. Qed.

Lemma chop_newline_append (s : string) :
  chop_newline (String.append s newline) = s.
Proof.
  induction s as [|c r IH]; [done|].
  change (String.append (String c r) newline) with (String c (String.append r newline)).
  cbn [chop_newline]. rewrite IH.
  destruct r as [|c' r']; [done|].
  by change (String.append (String c' r') newline)
       with (String c' (String.append r' newline)).
Qed.

Lemma fmt_d_pos (p : positive) :
  fmt_d (Z.pos p) = NilEmpty.string_of_uint (Pos.to_uint p).
Proof.
  unfold fmt_d. cbn [Z.to_int NilZero.string_of_int]. unfold NilZero.string_of_uint.
  pose proof (DecimalPos.Unsigned.to_uint_nonnil p). by destruct (Pos.to_uint p).
Qed.

Lemma fmt_d_neg (p : positive) :
  fmt_d (Z.neg p) = String "-" (NilEmpty.string_of_uint (Pos.to_uint p)).
Proof.
  unfold fmt_d. cbn [Z.to_int NilZero.string_of_int]. unfold NilZero.string_of_uint.
  pose proof (DecimalPos.Unsigned.to_uint_nonnil p). by destruct (Pos.to_uint p).
Qed.

Lemma digits_value_to_uint (p : positive) :
  digits_value (NilEmpty.string_of_uint (Pos.to_uint p)) 0 = Z.pos p.
Proof.
  by rewrite digits_value_uint, uint_value_of_uint, DecimalPos.Unsigned.of_to.
Qed.

Lemma strtol_endptr_decimal (z : Z) :
  strtol_endptr (fmt_d z) = (clamp_long z, EmptyString).
Proof.
  destruct z as [|p|p].
  - reflexivity.
  - rewrite fmt_d_pos.
    destruct (string_of_uint_head (Pos.to_uint p)
                (DecimalPos.Unsigned.to_uint_nonnil p))
      as (c & r & Hs & Hdigit & Hspace & Hminus & Hplus & _).
    pose proof (digits_value_to_uint p) as Hv.
    pose proof (skip_digits_uint (Pos.to_uint p)) as Hrest.
    rewrite Hs in Hv, Hrest |- *.
    unfold strtol_endptr. cbn [skip_spaces]. rewrite Hspace, Hminus, Hplus, Hdigit.
    rewrite Hv, Hrest. f_equal. unfold clamp_long, LONG_MIN, LONG_MAX. lia.
  - rewrite fmt_d_neg.
    destruct (string_of_uint_head (Pos.to_uint p)
                (DecimalPos.Unsigned.to_uint_nonnil p))
      as (c & r & Hs & Hdigit & Hspace & Hminus & Hplus & _).
    pose proof (digits_value_to_uint p) as Hv.
    pose proof (skip_digits_uint (Pos.to_uint p)) as Hrest.
    rewrite Hs in Hv, Hrest |- *.
    unfold strtol_endptr. cbn [skip_spaces].
    change (isspace "-") with false. cbv iota.
    change (Ascii.eqb "-" "-") with true. cbv iota.
    rewrite Hdigit, Hv, Hrest. f_equal.
    unfold clamp_long, LONG_MIN, LONG_MAX. lia.
Qed.

Lemma fmt_d_head (z : Z) :
  ∃ c r, fmt_d z = String c r ∧ is_nul c = false.
Proof.
  destruct z as [|p|p].
  - by eexists _, _.
  - rewrite fmt_d_pos.
    destruct (string_of_uint_head (Pos.to_uint p)
                (DecimalPos.Unsigned.to_uint_nonnil p))
      as (c & r & Hs & _ & _ & _ & _ & Hnul).
    by exists c, r.
  - rewrite fmt_d_neg. by eexists _, _.
Qed.

Lemma c_str_fmt_d (z : Z) (rest : string) :
  c_str (String.append (fmt_d z) rest) = String.append (fmt_d z) (c_str rest).
Proof.
  destruct z as [|p|p].
  - reflexivity.
  - rewrite fmt_d_pos. apply c_str_uint.
  - rewrite fmt_d_neg.
    change (String.append (String "-" ?s) rest) with (String "-" (String.append s rest)).
    cbn [c_str]. change (is_nul "-") with false. cbv iota.
    by rewrite c_str_uint.
Qed.

Lemma input_line (strtof : string → c_float * string) (ok_dup : bool)
  (prompt line : string) (st : state) (c : ascii) (r : string) :
  chop_newline (c_str line) = String c r →
  input strtof (GetlineLine line) ok_dup prompt st
  = (let text := String c r in
     let st1 := (fresh_block (CharBuf line) (printf (c_str prompt) st)).1 in
     let st2 := set_heap (<[next st := CharBuf text]> (heap st1)) st1 in
     let '(int_val, endptr) := strtol_endptr text in
     match endptr with
     | EmptyString =>
         st3 ← free (Ptr (next st)) st2;
         Ok (st3, mkValue EASS_INT 0 (PInt (to_int int_val)))
     | String _ _ =>
         let '(float_val, endptr) := strtof text in
         match endptr with
         | EmptyString =>
             st3 ← free (Ptr (next st)) st2;
             Ok (st3, mkValue EASS_FLOAT 0 (PFloat float_val))
         | String _ _ =>
             let '(st3, s) := strdup ok_dup text st2 in
             Ok (st3, mkValue EASS_STRING 0 (PStr s))
         end
     end).
Proof.
  intros Htext. unfold input, fresh_block. cbn [fst next printf].
  destruct (c_str line) as [|c0 r0] eqn:Hline; [done|].
  rewrite Htext. reflexivity.
Qed.

(** X25: on a line that is the decimal numeral of [z], [input] writes the
    prompt and returns the integer [z], brought into the range of [long]
    by [strtol] and then converted to [int]; the line buffer is
    released. *)
Theorem input_reads_integer (strtof : string → c_float * string) (ok_dup : bool)
  (prompt : string) (z : Z) (st : state) :
  heap_fresh st →
  input strtof (GetlineLine (String.append (fmt_d z) newline)) ok_dup prompt st
  = Ok (mkState (heap st) (Pos.succ (next st)) (eass_last_error st)
          (String.append (stdout st) (c_str prompt)),
        Int (to_int (clamp_long z))).
Proof.
  intros Hfresh.
  destruct (fmt_d_head z) as (c & r & Hz & _).
  rewrite (input_line _ _ _ _ _ c r).
  2: { rewrite c_str_fmt_d. change (c_str newline) with newline.
       by rewrite chop_newline_append. }
  cbv zeta. rewrite <- Hz, strtol_endptr_decimal.
  unfold free, fresh_block, set_heap, printf. cbn [fst heap next eass_last_error stdout].
  rewrite lookup_insert_eq, bind_Ok. unfold Int. do 3 f_equal.
  rewrite insert_insert_eq, delete_insert_eq. apply delete_id. apply Hfresh. lia.
Qed.

Lemma input_reads_integer_witness :
  input strtof_nothing (GetlineLine (String.append (fmt_d 42) newline)) true "n? "
    initial_state
  = Ok (mkState (heap initial_state) (Pos.succ (next initial_state))
          (eass_last_error initial_state)
          (String.append (stdout initial_state) (c_str "n? ")),
        Int (to_int (clamp_long 42))).
Proof.
  apply (input_reads_integer strtof_nothing true "n? " 42 initial_state).
  intros a Ha. apply lookup_empty.
Defined.

Lemma c_str_append_newline (s : string) :
  c_str s = s → c_str (String.append s newline) = String.append s newline.
Proof.
  induction s as [|c s IH]; [done|]. cbn [c_str].
  change (String.append (String c s) newline) with (String c (String.append s newline)).
  cbn [c_str]. destruct (is_nul c); [done|]. intros [= Hs]. by rewrite IH.
Qed.

(** X26: on a line that neither [strtol] nor [strtof] converts to its
    end, [input] returns a copy of the text without its newline, and the
    buffer [getline] allocated is still live when it returns. *)
Theorem input_text_keeps_buffer (strtof : string → c_float * string)
  (prompt text : string) (st : state) :
  text ≠ EmptyString → c_str text = text →
  (strtol_endptr text).2 ≠ EmptyString → (strtof text).2 ≠ EmptyString →
  ∃ st',
    input strtof (GetlineLine (String.append text newline)) true prompt st
    = Ok (st', mkValue EASS_STRING 0 (PStr (Ptr (Pos.succ (next st)))))
    ∧ heap st' !! Pos.succ (next st) = Some (CharBuf text)
    ∧ heap st' !! next st = Some (CharBuf text).
Proof.
  intros Hne Hstr Hlong Hfloat.
  destruct text as [|c r]; [done|].
  rewrite (input_line _ _ _ _ _ c r).
  2: { rewrite c_str_append_newline by done. apply chop_newline_append. }
  cbv zeta.
  destruct (strtol_endptr (String c r)) as [int_val [|c1 r1]]; [done|].
  destruct (strtof (String c r)) as [float_val [|c2 r2]]; [done|].
  unfold strdup, fresh_block, set_heap, printf.
  cbn [fst heap next eass_last_error stdout].
  eexists. split; [reflexivity|]. cbn [heap]. split.
  - apply lookup_insert_eq.
  - rewrite lookup_insert_ne by lia. apply lookup_insert_eq.
Qed.

Lemma input_text_keeps_buffer_witness :
  ∃ st',
    input strtof_nothing (GetlineLine (String.append "abc" newline)) true "? "
      initial_state
    = Ok (st', mkValue EASS_STRING 0 (PStr (Ptr (Pos.succ (next initial_state)))))
    ∧ heap st' !! Pos.succ (next initial_state) = Some (CharBuf "abc")
    ∧ heap st' !! next initial_state = Some (CharBuf "abc").
Proof.
  apply (input_text_keeps_buffer strtof_nothing "? " "abc" initial_state);
    (reflexivity || discriminate).
Defined.

(** X27: when [getline] fails, [input] returns an empty text with [error]
    set and records [errno] with the message ["getline failed"]; a buffer
    [getline] allocated before failing is still live. *)
Theorem input_getline_failure (strtof : string → c_float * string)
  (errno : Z) (allocated : bool) (prompt : string) (st : state) :
  ∃ st',
    input strtof (GetlineFailed errno allocated) true prompt st
    = Ok (st', mkValue EASS_STRING 1
                 (PStr (Ptr (if allocated then Pos.succ (next st) else next st))))
    ∧ load_str st' (Ptr (if allocated then Pos.succ (next st) else next st))
      = Ok EmptyString
    ∧ eass_get_last_error st' = mkError errno "getline failed"
    ∧ stdout st' = String.append (stdout st) (c_str prompt)
    ∧ (allocated = true → is_Some (heap st' !! next st)).
Proof.
  unfold input, strdup, fresh_block, _set_error, printf, eass_get_last_error.
  destruct allocated; cbn [fst heap next eass_last_error stdout];
    (eexists; split; [reflexivity|]); unfold load_str;
    cbn [heap next eass_last_error stdout]; rewrite lookup_insert_eq;
    split_and!; try done.
  intros _. rewrite lookup_insert_ne by lia. rewrite lookup_insert_eq. by eexists.
Qed.

(** X28: on an empty line [input] returns an empty text, in a buffer of
    its own, without [error]; the line buffer is released. *)
Theorem input_empty_line (strtof : string → c_float * string)
  (prompt : string) (st : state) :
  heap_fresh st →
  input strtof (GetlineLine newline) true prompt st
  = Ok (mkState (<[Pos.succ (next st) := CharBuf EmptyString]> (heap st))
          (Pos.succ (Pos.succ (next st))) (eass_last_error st)
          (String.append (stdout st) (c_str prompt)),
        mkValue EASS_STRING 0 (PStr (Ptr (Pos.succ (next st))))).
Proof.
  intros Hfresh. unfold input.
  change (c_str newline) with (String "010" EmptyString). cbv iota.
  change (chop_newline (String "010" EmptyString)) with EmptyString. cbv iota.
  unfold strdup, fresh_block, free, set_heap, printf.
  cbn [mbind outcome_bind heap next eass_last_error stdout].
  rewrite lookup_insert_eq. cbn [mbind outcome_bind heap next eass_last_error stdout].
  do 3 f_equal.
  rewrite insert_insert_eq, delete_insert_eq. f_equal. apply delete_id. apply Hfresh. lia.
Qed.

Lemma input_empty_line_witness :
  input strtof_nothing (GetlineLine newline) true "? " initial_state
  = Ok (mkState (<[Pos.succ (next initial_state) := CharBuf EmptyString]>
                   (heap initial_state))
          (Pos.succ (Pos.succ (next initial_state))) (eass_last_error initial_state)
          (String.append (stdout initial_state) (c_str "? ")),
        mkValue EASS_STRING 0 (PStr (Ptr (Pos.succ (next initial_state))))).
Proof.
  apply (input_empty_line strtof_nothing "? " initial_state).
  intros a Ha. apply lookup_empty.
Defined.

(** ** Files *)

Lemma c_str_idemp (s : string) : c_str (c_str s) = c_str s.
Proof.
  induction s as [|c s IH]; [done|]. cbn [c_str].
  destruct (is_nul c) eqn:Hc; [done|]. cbn [c_str]. by rewrite Hc, IH.
Qed.

Lemma substring_all (s : string) : String.substring 0 (String.length s) s = s.
Proof. induction s as [|c s IH]; [done|]. cbn. by rewrite IH. Qed.

(** X29: [write_file] followed by [read_file] of the same name, with every
    library call succeeding: [write_file] returns 0 and leaves the state
    alone, and [read_file] returns a fresh buffer holding the text that was
    written. *)
Theorem write_then_read_file (fs : files) (errno errno' : Z)
  (filename content : string) (st : state) :
  ∃ fs1 st2,
    write_file fs
      (mkWriteAnswers errno true (Z.of_nat (String.length (c_str content))))
      filename content st
    = Ok (fs1, st, 0)
    ∧ read_file fs1
        (mkReadAnswers errno' true (Z.of_nat (String.length (c_str content))) true
           (Z.of_nat (String.length (c_str content))))
        filename st
      = Ok (st2, Ptr (next st))
    ∧ load_str st2 (Ptr (next st)) = Ok (c_str content).
Proof.
  unfold write_file, read_file. cbn [w_fopen w_fwrite r_fopen r_ftell r_malloc r_fread].
  set (n := Z.of_nat (String.length (c_str content))).
  assert (Hn : 0 ≤ n) by (unfold n; lia).
  assert (Hsub : String.substring 0 (Z.to_nat n) (c_str content) = c_str content).
  { unfold n. rewrite Nat2Z.id. apply substring_all. }
  destruct (Z.leb_spec 0 n) as [_|?]; [|lia].
  destruct (Z.leb_spec n n) as [_|?]; [|lia].
  rewrite Z.eqb_refl. cbn [andb negb].
  eexists _, _. split; [reflexivity|].
  rewrite lookup_insert_eq.
  destruct (Z.eqb_spec n (-1)) as [?|_]; [lia|].
  destruct (Z.ltb_spec n 0) as [?|_]; [lia|].
  unfold fresh_block. rewrite !Hsub. fold n.
  destruct (Z.leb_spec n n) as [_|?]; [|lia]. cbn [andb].
  split; [reflexivity|].
  unfold load_str, set_heap. cbn [heap]. rewrite lookup_insert_eq.
  by rewrite c_str_idemp.
Qed.

(** X30: whenever [read_file] returns [NULL], nothing it allocated is
    left behind, and the error slot holds the [errno] of the failed call or
    [ENOMEM]. *)
Theorem read_file_failure_keeps_heap (fs : files) (ans : read_answers)
  (filename : string) (st st' : state) :
  heap_fresh st →
  read_file fs ans filename st = Ok (st', NULL) →
  heap st' = heap st
  ∧ (code (eass_last_error st') = r_errno ans ∨ code (eass_last_error st') = ENOMEM).
Proof.
  intros Hfresh. unfold read_file.
  destruct (if r_fopen ans then fs !! c_str filename else None) as [content|];
    [|intros [= <-]; split; [done | by left]].
  destruct (r_ftell ans =? -1); [intros [= <-]; split; [done | by left]|].
  destruct (r_ftell ans <? 0); [done|].
  destruct (r_malloc ans); [|intros [= <-]; split; [done | by right]].
  unfold fresh_block. destruct (_ && _); [|done].
  destruct (negb _); [|done].
  unfold free, _set_error. cbn [heap]. rewrite lookup_insert_eq, bind_Ok.
  intros [= <-]. unfold set_heap. cbn [heap eass_last_error code].
  split; [|by left]. rewrite delete_insert_eq. apply delete_id. apply Hfresh. lia.
Qed.

Lemma read_file_failure_keeps_heap_witness :
  ∃ st',
    read_file one_file short_read "f" initial_state = Ok (st', NULL)
    ∧ heap st' = heap initial_state
    ∧ (code (eass_last_error st') = r_errno short_read
       ∨ code (eass_last_error st') = ENOMEM).
Proof.
  eexists. split; [vm_compute; reflexivity|].
  apply (read_file_failure_keeps_heap one_file short_read "f" initial_state).
  - intros a Ha. apply lookup_empty.
  - vm_compute. reflexivity.
Defined.
